(** * clean_epub_css: in-place CSS stripping of EPUB containers

    A shallow embedding of [clean_epub_css.py].  The file has two layers:

    - [clean_css_content]: the regular expression [CSS_REMOVE_PATTERN] and
      [re.sub] with an empty replacement, modelled by a backtracking matcher
      over a small regular-expression syntax;
    - [process_epub_inplace]: the extract / rewrite / repack / replace
      transaction, modelled in a state-and-exception monad over a file
      system whose fallible calls are answered by an explicit environment. *)

From Stdlib Require Import Ascii String NArith.
From Stdlib.Strings Require Import Byte.
From stdpp Require Import gmap strings list fin_maps.


(** ** Text

    A Python [str] is a sequence of Unicode code points; a code point is
    modelled by its number. *)

Abbreviation text := (list N) (only parsing).

(** The text of a string literal of this file. *)
Definition txt (s : string) : text := map N_of_ascii (list_ascii_of_string s).
Arguments txt s%_string.

Section Characters.

Local Open Scope N_scope.

Definition semicolon : N := 59.

Definition colon : N := 58.

(** [Py_UNICODE_ISSPACE], which is what [\s] tests in a [str] pattern:
    TAB..CR, FS..US, SPACE, NEL, NBSP, U+1680, U+2000..U+200A, U+2028,
    U+2029, U+202F, U+205F and U+3000. *)
Definition is_space (c : N) : bool :=
  ((9 <=? c) && (c <=? 13)) || ((28 <=? c) && (c <=? 32))
  || (c =? 133) || (c =? 160) || (c =? 5760)
  || ((8192 <=? c) && (c <=? 8202))
  || (c =? 8232) || (c =? 8233) || (c =? 8239) || (c =? 8287)
  || (c =? 12288).

(** [_sre.unicode_iscased] on a character of the pattern.  The pattern is
    written in ASCII, where the letters are the characters with case. *)
Definition unicode_iscased (p : N) : bool :=
  ((65 <=? p) && (p <=? 90)) || ((97 <=? p) && (p <=? 122)).

(** [sre_lower_unicode], the simple lower-case mapping of Unicode, as far
    as the compiled pattern can tell: the pattern compares the result with
    the letters [a]..[z], U+0131 and U+017F only, and the code points with
    another lower case among these are the letters [A]..[Z], U+0130 (to
    [i]) and U+212A (to [k]).  Every other code point stands for its own
    lower case here. *)
Definition sre_lower_unicode (c : N) : N :=
  if (65 <=? c) && (c <=? 90) then c + 32
  else if c =? 304 then 105
  else if c =? 8490 then 107
  else c.

(** [sre_compile._ignorecase_fixes] at an ASCII letter: the lower-case
    characters with the same upper case, U+0131 for [i] and U+017F for
    [s]. *)
Definition ignorecase_fixes (lo : N) : list N :=
  if lo =? 105 then [305] else if lo =? 115 then [383] else [].

(** One literal character [p] of the pattern against the subject character
    [c], as [re.IGNORECASE] compiles it: a character without case is
    compared as it is ([LITERAL]); for a letter the lower case of the
    subject is compared with the lower case of the letter
    ([LITERAL_UNI_IGNORE]) and with its fixes ([IN_UNI_IGNORE]). *)
Definition ci_eqb (p c : N) : bool :=
  if unicode_iscased p then
    let lo := sre_lower_unicode p in
    existsb (N.eqb (sre_lower_unicode c)) (lo :: ignorecase_fixes lo)
  else c =? p.

End Characters.

(** ** Regular expressions

    Only the constructs [CSS_REMOVE_PATTERN] uses: literal strings, greedy
    repetition of a one-character class, concatenation and ordered
    alternation. *)

Inductive cclass : Type :=
| CSpace     (* \s   *)
| CNotSemi.  (* [^;] *)

Definition in_class (k : cclass) (c : N) : bool :=
  match k with
  | CSpace => is_space c
  | CNotSemi => negb (N.eqb c semicolon)
  end.

Inductive regex : Type :=
| Str (w : text)
| Star (k : cclass)
| Seq (r1 r2 : regex)
| Alt (r1 r2 : regex).

(** Case-insensitive match of a literal against the head of the subject;
    the result is what follows the literal. *)
Fixpoint match_str (w s : text) : option text :=
  match w with
  | [] => Some s
  | p :: w' =>
      match s with
      | c :: s' => if ci_eqb p c then match_str w' s' else None
      | [] => None
      end
  end.

(** Greedy repetition with backtracking: take the character when the class
    allows it and the continuation succeeds later, otherwise stop here. *)
Fixpoint match_star (k : cclass) (s : text) (cont : text -> option text)
  : option text :=
  match s with
  | c :: s' =>
      if in_class k c then
        match match_star k s' cont with
        | Some out => Some out
        | None => cont s
        end
      else cont s
  | [] => cont s
  end.

(** The backtracking matcher in continuation-passing style.  Alternatives
    are tried left to right; the first overall success wins. *)
Fixpoint match_re (r : regex) (s : text) (cont : text -> option text)
  : option text :=
  match r with
  | Str w =>
      match match_str w s with
      | Some s' => cont s'
      | None => None
      end
  | Star k => match_star k s cont
  | Seq r1 r2 => match_re r1 s (fun s' => match_re r2 s' cont)
  | Alt r1 r2 =>
      match match_re r1 s cont with
      | Some out => Some out
      | None => match_re r2 s cont
      end
  end.

(** [pattern.match(s)]: the remainder of [s] after the match at its head. *)
Definition re_match (r : regex) (s : text) : option text :=
  match_re r s Some.

(** [pattern.sub('', s)] for a pattern that has no empty match: scan from
    the left, drop a match where one starts, keep the character where none
    does.  [fuel] bounds the number of scan steps. *)
Fixpoint re_sub_empty_aux (fuel : nat) (r : regex) (s : text) : text :=
  match fuel with
  | O => s
  | S fuel' =>
      match s with
      | [] => []
      | c :: s' =>
          match re_match r s with
          | Some rest => re_sub_empty_aux fuel' r rest
          | None => c :: re_sub_empty_aux fuel' r s'
          end
      end
  end.

Definition re_sub_empty (r : regex) (s : text) : text :=
  re_sub_empty_aux (S (length s)) r s.

(** ** The pattern *)

Definition ws : regex := Star CSpace.

Definition property_names : regex :=
  Alt (Str (txt "text-indent"))
 (Alt (Str (txt "line-height"))
 (Alt (Str (txt "font-size"))
 (Alt (Str (txt "height"))
 (Alt (Str (txt "font-family"))
      (Str (txt "color")))))).

(** (text-indent|line-height|font-size|height|font-family|color)\s*:\s*[^;]*; *)
Definition property_decl : regex :=
  Seq property_names
 (Seq ws (Seq (Str (txt ":")) (Seq ws (Seq (Star CNotSemi) (Str (txt ";")))))).

(** display\s*:\s*block\s*; *)
Definition display_block_decl : regex :=
  Seq (Str (txt "display"))
 (Seq ws (Seq (Str (txt ":")) (Seq ws (Seq (Str (txt "block"))
 (Seq ws (Str (txt ";"))))))).

Definition CSS_REMOVE_PATTERN : regex :=
  Alt property_decl display_block_decl.

Definition clean_css_content (css_content : text) : text :=
  re_sub_empty CSS_REMOVE_PATTERN css_content.

(** ** What the pattern denotes

    [matches r m]: the text [m] belongs to the language of [r]. *)

Definition ci_equal (w m : text) : Prop :=
  Forall2 (fun p c => ci_eqb p c = true) w m.

Definition all_in (k : cclass) (m : text) : Prop :=
  Forall (fun c => in_class k c = true) m.

Inductive matches : regex -> text -> Prop :=
| M_Str w m : ci_equal w m -> matches (Str w) m
| M_Star k m : all_in k m -> matches (Star k) m
| M_Seq r1 r2 m1 m2 :
    matches r1 m1 -> matches r2 m2 -> matches (Seq r1 r2) (m1 ++ m2)
| M_AltL r1 r2 m : matches r1 m -> matches (Alt r1 r2) m
| M_AltR r1 r2 m : matches r2 m -> matches (Alt r1 r2) m.

(** ** The removed declarations, in the words of the specification

    A declaration of one of the six listed properties: the property name in
    any letter case, optional white space, a colon, optional white space, a
    value without a semicolon, and the terminating semicolon.  And the
    declaration [display : block ;].

    Letter case and white space are spelled out here character by
    character, with no reference to the matcher. *)

Definition removed_properties : list text :=
  [txt "text-indent"; txt "line-height"; txt "font-size";
   txt "height"; txt "font-family"; txt "color"].

(** The characters that are read as the character [p] of a property name
    when letter case is ignored: for a letter the small and the capital
    letter, and the further characters Unicode gives the same case
    variants: capital I with dot and dotless i for [i], the Kelvin sign for
    [k], long s for [s].  Any other character is read as itself only. *)
Definition letter_forms (p : N) : list N :=
  if ((97 <=? p) && (p <=? 122))%N then
    p :: (p - 32)%N ::
      (if (p =? 105)%N then [304%N; 305%N]
       else if (p =? 107)%N then [8490%N]
       else if (p =? 115)%N then [383%N]
       else [])
  else [p].

(** [m] is the word [w] up to letter case. *)
Definition same_word (w m : text) : Prop :=
  Forall2 (fun p c => In c (letter_forms p)) w m.

(** The word [w] is written without capital letters. *)
Definition small (w : text) : Prop := Forall (fun p => ~ (65 <= p <= 90)%N) w.

(** Capital and small letters of ASCII, one for the other. *)
Definition ascii_upper (c : N) : N :=
  if ((97 <=? c) && (c <=? 122))%N then (c - 32)%N else c.

Definition ascii_lower (c : N) : N :=
  if ((65 <=? c) && (c <=? 90))%N then (c + 32)%N else c.

(** The white-space characters of Unicode. *)
Definition white_space : list N :=
  [9; 10; 11; 12; 13; 28; 29; 30; 31; 32; 133; 160; 5760;
   8192; 8193; 8194; 8195; 8196; 8197; 8198; 8199; 8200; 8201; 8202;
   8232; 8233; 8239; 8287; 12288]%N.

Definition blank (m : text) : Prop := Forall (fun c => In c white_space) m.

Definition semicolon_free (m : text) : Prop := Forall (fun c => c <> semicolon) m.

Definition is_property_declaration (m : text) : Prop :=
  exists name n sp1 sp2 value,
    In name removed_properties /\ same_word name n /\
    blank sp1 /\ blank sp2 /\ semicolon_free value /\
    m = n ++ sp1 ++ txt ":" ++ sp2 ++ value ++ txt ";".

Definition is_display_block (m : text) : Prop :=
  exists d sp1 sp2 b sp3,
    same_word (txt "display") d /\ same_word (txt "block") b /\
    blank sp1 /\ blank sp2 /\ blank sp3 /\
    m = d ++ sp1 ++ txt ":" ++ sp2 ++ b ++ sp3 ++ txt ";".

Definition removed_declaration (m : text) : Prop :=
  is_property_declaration m \/ is_display_block m.

(** A removed declaration starts at the head of [s]. *)
Definition declaration_at_head (s : text) : Prop :=
  exists m rest, s = m ++ rest /\ removed_declaration m.

(** A removed declaration occurs somewhere in [s]. *)
Definition declaration_occurs (s : text) : Prop :=
  exists before m after, s = before ++ m ++ after /\ removed_declaration m.

(** Left-to-right deletion of non-overlapping declarations: at each
    position, a declaration that starts there is dropped as a whole and the
    scan resumes behind it; a character where none starts is kept. *)
Inductive strips_to : text -> text -> Prop :=
| strips_nil : strips_to [] []
| strips_drop m rest out :
    removed_declaration m -> strips_to rest out -> strips_to (m ++ rest) out
| strips_keep c s out :
    ~ declaration_at_head (c :: s) -> strips_to s out ->
    strips_to (c :: s) (c :: out).


(** * The file system, the ZIP library and the environment *)

Abbreviation bytes := (list byte) (only parsing).

(** A path below a scratch directory, as its list of components. *)
Abbreviation path := (list string) (only parsing).

(** ** Directory trees

    A directory is the list of its entries in listing order; an entry is a
    regular file with its bytes or a subdirectory. *)

#[warnings="-register-all"]
Inductive node : Type :=
| File (data : bytes)
| Dir (children : list (string * node)).

Abbreviation tree := (list (string * node)) (only parsing).

Fixpoint assoc {A} (name : string) (l : list (string * A)) : option A :=
  match l with
  | [] => None
  | (k, v) :: l' => if String.eqb k name then Some v else assoc name l'
  end.

(** Replace the value at the first entry named [name]. *)
Fixpoint assoc_set {A} (name : string) (v : A) (l : list (string * A))
  : list (string * A) :=
  match l with
  | [] => []
  | (k, x) :: l' =>
      if String.eqb k name then (k, v) :: l' else (k, x) :: assoc_set name v l'
  end.

Fixpoint find_node (p : path) (n : node) : option node :=
  match p with
  | [] => Some n
  | c :: p' =>
      match n with
      | File _ => None
      | Dir ch =>
          match assoc c ch with
          | Some n' => find_node p' n'
          | None => None
          end
      end
  end.

Definition read_node (p : path) (n : node) : option bytes :=
  match find_node p n with
  | Some (File b) => Some b
  | _ => None
  end.

Definition read_file (p : path) (t : tree) : option bytes :=
  read_node p (Dir t).

(** [os.makedirs(p)] where missing, below the root of [t]; [None] when a
    regular file is in the way. *)
Fixpoint makedirs (p : path) (t : tree) : option tree :=
  match p with
  | [] => Some t
  | d :: p' =>
      match assoc d t with
      | Some (File _) => None
      | Some (Dir ch) =>
          match makedirs p' ch with
          | Some ch' => Some (assoc_set d (Dir ch') t)
          | None => None
          end
      | None =>
          match makedirs p' [] with
          | Some ch' => Some (t ++ [(d, Dir ch')])
          | None => None
          end
      end
  end.

(** [open(p, 'wb')] followed by writing [b]: the file is created or
    replaced inside an existing directory; [None] when the parent is not a
    directory, or the path is empty or names a directory. *)
Fixpoint set_file (p : path) (b : bytes) (t : tree) : option tree :=
  match p with
  | [] => None
  | f :: p' =>
      match p' with
      | [] =>
          match assoc f t with
          | Some (Dir _) => None
          | Some (File _) => Some (assoc_set f (File b) t)
          | None => Some (t ++ [(f, File b)])
          end
      | _ :: _ =>
          match assoc f t with
          | Some (Dir ch) =>
              match set_file p' b ch with
              | Some ch' => Some (assoc_set f (Dir ch') t)
              | None => None
              end
          | _ => None
          end
      end
  end.

Definition is_dir_node (n : node) : bool :=
  match n with Dir _ => true | File _ => false end.

Definition dirnames (t : tree) : list string :=
  map fst (filter (fun e => is_dir_node (snd e) = true) t).

Definition filenames (t : tree) : list string :=
  map fst (filter (fun e => is_dir_node (snd e) = false) t).

(** [os.walk], top-down: a directory yields its (root, dirs, files) triple
    and then its subdirectories are walked in listing order. *)
Fixpoint walk_node (root : path) (n : node)
  : list (path * list string * list string) :=
  match n with
  | File _ => []
  | Dir ch =>
      (root, dirnames ch, filenames ch)
      :: (fix walk_children (l : list (string * node)) :=
            match l with
            | [] => []
            | (name, c) :: l' => walk_node (root ++ [name]) c ++ walk_children l'
            end) ch
  end.

Definition walk_tree (t : tree) : list (path * list string * list string) :=
  walk_node [] (Dir t).

(** ** ZIP archives *)

Inductive compress_type : Type := ZIP_STORED | ZIP_DEFLATED.

Record ZipInfo : Type := {
  filename : string;
  file_data : bytes;
  compression : compress_type;
}.

Abbreviation archive := (list ZipInfo) (only parsing).

(** ** Strings of file names

    A file name is a [string]; its characters are the code points below
    256. *)

Definition code (c : ascii) : nat := nat_of_ascii c.

(** [str.lower] on one character of a file name. *)
Definition to_lower (c : ascii) : ascii :=
  let n := code c in
  if ((65 <=? n) && (n <=? 90))
     || ((192 <=? n) && (n <=? 222) && negb (n =? 215))
  then ascii_of_nat (n + 32) else c.

Fixpoint str_lower (s : string) : string :=
  match s with
  | EmptyString => EmptyString
  | String c s' => String (to_lower c) (str_lower s')
  end.

(** [s.endswith(suffix)]: some tail of [s] is [suffix]. *)
Fixpoint str_endswith (s suffix : string) : bool :=
  String.eqb s suffix ||
  match s with
  | EmptyString => false
  | String _ s' => str_endswith s' suffix
  end.

(** [file.lower().endswith('.css')] *)
Definition is_css_name (file : string) : bool :=
  str_endswith (str_lower file) ".css".

(** [name.split('/')], with [cur] the component read so far. *)
Fixpoint split_slash (cur : string) (s : string) : list string :=
  match s with
  | EmptyString => [cur]
  | String c s' =>
      if Ascii.eqb c "/"%char then cur :: split_slash EmptyString s'
      else split_slash (cur +:+ String c EmptyString) s'
  end.

Definition valid_component (c : string) : bool :=
  negb (String.eqb c "" || String.eqb c "." || String.eqb c "..").

(** Where [extractall] puts a member: the components of its name, without
    the empty ones, ['.'] and ['..']. *)
Definition member_path (name : string) : path :=
  filter (fun c => valid_component c = true) (split_slash EmptyString name).

(** [ZipInfo.is_dir]: the name ends with a slash. *)
Definition member_is_dir (name : string) : bool := str_endswith name "/".

Fixpoint join_slash (p : path) : string :=
  match p with
  | [] => ""
  | [c] => c
  | c :: p' => c +:+ "/" +:+ join_slash p'
  end.

Fixpoint slash_free (s : string) : bool :=
  match s with
  | EmptyString => true
  | String c s' => negb (Ascii.eqb c "/"%char) && slash_free s'
  end.

(** A file or directory name as a directory can hold it. *)
Definition good_component (c : string) : Prop :=
  valid_component c = true /\ slash_free c = true.

(** Every regular file of the tree lies at a path of good components. *)
Definition good_files (t : tree) : Prop :=
  forall q b, read_file q t = Some b -> q <> [] /\ Forall good_component q.


(** The archive name [ZipFile.write] stores for
    [os.path.relpath(file_path, temp_dir)]. *)
Definition relpath_arcname (p : path) : string := join_slash p.

(** ** The platform

    The byte format of ZIP archives and the text codec of [open] are left
    to the platform: [zip_read] is [None] where [zipfile.ZipFile(path, 'r')]
    raises [BadZipFile]; [zip_bytes] gives the bytes of a closed archive;
    [decode_text] is reading with [encoding='utf-8', errors='ignore'] and
    [encode_text] is writing with [encoding='utf-8']. *)

Class Platform : Type := {
  zip_read : bytes -> option archive;
  zip_bytes : archive -> bytes;
  decode_text : bytes -> text;
  encode_text : text -> bytes;
}.

(** ** The environment

    Every library call that can raise for a reason outside the program is
    answered by the environment of the run. *)

Inductive write_fault : Type :=
| WriteOk
| WriteFailOpen        (* [open(..., 'w')] raises, the file is untouched *)
| WriteFailTruncated.  (* the file is truncated, then [f.write] raises   *)

Inductive pack_fault : Type :=
| PackOk
| PackFailOpen                            (* the archive cannot be created *)
| PackFailAt (n : nat) (partial : bytes). (* raises after [n] members      *)

Inductive remove_site : Type :=
| InPackHandler | InMoveHandler | InOuterHandler | InFinally.

(** How the copy that [shutil.move] falls back on fails. *)
Inductive copy_fault : Type :=
| CopyOk
| CopyFailOpen            (* raises before the destination is opened      *)
| CopyFailAfter (n : nat). (* the destination holds the first [n] bytes,
                              then [copy2] raises; with all bytes written
                              it is [copystat] that raises                *)

Record Env : Type := {
  env_mkdtemp : option string;        (* the fresh directory; [None] raises *)
  env_uuid4 : string;
  env_extract_fault : option nat;     (* raises after this many members     *)
  env_extract_corrupt : bool;         (* ... with [BadZipFile]: the member
                                         has a bad header or check sum      *)
  env_extract_debris : tree -> tree;  (* what the member at which it raises
                                         leaves in the scratch tree:
                                         directories, a part of its file    *)
  env_read_fault : path -> bool;
  env_write_fault : path -> write_fault;
  env_pack_fault : pack_fault;
  env_move_fault : bool;              (* [os.rename] raises                 *)
  env_copy_fault : copy_fault;
  env_unlink_fault : bool;            (* [os.unlink] raises                 *)
  env_remove_fault : remove_site -> bool;
  env_rmtree_fault : bool;
}.

(** ** The state of a run *)

Inductive Msg : Type :=
| MsgStart | MsgBadZip | MsgExtractError
| MsgReadWarning (file : string)
| MsgCleaned (p : path)
| MsgWriteWarning (file : string)
| MsgNoCss | MsgNoChange | MsgRepacking | MsgPackError
| MsgReplacing | MsgDone | MsgReplaceError | MsgUnexpected
| MsgRmtreeWarning.

Record World : Type := {
  files : gmap string bytes;    (* regular files by absolute path   *)
  tmpdirs : gmap string tree;   (* scratch directories by their path *)
  console : list Msg;
}.

(** The local variables of [process_epub_inplace], and the members written
    so far to the archive that is open for writing. *)
Record Locals : Type := {
  temp_output_epub_path : option string;
  temp_dir : option string;
  css_files_found : bool;
  modified : bool;
  new_zip : archive;
}.

Definition State : Type := World * Locals.

Definition set_files (f : gmap string bytes) (w : World) : World :=
  {| files := f; tmpdirs := tmpdirs w; console := console w |}.

Definition set_tmpdirs (d : gmap string tree) (w : World) : World :=
  {| files := files w; tmpdirs := d; console := console w |}.

Definition add_console (m : Msg) (w : World) : World :=
  {| files := files w; tmpdirs := tmpdirs w; console := console w ++ [m] |}.

Definition set_temp_output_epub_path (v : option string) (l : Locals) : Locals :=
  {| temp_output_epub_path := v; temp_dir := temp_dir l;
     css_files_found := css_files_found l; modified := modified l;
     new_zip := new_zip l |}.

Definition set_temp_dir (v : option string) (l : Locals) : Locals :=
  {| temp_output_epub_path := temp_output_epub_path l; temp_dir := v;
     css_files_found := css_files_found l; modified := modified l;
     new_zip := new_zip l |}.

Definition set_css_files_found (v : bool) (l : Locals) : Locals :=
  {| temp_output_epub_path := temp_output_epub_path l; temp_dir := temp_dir l;
     css_files_found := v; modified := modified l; new_zip := new_zip l |}.

Definition set_modified (v : bool) (l : Locals) : Locals :=
  {| temp_output_epub_path := temp_output_epub_path l; temp_dir := temp_dir l;
     css_files_found := css_files_found l; modified := v;
     new_zip := new_zip l |}.

Definition set_new_zip (v : archive) (l : Locals) : Locals :=
  {| temp_output_epub_path := temp_output_epub_path l; temp_dir := temp_dir l;
     css_files_found := css_files_found l; modified := modified l;
     new_zip := v |}.

Definition initial_locals : Locals :=
  {| temp_output_epub_path := None; temp_dir := None;
     css_files_found := false; modified := false; new_zip := [] |}.

(** ** Control flow: a state monad with [return] and exceptions *)

Inductive exn : Type := BadZipFile | OSError.

Inductive Outcome (A : Type) : Type :=
| Normal (a : A)     (* the statement ran to its end       *)
| Return (b : bool)  (* a [return] statement was executed  *)
| Raise (e : exn).   (* an exception is propagating        *)
Arguments Normal {A} a.
Arguments Return {A} b.
Arguments Raise {A} e.

Definition M (A : Type) : Type := State -> Outcome A * State.

Definition ret {A} (a : A) : M A := fun st => (Normal a, st).

Definition bind {A B} (m : M A) (f : A -> M B) : M B :=
  fun st =>
    match m st with
    | (Normal a, st') => f a st'
    | (Return b, st') => (Return b, st')
    | (Raise e, st') => (Raise e, st')
    end.

Definition return_ {A} (b : bool) : M A := fun st => (Return b, st).

Definition raise {A} (e : exn) : M A := fun st => (Raise e, st).

Declare Scope py_scope.
Delimit Scope py_scope with py.
Notation "x <- m ;; k" := (bind m (fun x => k))
  (at level 100, m at next level, right associativity) : py_scope.
Notation "m ;; k" := (bind m (fun _ => k))
  (at level 100, right associativity) : py_scope.
Local Open Scope py_scope.

(** An [except] clause: the class it catches and its body. *)
Definition clause (A : Type) : Type := (exn -> bool) * M A.

Definition is_BadZipFile (e : exn) : bool :=
  match e with BadZipFile => true | OSError => false end.

Definition is_OSError (e : exn) : bool :=
  match e with OSError => true | BadZipFile => false end.

Definition is_Exception (e : exn) : bool := true.

Fixpoint handle {A} (e : exn) (clauses : list (clause A)) : M A :=
  match clauses with
  | [] => raise e
  | (cls, body) :: rest => if cls e then body else handle e rest
  end.

(** [try: m  except ...: ...] *)
Definition try_except {A} (m : M A) (clauses : list (clause A)) : M A :=
  fun st =>
    match m st with
    | (Raise e, st') => handle e clauses st'
    | r => r
    end.

(** [try: m  finally: fin].  The outcome of [m] stands unless [fin] itself
    returns or raises. *)
Definition try_finally {A} (m : M A) (fin : M unit) : M A :=
  fun st =>
    match m st with
    | (o, st') =>
        match fin st' with
        | (Normal _, st'') => (o, st'')
        | (Return b, st'') => (Return b, st'')
        | (Raise e, st'') => (Raise e, st'')
        end
    end.

Fixpoint for_each {A} (l : list A) (body : A -> M unit) : M unit :=
  match l with
  | [] => ret tt
  | x :: l' => body x ;; for_each l' body
  end.

Definition when (b : bool) (m : M unit) : M unit := if b then m else ret tt.

Definition get_local {A} (f : Locals -> A) : M A :=
  fun st => (Normal (f (snd st)), st).

Definition set_local (f : Locals -> Locals) : M unit :=
  fun st => (Normal tt, (fst st, f (snd st))).

Definition get_world {A} (f : World -> A) : M A :=
  fun st => (Normal (f (fst st)), st).

Definition set_world (f : World -> World) : M unit :=
  fun st => (Normal tt, (f (fst st), snd st)).

Definition print (m : Msg) : M unit := set_world (add_console m).

(** ** Library calls *)

Section Process.

Context `{Platform}.
Variable env : Env.

(** [tempfile.mkdtemp()] *)
Definition mkdtemp : M string :=
  match env_mkdtemp env with
  | None => raise OSError
  | Some d =>
      dirs <- get_world tmpdirs ;;
      match dirs !! d with
      | Some _ => raise OSError
      | None => set_world (set_tmpdirs (<[d := []]> dirs)) ;; ret d
      end
  end.

(** [zipfile.ZipFile(epub_path, 'r')] *)
Definition zip_open_read (epub_path : string) : M archive :=
  fs <- get_world files ;;
  match fs !! epub_path with
  | None => raise OSError
  | Some b =>
      match zip_read b with
      | None => raise BadZipFile
      | Some a => ret a
      end
  end.

(** Extraction of one member below the root of the scratch tree. *)
Definition extract_member (m : ZipInfo) (t : tree) : option tree :=
  let p := member_path (filename m) in
  if member_is_dir (filename m) then makedirs p t
  else
    match makedirs (removelast p) t with
    | Some t' => set_file p (file_data m) t'
    | None => None
    end.

(** The members in archive order.  The result is the tree as extracted so
    far and whether every member was extracted; [fault] counts down to the
    member at which the environment makes the extraction raise. *)
Fixpoint extract_members (fault : option nat) (a : archive) (t : tree)
  : tree * bool :=
  match a with
  | [] => (t, true)
  | m :: a' =>
      match fault with
      | Some 0 => (t, false)
      | _ =>
          match extract_member m t with
          | Some t' => extract_members (pred <$> fault) a' t'
          | None => (t, false)
          end
      end
  end.

(** What an extraction that stops early raises: [e] where the
    environment strikes, [OSError] where a member cannot be written. *)
Fixpoint extract_error (fault : option nat) (e : exn) (a : archive) (t : tree)
  : exn :=
  match a with
  | [] => OSError
  | m :: a' =>
      match fault with
      | Some 0 => e
      | _ =>
          match extract_member m t with
          | Some t' => extract_error (pred <$> fault) e a' t'
          | None => OSError
          end
      end
  end.

(** The exception of the environment's extraction failure: [BadZipFile]
    for a member with a bad header or check sum. *)
Definition extract_exn : exn :=
  if env_extract_corrupt env then BadZipFile else OSError.

(** [zip_ref.extractall(temp_dir)] *)
Definition extractall (zip_ref : archive) (d : string) : M unit :=
  dirs <- get_world tmpdirs ;;
  match dirs !! d with
  | None => raise OSError
  | Some t =>
      let '(t', ok) := extract_members (env_extract_fault env) zip_ref t in
      if ok then set_world (set_tmpdirs (<[d := t']> dirs))
      else
        set_world (set_tmpdirs (<[d := env_extract_debris env t']> dirs)) ;;
        raise (extract_error (env_extract_fault env) extract_exn zip_ref t)
  end.

(** [os.walk(temp_dir)]; a directory that cannot be listed yields nothing. *)
Definition os_walk (d : string) : M (list (path * list string * list string)) :=
  dirs <- get_world tmpdirs ;;
  match dirs !! d with
  | None => ret []
  | Some t => ret (walk_tree t)
  end.

(** [open(p, 'r', encoding='utf-8', errors='ignore')] and [f.read()] *)
Definition read_text (d : string) (p : path) : M text :=
  if env_read_fault env p then raise OSError
  else
    dirs <- get_world tmpdirs ;;
    match dirs !! d with
    | None => raise OSError
    | Some t =>
        match read_file p t with
        | Some b => ret (decode_text b)
        | None => raise OSError
        end
    end.

Definition store_file (d : string) (p : path) (b : bytes) : M unit :=
  dirs <- get_world tmpdirs ;;
  match dirs !! d with
  | None => raise OSError
  | Some t =>
      match set_file p b t with
      | Some t' => set_world (set_tmpdirs (<[d := t']> dirs))
      | None => raise OSError
      end
  end.

(** [open(p, 'w', encoding='utf-8')] and [f.write(content)] *)
Definition write_text (d : string) (p : path) (content : text) : M unit :=
  match env_write_fault env p with
  | WriteFailOpen => raise OSError
  | WriteFailTruncated => store_file d p [] ;; raise OSError
  | WriteOk => store_file d p (encode_text content)
  end.

(** [os.path.exists] of a path below the scratch directory. *)
Definition scratch_path_exists (d : string) (p : path) : M bool :=
  dirs <- get_world tmpdirs ;;
  match dirs !! d with
  | None => ret false
  | Some t =>
      match find_node p (Dir t) with
      | Some _ => ret true
      | None => ret false
      end
  end.

(** [os.path.exists] of a regular file outside the scratch directories,
    and of a scratch directory. *)
Definition file_exists (p : string) : M bool :=
  fs <- get_world files ;; ret (bool_decide (is_Some (fs !! p))).

Definition dir_exists (d : string) : M bool :=
  dirs <- get_world tmpdirs ;; ret (bool_decide (is_Some (dirs !! d))).

(** [os.remove(p)] *)
Definition os_remove (site : remove_site) (p : string) : M unit :=
  if env_remove_fault env site then raise OSError
  else
    fs <- get_world files ;;
    match fs !! p with
    | None => raise OSError
    | Some _ => set_world (set_files (delete p fs))
    end.

(** [shutil.rmtree(d)] *)
Definition rmtree (d : string) : M unit :=
  if env_rmtree_fault env then raise OSError
  else
    dirs <- get_world tmpdirs ;;
    match dirs !! d with
    | None => raise OSError
    | Some _ => set_world (set_tmpdirs (delete d dirs))
    end.

(** [os.rename(src, dst)]: [dst] is replaced by [src] as a whole, or the
    call raises and changes nothing. *)
Definition os_rename (src dst : string) : M unit :=
  if env_move_fault env then raise OSError
  else
    fs <- get_world files ;;
    match fs !! src with
    | None => raise OSError
    | Some b => set_world (set_files (<[dst := b]> (delete src fs)))
    end.

(** [shutil.copy2(src, dst)]: the destination is opened for writing, which
    truncates it, and filled; the call can raise at any point of this. *)
Definition copy2 (src dst : string) : M unit :=
  fs <- get_world files ;;
  match fs !! src with
  | None => raise OSError
  | Some b =>
      match env_copy_fault env with
      | CopyOk => set_world (set_files (<[dst := b]> fs))
      | CopyFailOpen => raise OSError
      | CopyFailAfter n =>
          set_world (set_files (<[dst := take n b]> fs)) ;; raise OSError
      end
  end.

(** [os.unlink(src)] *)
Definition os_unlink (src : string) : M unit :=
  if env_unlink_fault env then raise OSError
  else
    fs <- get_world files ;;
    match fs !! src with
    | None => raise OSError
    | Some _ => set_world (set_files (delete src fs))
    end.

(** [shutil.move(src, dst)] for a regular file [src] and a [dst] that is
    no directory: the rename, and when that raises the copy and the
    removal of the source. *)
Definition shutil_move (src dst : string) : M unit :=
  try_except (os_rename src dst)
    [ (is_OSError, copy2 src dst ;; os_unlink src) ].

(** Opening the archive for writing creates the file. *)
Definition zip_open_write (p : string) : M unit :=
  match env_pack_fault env with
  | PackFailOpen => raise OSError
  | _ =>
      fs <- get_world files ;;
      set_world (set_files (<[p := []]> fs)) ;;
      set_local (set_new_zip [])
  end.

(** The environment's write failure strikes when [n] members are in the
    archive; the file then holds what had reached the disk. *)
Definition pack_fault_check (p : string) : M unit :=
  members <- get_local new_zip ;;
  match env_pack_fault env with
  | PackFailAt n partial =>
      if length members =? n then
        fs <- get_world files ;;
        set_world (set_files (<[p := partial]> fs)) ;;
        raise OSError
      else ret tt
  | _ => ret tt
  end.

(** [new_zip.write(src, arcname, compress_type)] on the archive opened at
    [p] with default compression [ZIP_DEFLATED].  A directory is stored as
    a member whose name ends with a slash. *)
Definition zip_write (p d : string) (src : path) (arcname : string)
    (ctype : option compress_type) : M unit :=
  pack_fault_check p ;;
  dirs <- get_world tmpdirs ;;
  match dirs !! d with
  | None => raise OSError
  | Some t =>
      match find_node src (Dir t) with
      | None => raise OSError
      | Some (File b) =>
          members <- get_local new_zip ;;
          set_local (set_new_zip (members ++
            [{| filename := arcname; file_data := b;
                compression := default ZIP_DEFLATED ctype |}]))
      | Some (Dir _) =>
          members <- get_local new_zip ;;
          set_local (set_new_zip (members ++
            [{| filename := arcname +:+ "/"; file_data := [];
                compression := ZIP_STORED |}]))
      end
  end.

(** Closing writes the central directory; the file is then the archive of
    the members written. *)
Definition zip_close (p : string) : M unit :=
  pack_fault_check p ;;
  members <- get_local new_zip ;;
  fs <- get_world files ;;
  set_world (set_files (<[p := zip_bytes members]> fs)).

(** [with zipfile.ZipFile(p, 'w', zipfile.ZIP_DEFLATED) as new_zip: body] *)
Definition with_zipfile_write (p : string) (body : M unit) : M unit :=
  zip_open_write p ;; body ;; zip_close p.

(** ** [process_epub_inplace] *)

Variable transform : text -> text.

Definition temp_output_name (epub_path : string) : string :=
  epub_path +:+ "." +:+ env_uuid4 env +:+ ".tmpzip".

(** Step 2: extraction. *)
Definition step_extract (epub_path d : string) : M unit :=
  try_except
    (zip_ref <- zip_open_read epub_path ;; extractall zip_ref d)
    [ (is_BadZipFile, print MsgBadZip ;; return_ false);
      (is_Exception, print MsgExtractError ;; return_ false) ].

(** The body of the inner loop of step 3, for one file name. *)
Definition clean_one (d : string) (root : path) (file : string) : M unit :=
  if is_css_name file then
    set_local (set_css_files_found true) ;;
    let css_file_path := root ++ [file] in
    r <- try_except
           (c <- read_text d css_file_path ;; ret (Some c))
           [ (is_Exception, print (MsgReadWarning file) ;; ret None) ] ;;
    match r with
    | None => ret tt
    | Some original_content =>
        let cleaned_content := transform original_content in
        if bool_decide (cleaned_content = original_content) then ret tt
        else
          try_except
            (write_text d css_file_path cleaned_content ;;
             print (MsgCleaned css_file_path) ;;
             set_local (set_modified true))
            [ (is_Exception, print (MsgWriteWarning file)) ]
    end
  else ret tt.

(** Step 3: the walk over the scratch tree. *)
Definition step_walk (d : string) : M unit :=
  set_local (set_css_files_found false) ;;
  set_local (set_modified false) ;;
  items <- os_walk d ;;
  for_each items (fun item =>
    let '(root, _, files) := item in
    for_each files (clean_one d root)).

Fixpoint remove_first (x : string) (l : list string) : list string :=
  match l with
  | [] => []
  | y :: l' => if String.eqb y x then l' else y :: remove_first x l'
  end.

(** The body of the [with] statement of step 5. *)
Definition pack_body (p d : string) : M unit :=
  let mimetype_path := ["mimetype"] in
  found <- scratch_path_exists d mimetype_path ;;
  when found (zip_write p d mimetype_path "mimetype" (Some ZIP_STORED)) ;;
  items <- os_walk d ;;
  for_each items (fun item =>
    let '(root, _, files) := item in
    let files :=
      if bool_decide (root = []) && bool_decide ("mimetype" ∈ files)
      then remove_first "mimetype" files else files in
    for_each files (fun file =>
      let file_path := root ++ [file] in
      let arcname := relpath_arcname file_path in
      zip_write p d file_path arcname None)).

(** [if temp_output_epub_path and os.path.exists(temp_output_epub_path)] *)
Definition if_temp_output_exists (k : string -> M unit) : M unit :=
  tmp <- get_local temp_output_epub_path ;;
  match tmp with
  | None => ret tt
  | Some p => found <- file_exists p ;; when found (k p)
  end.

(** Step 5: repacking. *)
Definition step_pack (p d : string) : M unit :=
  try_except
    (with_zipfile_write p (pack_body p d))
    [ (is_Exception,
       print MsgPackError ;;
       if_temp_output_exists (os_remove InPackHandler) ;;
       return_ false) ].

(** Step 6: replacing the original. *)
Definition step_replace (p epub_path : string) : M unit :=
  try_except
    (shutil_move p epub_path ;;
     set_local (set_temp_output_epub_path None) ;;
     print MsgDone ;;
     return_ true)
    [ (is_Exception,
       print MsgReplaceError ;;
       if_temp_output_exists (os_remove InMoveHandler) ;;
       return_ false) ].

(** What follows the walk: the two early returns and steps 4 to 6. *)
Definition after_walk (epub_path d : string) : M unit :=
  found <- get_local css_files_found ;;
  if negb found then print MsgNoCss ;; return_ true
  else
    changed <- get_local modified ;;
    if negb changed then print MsgNoChange ;; return_ true
    else
      let p := temp_output_name epub_path in
      set_local (set_temp_output_epub_path (Some p)) ;;
      print MsgRepacking ;;
      step_pack p d ;;
      print MsgReplacing ;;
      step_replace p epub_path.

(** The statements of the outer [try]. *)
Definition process_try (epub_path : string) : M unit :=
  print MsgStart ;;
  d <- mkdtemp ;;
  set_local (set_temp_dir (Some d)) ;;
  step_extract epub_path d ;;
  step_walk d ;;
  after_walk epub_path d.

(** The outer [except Exception] clause. *)
Definition process_except : M unit :=
  print MsgUnexpected ;;
  if_temp_output_exists (fun p =>
    try_except (os_remove InOuterHandler p) [ (is_OSError, ret tt) ]) ;;
  return_ false.

(** The [finally] clause. *)
Definition process_finally : M unit :=
  td <- get_local temp_dir ;;
  match td with
  | None => ret tt
  | Some d =>
      found <- dir_exists d ;;
      when found
        (try_except (rmtree d) [ (is_OSError, print MsgRmtreeWarning) ])
  end ;;
  if_temp_output_exists (fun p =>
    try_except (os_remove InFinally p) [ (is_OSError, ret tt) ]).

Definition process_stmt (epub_path : string) : M unit :=
  try_finally
    (try_except (process_try epub_path) [ (is_Exception, process_except) ])
    process_finally.

End Process.

(** What a call hands back to its caller. *)
Inductive Result : Type :=
| Returned (b : bool)
| ReturnedNone
| Raised (e : exn).

Definition call (m : M unit) (w : World) : Result * World :=
  match m (w, initial_locals) with
  | (Normal _, st) => (ReturnedNone, fst st)
  | (Return b, st) => (Returned b, fst st)
  | (Raise e, st) => (Raised e, fst st)
  end.

(** The pipeline for an arbitrary content transform. *)
Definition process_with `{Platform} (transform : text -> text)
    (env : Env) (epub_path : string) (w : World) : Result * World :=
  call (process_stmt env transform epub_path) w.

(** The program: the transform is [clean_css_content]. *)
Definition process_epub_inplace `{Platform}
    (env : Env) (epub_path : string) (w : World) : Result * World :=
  process_with clean_css_content env epub_path w.

(** * The walk and the repacking as functions of the scratch tree

    The two loops of [process_epub_inplace] touch nothing but the scratch
    tree, the console, two flags and the open archive.  Their effect is
    restated here as plain functions; the lemmas [step_walk_run] and
    [pack_run] below show that the program computes exactly these. *)

(** The (root, file) pairs in the order the nested loops visit them. *)
Definition walk_files (t : tree) : list (path * string) :=
  flat_map (fun item : path * list string * list string =>
              let '(root, _, fs) := item in map (pair root) fs)
           (walk_tree t).

(** The last component of a path names a style sheet. *)
Definition css_path (q : path) : Prop :=
  exists root f, q = root ++ [f] /\ is_css_name f = true.

(** The messages of the walk. *)
Definition walk_msg (m : Msg) : Prop :=
  match m with
  | MsgReadWarning _ | MsgCleaned _ | MsgWriteWarning _ => True
  | _ => False
  end.

Record WalkState : Type := {
  ws_tree : list (string * node);
  ws_found : bool;
  ws_modified : bool;
  ws_msgs : list Msg;
}.

Section Pure.

Context `{Platform}.
Variable env : Env.
Variable transform : text -> text.

Definition walk_warn (m : Msg) (s : WalkState) : WalkState :=
  {| ws_tree := ws_tree s; ws_found := true; ws_modified := ws_modified s;
     ws_msgs := ws_msgs s ++ [m] |}.

Definition walk_skip (s : WalkState) : WalkState :=
  {| ws_tree := ws_tree s; ws_found := true; ws_modified := ws_modified s;
     ws_msgs := ws_msgs s |}.

(** One file name of the walk. *)
Definition walk_one (s : WalkState) (item : path * string) : WalkState :=
  let '(root, file) := item in
  if is_css_name file then
    let q := root ++ [file] in
    if env_read_fault env q then walk_warn (MsgReadWarning file) s
    else
      match read_file q (ws_tree s) with
      | None => walk_warn (MsgReadWarning file) s
      | Some b =>
          let original_content := decode_text b in
          let cleaned_content := transform original_content in
          if bool_decide (cleaned_content = original_content) then walk_skip s
          else
            match env_write_fault env q with
            | WriteFailOpen => walk_warn (MsgWriteWarning file) s
            | WriteFailTruncated =>
                match set_file q [] (ws_tree s) with
                | Some t' =>
                    {| ws_tree := t'; ws_found := true;
                       ws_modified := ws_modified s;
                       ws_msgs := ws_msgs s ++ [MsgWriteWarning file] |}
                | None => walk_warn (MsgWriteWarning file) s
                end
            | WriteOk =>
                match set_file q (encode_text cleaned_content) (ws_tree s) with
                | Some t' =>
                    {| ws_tree := t'; ws_found := true; ws_modified := true;
                       ws_msgs := ws_msgs s ++ [MsgCleaned q] |}
                | None => walk_warn (MsgWriteWarning file) s
                end
            end
      end
  else s.

Definition walk_from (items : list (path * string)) (s : WalkState)
  : WalkState :=
  fold_left walk_one items s.

(** The whole of step 3 on the tree [t]. *)
Definition walk_result (t : tree) : WalkState :=
  walk_from (walk_files t)
    {| ws_tree := t; ws_found := false; ws_modified := false; ws_msgs := [] |}.



End Pure.


(** No file name the walk visits names a style sheet. *)
Definition no_css (t : tree) : Prop :=
  Forall (fun item : list string * string => is_css_name item.2 = false)
         (walk_files t).


(** A request to [new_zip.write]: source path, archive name, compression. *)
Definition write_request : Type := list string * string * option compress_type.

(** The requests of the loop of step 5: every file name of the walk but
    the reserved one at the root. *)
Definition walk_requests (t : tree) : list write_request :=
  flat_map (fun item : path * list string * list string =>
              let '(root, _, fs) := item in
              let fs :=
                if bool_decide (root = []) && bool_decide ("mimetype" ∈ fs)
                then remove_first "mimetype" fs else fs in
              map (fun file => (root ++ [file],
                                relpath_arcname (root ++ [file]),
                                @None compress_type)) fs)
           (walk_tree t).

(** The calls to [new_zip.write] that step 5 makes, in order. *)
Definition pack_requests (t : tree) : list write_request :=
  (match find_node ["mimetype"] (Dir t) with
   | Some _ => [(["mimetype"], "mimetype", Some ZIP_STORED)]
   | None => []
   end)
  ++ walk_requests t.

(** The member one request adds; [None] where the source is missing. *)
Definition member_of (t : tree) (r : write_request) : option ZipInfo :=
  let '(src, arcname, ctype) := r in
  match find_node src (Dir t) with
  | None => None
  | Some (File b) =>
      Some {| filename := arcname; file_data := b;
              compression := default ZIP_DEFLATED ctype |}
  | Some (Dir _) =>
      Some {| filename := arcname +:+ "/"; file_data := [];
              compression := ZIP_STORED |}
  end.

(** The members of the repacked archive. *)
Definition pack_members (t : tree) : option (list ZipInfo) :=
  mapM (member_of t) (pack_requests t).

(** The messages a run has printed. *)
Definition printed (w w' : World) : list Msg :=
  drop (length (console w)) (console w').

(** What is left of the scratch directories after the [finally] clause. *)
Definition after_rmtree (env : Env) (d : string) (t : tree)
    (dirs : gmap string (list (string * node))) : gmap string (list (string * node)) :=
  if env_rmtree_fault env then <[d := t]> dirs else dirs.

Definition rmtree_msgs (env : Env) : list Msg :=
  if env_rmtree_fault env then [MsgRmtreeWarning] else [].

(** One request, as the call it stands for. *)
Definition write_member `{Platform} (env : Env) (p d : string)
    (r : write_request) : M unit :=
  zip_write env p d r.1.1 r.1.2 r.2.

(** The common shape of the handlers of steps 5 and 6: report, try to
    delete the temporary archive, return failure. *)
Definition failure_handler (env : Env) (msg : Msg) (site : remove_site)
  : M unit :=
  (print msg ;;
   if_temp_output_exists (os_remove env site) ;;
   return_ false)%py.

(** ** Well-formed trees: no directory lists a name twice *)

#[warnings="-register-all"]
Inductive wf_node : node -> Prop :=
| wf_File b : wf_node (File b)
| wf_Dir ch :
    NoDup (map fst ch) -> Forall (fun e => wf_node e.2) ch -> wf_node (Dir ch).

(** The state of a run inside the walk: the world [w] and the locals [l]
    it started from, with the walk state [s] laid over them. *)
Definition in_walk (w : World) (l : Locals) (d : string) (s : WalkState)
  : State :=
  ({| files := files w;
      tmpdirs := <[d := ws_tree s]> (tmpdirs w);
      console := console w ++ ws_msgs s |},
   {| temp_output_epub_path := temp_output_epub_path l;
      temp_dir := temp_dir l;
      css_files_found := ws_found s;
      modified := ws_modified s;
      new_zip := new_zip l |}).

(** The state of a run inside the repacking: the archive at [p] holds
    [content] on disk and [members] have been written to it. *)
Definition in_pack (w : World) (l : Locals) (p : string)
    (members : archive) (content : bytes) : State :=
  ({| files := <[p := content]> (files w);
      tmpdirs := tmpdirs w;
      console := console w |},
   set_new_zip members l).

(** The paths the walk visits: a root of the walk followed by one of the
    file names it lists there. *)
Definition walked (t : tree) (q : path) : Prop :=
  exists root dirs fs f,
    (root, dirs, fs) ∈ walk_tree t /\ f ∈ fs /\ q = root ++ [f].


(** * The exits of the transaction

    [transaction env transform epub_path w r w']: a call in the world [w]
    may return [r] and leave the world [w'].  One constructor per exit of
    [process_epub_inplace]; [process_with_transaction] below shows that
    every call takes one of them. *)

Section Transaction.

Context `{Platform}.
Variable env : Env.
Variable transform : text -> text.
Variable epub_path : string.
Variable w : World.

(** [mkdtemp] created the scratch directory [d]. *)
Definition scratch_created (d : string) : Prop :=
  env_mkdtemp env = Some d /\ tmpdirs w !! d = None.

(** The container was read as the archive [a] and extracted to [t]. *)
Definition extracted (a : archive) (t : tree) : Prop :=
  exists b, files w !! epub_path = Some b /\ zip_read b = Some a /\
            extract_members (env_extract_fault env) a [] = (t, true).

(** Every attempt to delete the temporary archive after a failure in the
    step that [site] handles has itself failed. *)
Definition removals_fail (site : remove_site) : Prop :=
  env_remove_fault env site = true /\
  env_remove_fault env InOuterHandler = true /\
  env_remove_fault env InFinally = true.

(** The files after a failed repacking or replacing: the temporary archive
    is gone, or every attempt to delete it failed and it is left behind. *)
Definition files_after_failure (site : remove_site)
    (fs : gmap string (list byte)) : Prop :=
  let tmp := temp_output_name env epub_path in
  fs = delete tmp (files w) \/
  (removals_fail site /\ exists junk, fs = <[tmp := junk]> (files w)).

(** What a failing [shutil.move] of the archive [zb] onto the container
    leaves at the container's path: [None] when the move succeeds,
    [Some None] when it raises with the container as it was, [Some (Some c)]
    when it raises after the copy has written [c] there. *)
Definition move_leaves (zb : list byte) : option (option (list byte)) :=
  if env_move_fault env then
    match env_copy_fault env with
    | CopyOk => if env_unlink_fault env then Some (Some zb) else None
    | CopyFailOpen => Some None
    | CopyFailAfter n => Some (Some (take n zb))
    end
  else None.

(** The files [F] with what the failed move left at the container's path. *)
Definition container_left (left : option (list byte))
    (F : gmap string (list byte)) : gmap string (list byte) :=
  match left with
  | None => F
  | Some c => <[epub_path := c]> F
  end.

(** The files after a failed move that left [left]: as after a failed
    repacking, with the container as the move left it. *)
Definition files_after_move_failure (left : option (list byte))
    (fs : gmap string (list byte)) : Prop :=
  let tmp := temp_output_name env epub_path in
  fs = delete tmp (container_left left (files w)) \/
  (removals_fail InMoveHandler /\
   exists junk, fs = <[tmp := junk]> (container_left left (files w))).

(** The ways in which the bytes [b] make [zipfile] raise [BadZipFile]:
    they cannot be read as an archive, or a member turns out to be corrupt
    while the archive is extracted. *)
Definition bad_zip_file (b : list byte) : Prop :=
  zip_read b = None \/
  exists a t,
    zip_read b = Some a /\
    extract_members (env_extract_fault env) a [] = (t, false) /\
    extract_error (env_extract_fault env) (extract_exn env) a [] = BadZipFile.

(** After a failure the handler's own [os.remove] may raise; the outer
    handler then reports an unexpected error. *)
Definition handler_tail (tail : list Msg) : Prop :=
  tail = [] \/ tail = [MsgUnexpected].

Inductive transaction : Result -> World -> Prop :=
| exit_no_scratch :
    env_mkdtemp env = None \/
      (exists d, env_mkdtemp env = Some d /\ is_Some (tmpdirs w !! d)) ->
    transaction (Returned false)
      {| files := files w; tmpdirs := tmpdirs w;
         console := console w ++ [MsgStart; MsgUnexpected] |}
| exit_not_an_archive d b :
    scratch_created d ->
    files w !! epub_path = Some b -> zip_read b = None ->
    transaction (Returned false)
      {| files := files w;
         tmpdirs := after_rmtree env d [] (tmpdirs w);
         console := console w ++ [MsgStart; MsgBadZip] ++ rmtree_msgs env |}
| exit_corrupt_member d b a t :
    scratch_created d ->
    files w !! epub_path = Some b -> zip_read b = Some a ->
    extract_members (env_extract_fault env) a [] = (t, false) ->
    extract_error (env_extract_fault env) (extract_exn env) a [] = BadZipFile ->
    transaction (Returned false)
      {| files := files w;
         tmpdirs := after_rmtree env d (env_extract_debris env t) (tmpdirs w);
         console := console w ++ [MsgStart; MsgBadZip] ++ rmtree_msgs env |}
| exit_extract_error d t :
    scratch_created d ->
    (files w !! epub_path = None /\ t = []) \/
      (exists b a t0, files w !! epub_path = Some b /\ zip_read b = Some a /\
         extract_members (env_extract_fault env) a [] = (t0, false) /\
         t = env_extract_debris env t0 /\
         extract_error (env_extract_fault env) (extract_exn env) a []
         = OSError) ->
    transaction (Returned false)
      {| files := files w;
         tmpdirs := after_rmtree env d t (tmpdirs w);
         console := console w ++ [MsgStart; MsgExtractError]
                    ++ rmtree_msgs env |}
| exit_no_change d a t s :
    scratch_created d -> extracted a t ->
    s = walk_result env transform t ->
    ws_found s = false \/ ws_modified s = false ->
    transaction (Returned true)
      {| files := files w;
         tmpdirs := after_rmtree env d (ws_tree s) (tmpdirs w);
         console := console w ++ [MsgStart] ++ ws_msgs s
                    ++ [if ws_found s then MsgNoChange else MsgNoCss]
                    ++ rmtree_msgs env |}
| exit_pack_error d a t s fs tail :
    scratch_created d -> extracted a t ->
    s = walk_result env transform t ->
    ws_found s = true -> ws_modified s = true ->
    files_after_failure InPackHandler fs -> handler_tail tail ->
    transaction (Returned false)
      {| files := fs;
         tmpdirs := after_rmtree env d (ws_tree s) (tmpdirs w);
         console := console w ++ [MsgStart] ++ ws_msgs s
                    ++ [MsgRepacking; MsgPackError] ++ tail
                    ++ rmtree_msgs env |}
| exit_replace_error d a t s out left fs tail :
    scratch_created d -> extracted a t ->
    s = walk_result env transform t ->
    ws_found s = true -> ws_modified s = true ->
    pack_members (ws_tree s) = Some out ->
    move_leaves (zip_bytes out) = Some left ->
    files_after_move_failure left fs -> handler_tail tail ->
    transaction (Returned false)
      {| files := fs;
         tmpdirs := after_rmtree env d (ws_tree s) (tmpdirs w);
         console := console w ++ [MsgStart] ++ ws_msgs s
                    ++ [MsgRepacking; MsgReplacing; MsgReplaceError] ++ tail
                    ++ rmtree_msgs env |}
| exit_committed d a t s out :
    scratch_created d -> extracted a t ->
    s = walk_result env transform t ->
    ws_found s = true -> ws_modified s = true ->
    pack_members (ws_tree s) = Some out ->
    move_leaves (zip_bytes out) = None ->
    transaction (Returned true)
      {| files := <[epub_path := zip_bytes out]>
                    (delete (temp_output_name env epub_path) (files w));
         tmpdirs := after_rmtree env d (ws_tree s) (tmpdirs w);
         console := console w ++ [MsgStart] ++ ws_msgs s
                    ++ [MsgRepacking; MsgReplacing; MsgDone]
                    ++ rmtree_msgs env |}.


(** What [after_walk] leaves behind, by exit. *)
Inductive after_walk_exit (t : list (string * node))
    (found changed : bool) (F : gmap string (list byte))
  : Outcome unit -> gmap string (list byte) -> list Msg -> option string
    -> Prop :=
| aw_no_change :
    found = false \/ changed = false ->
    after_walk_exit t found changed F (Return true) F
      [if found then MsgNoChange else MsgNoCss] None
| aw_pack_return :
    found = true -> changed = true ->
    after_walk_exit t found changed F (Return false)
      (delete (temp_output_name env epub_path) F)
      [MsgRepacking; MsgPackError] (Some (temp_output_name env epub_path))
| aw_pack_raise junk :
    found = true -> changed = true ->
    env_remove_fault env InPackHandler = true ->
    after_walk_exit t found changed F (Raise OSError)
      (<[temp_output_name env epub_path := junk]> F)
      [MsgRepacking; MsgPackError] (Some (temp_output_name env epub_path))
| aw_replace_return out left :
    found = true -> changed = true -> pack_members t = Some out ->
    move_leaves (zip_bytes out) = Some left ->
    after_walk_exit t found changed F (Return false)
      (delete (temp_output_name env epub_path) (container_left left F))
      [MsgRepacking; MsgReplacing; MsgReplaceError]
      (Some (temp_output_name env epub_path))
| aw_replace_raise out left :
    found = true -> changed = true -> pack_members t = Some out ->
    move_leaves (zip_bytes out) = Some left ->
    env_remove_fault env InMoveHandler = true ->
    after_walk_exit t found changed F (Raise OSError)
      (<[temp_output_name env epub_path := zip_bytes out]>
         (container_left left F))
      [MsgRepacking; MsgReplacing; MsgReplaceError]
      (Some (temp_output_name env epub_path))
| aw_committed out :
    found = true -> changed = true -> pack_members t = Some out ->
    move_leaves (zip_bytes out) = None ->
    after_walk_exit t found changed F (Return true)
      (<[epub_path := zip_bytes out]>
         (delete (temp_output_name env epub_path) F))
      [MsgRepacking; MsgReplacing; MsgDone] None.

End Transaction.

(** After the call nothing of the transaction is left on disk: the scratch
    directories are those of before, and no file exists that did not. *)
Definition cleaned_up (w w' : World) : Prop :=
  tmpdirs w' = tmpdirs w /\
  forall q, is_Some (files w' !! q) -> is_Some (files w !! q).

(** ** The paths of the walk and the bytes it leaves *)

(** The path the program builds for a file name of the walk:
    [os.path.join(root, file)]. *)
Definition item_path (item : path * string) : path := item.1 ++ [item.2].

(** The paths of the regular files of a tree, in the order of the walk. *)
Definition walk_paths (t : tree) : list path := map item_path (walk_files t).


(** The paths one triple of [os.walk] stands for, and those of the walk
    of a node below [root]. *)
Definition triple_paths (x : path * list string * list string) : list path :=
  map (fun f => x.1.1 ++ [f]) x.2.

Definition node_paths (root : path) (n : node) : list path :=
  flat_map triple_paths (walk_node root n).

(** The path a request reads from. *)
Definition request_source (r : write_request) : path := r.1.1.

(** How a member is named after the path it was read from: a regular file
    by its relative path, the directory [mimetype] with a slash behind. *)
Definition named_after (t : list (string * node)) (q : list string)
    (m : ZipInfo) : Prop :=
  (filename m = join_slash q /\ is_Some (read_file q t)) \/
  (q = ["mimetype"] /\ filename m = "mimetype/"%string).


(** ** A small concrete platform, for running the model on examples

    Archives are serialised member by member behind the two bytes ["PK"];
    numbers are written in unary.  Text is 7-bit: decoding drops every byte
    above 127, as [errors='ignore'] drops a byte that starts no valid
    sequence, and encoding drops every code point above 127. *)

Module Toy.

Definition encode_nat (n : nat) : bytes := repeat x01 n ++ [x00].

Definition encode_ctype (c : compress_type) : byte :=
  match c with ZIP_STORED => x00 | ZIP_DEFLATED => x08 end.

Definition encode_member (m : ZipInfo) : bytes :=
  let name := list_byte_of_string (filename m) in
  encode_ctype (compression m)
  :: encode_nat (length name) ++ name
  ++ encode_nat (length (file_data m)) ++ file_data m.

Definition encode_archive (a : archive) : bytes :=
  x50 :: x4b :: concat (map encode_member a).

Fixpoint take_nat (l : bytes) : option (nat * bytes) :=
  match l with
  | x00 :: r => Some (0, r)
  | x01 :: r =>
      match take_nat r with
      | Some (n, r') => Some (S n, r')
      | None => None
      end
  | _ => None
  end.

Definition take_bytes (n : nat) (l : bytes) : option (bytes * bytes) :=
  if n <=? length l then Some (firstn n l, skipn n l) else None.

Definition decode_ctype (b : byte) : option compress_type :=
  match b with
  | x00 => Some ZIP_STORED
  | x08 => Some ZIP_DEFLATED
  | _ => None
  end.

Fixpoint decode_members (fuel : nat) (l : bytes) : option archive :=
  match l with
  | [] => Some []
  | c :: r =>
      match fuel with
      | 0 => None
      | S fuel' =>
          ctype ← decode_ctype c ;
          '(n, r1) ← take_nat r ;
          '(name, r2) ← take_bytes n r1 ;
          '(k, r3) ← take_nat r2 ;
          '(data, r4) ← take_bytes k r3 ;
          rest ← decode_members fuel' r4 ;
          Some ({| filename := string_of_list_byte name; file_data := data;
                   compression := ctype |} :: rest)
      end
  end.

Definition decode_archive (l : bytes) : option archive :=
  match l with
  | x50 :: x4b :: r => decode_members (length r) r
  | _ => None
  end.

Definition decode_ascii (b : bytes) : text :=
  map Byte.to_N (filter (fun c => Byte.to_nat c < 128) b).

Definition encode_ascii (t : text) : bytes :=
  omap Byte.of_N (filter (fun c => (c < 128)%N) t).

#[export] Instance platform : Platform := {|
  zip_read := decode_archive;
  zip_bytes := encode_archive;
  decode_text := decode_ascii;
  encode_text := encode_ascii;
|}.

Definition data (s : string) : bytes := list_byte_of_string s.
Arguments data s%_string.

Definition member (name : string) (content : string) (c : compress_type)
  : ZipInfo :=
  {| filename := name; file_data := data content; compression := c |}.
Arguments member (name content)%_string c.

(** An environment in which no call fails. *)
Definition calm : Env := {|
  env_mkdtemp := Some "/tmp/tmpa1"%string;
  env_uuid4 := "0f8b"%string;
  env_extract_fault := None;
  env_extract_corrupt := false;
  env_extract_debris := fun t => t;
  env_read_fault := fun _ => false;
  env_write_fault := fun _ => WriteOk;
  env_pack_fault := PackOk;
  env_move_fault := false;
  env_copy_fault := CopyOk;
  env_unlink_fault := false;
  env_remove_fault := fun _ => false;
  env_rmtree_fault := false;
|}.

(** Environments that fail in one place or another. *)
Definition faulty (wr : path -> write_fault) (pack : pack_fault)
    (mv : bool) (rem : remove_site -> bool) (rm : bool) : Env := {|
  env_mkdtemp := Some "/tmp/tmpa1"%string;
  env_uuid4 := "0f8b"%string;
  env_extract_fault := None;
  env_extract_corrupt := false;
  env_extract_debris := fun t => t;
  env_read_fault := fun _ => false;
  env_write_fault := wr;
  env_pack_fault := pack;
  env_move_fault := mv;
  env_copy_fault := CopyFailOpen;
  env_unlink_fault := false;
  env_remove_fault := rem;
  env_rmtree_fault := rm;
|}.

(** [shutil.rmtree] raises. *)
Definition rmtree_fails : Env :=
  faulty (fun _ => WriteOk) PackOk false (fun _ => false) true.

(** [os.rename] raises, and the copy that [shutil.move] then makes raises
    before it opens the container. *)
Definition move_fails : Env :=
  faulty (fun _ => WriteOk) PackOk true (fun _ => false) false.


(** The second member of the archive has a bad check sum. *)
Definition corrupt_member (rm : bool) : Env := {|
  env_mkdtemp := Some "/tmp/tmpa1"%string;
  env_uuid4 := "0f8b"%string;
  env_extract_fault := Some 1;
  env_extract_corrupt := true;
  env_extract_debris := fun t => t;
  env_read_fault := fun _ => false;
  env_write_fault := fun _ => WriteOk;
  env_pack_fault := PackOk;
  env_move_fault := false;
  env_copy_fault := CopyOk;
  env_unlink_fault := false;
  env_remove_fault := fun _ => false;
  env_rmtree_fault := rm;
|}.


(** Writing the second member raises, and so does every [os.remove]. *)
Definition pack_and_remove_fail : Env :=
  faulty (fun _ => WriteOk) (PackFailAt 1 [x50; x4b]) false (fun _ => true)
         false.

(** Writing the second member raises; [os.remove] works. *)
Definition pack_fails : Env :=
  faulty (fun _ => WriteOk) (PackFailAt 1 [x50; x4b]) false (fun _ => false)
         false.

(** Opening a style sheet for writing raises. *)
Definition write_fails : Env :=
  faulty (fun _ => WriteFailOpen) PackOk false (fun _ => false) false.

(** The write to [style/a.css] raises after the file was truncated. *)
Definition write_truncates : Env :=
  faulty (fun q => if bool_decide (q = ["style"; "a.css"]%string)
                   then WriteFailTruncated else WriteOk)
         PackOk false (fun _ => false) false.

Definition disk (l : list (string * bytes)) : World :=
  {| files := list_to_map l; tmpdirs := ∅; console := [] |}.

(** The container of the scenario of the specification. *)
Definition book : archive :=
  [ member "mimetype" "application/epub+zip" ZIP_STORED;
    member "content.opf" "<package/>" ZIP_DEFLATED;
    member "style/a.css" "color: red; text-indent: 2em;" ZIP_DEFLATED ].

Definition book_disk : World := disk [("book.epub"%string, encode_archive book)].

(** A file that is no archive. *)
Definition junk_disk : World := disk [("book.epub"%string, data "not a zip")].

(** A container with nothing to clean. *)
Definition clean_book : archive :=
  [ member "mimetype" "application/epub+zip" ZIP_STORED;
    member "style/a.css" "margin: 0;" ZIP_DEFLATED ].

Definition clean_book_disk : World :=
  disk [("book.epub"%string, encode_archive clean_book)].

(** A container with two style sheets to clean. *)
Definition two_sheets : archive :=
  [ member "mimetype" "application/epub+zip" ZIP_STORED;
    member "style/a.css" "p { color: red; }" ZIP_DEFLATED;
    member "style/b.css" "h1 { height: 1em; }" ZIP_DEFLATED ].

Definition two_sheets_disk : World :=
  disk [("book.epub"%string, encode_archive two_sheets)].



(** A container in which [mimetype] is a directory. *)
Definition mimetype_dir_book : archive :=
  [ member "mimetype/type" "application/epub+zip" ZIP_STORED;
    member "a.css" "p { color: red; }" ZIP_DEFLATED ].

Definition mimetype_dir_disk : World :=
  disk [("book.epub"%string, encode_archive mimetype_dir_book)].

End Toy.

(** * The command line program: [get_script_directory] and [main] *)

(** ** Path functions of [os.path] (POSIX) *)

Definition slash : ascii := "/"%char.

(** [p.startswith('/')], which is [os.path.isabs(p)]. *)
Definition isabs (p : string) : bool :=
  match p with
  | String c _ => Ascii.eqb c slash
  | EmptyString => false
  end.

(** [(p[:i], p[i:])] for [i = p.rfind('/') + 1]: the head keeps its last
    slash and is empty when [p] has none. *)
Fixpoint split_last_slash (p : string) : string * string :=
  match p with
  | EmptyString => (EmptyString, EmptyString)
  | String c p' =>
      match split_last_slash p' with
      | (EmptyString, _) =>
          if Ascii.eqb c slash then (String c EmptyString, p')
          else (EmptyString, String c p')
      | (head, tail) => (String c head, tail)
      end
  end.

(** [s.rstrip('/')] *)
Fixpoint rstrip_slash (s : string) : string :=
  match s with
  | EmptyString => EmptyString
  | String c s' =>
      match rstrip_slash s' with
      | EmptyString =>
          if Ascii.eqb c slash then EmptyString else String c EmptyString
      | r => String c r
      end
  end.

(** [s == '/' * len(s)] *)
Fixpoint all_slashes (s : string) : bool :=
  match s with
  | EmptyString => true
  | String c s' => Ascii.eqb c slash && all_slashes s'
  end.

(** [os.path.dirname(p)] *)
Definition dirname (p : string) : string :=
  let head := (split_last_slash p).1 in
  if negb (String.eqb head "") && negb (all_slashes head)
  then rstrip_slash head else head.

(** [os.path.basename(p)] *)
Definition basename (p : string) : string := (split_last_slash p).2.

(** [os.path.join(a, b)] *)
Definition path_join (a b : string) : string :=
  if isabs b then b
  else if String.eqb a "" || str_endswith a "/" then a +:+ b
  else a +:+ "/" +:+ b.

(** The loop of [os.path.normpath] over the components of the path:
    [new_comps] after [comps] have been read. *)
Fixpoint normpath_comps (initial_slashes : nat) (comps new_comps : list string)
  : list string :=
  match comps with
  | [] => new_comps
  | comp :: comps' =>
      if String.eqb comp "" || String.eqb comp "."
      then normpath_comps initial_slashes comps' new_comps
      else if negb (String.eqb comp "..")
              || ((initial_slashes =? 0) && bool_decide (new_comps = []))
              || bool_decide (last new_comps = Some ".."%string)
      then normpath_comps initial_slashes comps' (new_comps ++ [comp])
      else normpath_comps initial_slashes comps' (removelast new_comps)
  end.

Fixpoint repeat_slash (n : nat) : string :=
  match n with
  | 0 => EmptyString
  | S n' => String slash (repeat_slash n')
  end.

(** [os.path.normpath(path)] *)
Definition normpath (p : string) : string :=
  if String.eqb p "" then "."%string
  else
    let initial_slashes :=
      if isabs p then
        if String.prefix "//" p && negb (String.prefix "///" p) then 2 else 1
      else 0 in
    let comps := normpath_comps initial_slashes (split_slash EmptyString p) [] in
    let p' := repeat_slash initial_slashes +:+ join_slash comps in
    if String.eqb p' "" then "."%string else p'.

(** ** The process environment of [main] *)

Inductive exc : Type :=
| NameError | IndexError | EOFError
| OSErrorGetcwd                (* [os.getcwd()] raised              *)
| FromProcess (e : exn).       (* raised by [process_epub_inplace]  *)

Record MainEnv : Type := {
  sys_frozen : bool;                  (* [getattr(sys, 'frozen', False)]   *)
  sys_executable : string;
  dunder_file : option string;        (* [__file__]; [None]: not defined   *)
  sys_argv : list string;
  os_getcwd : option string;          (* [None]: [os.getcwd()] raises      *)
  os_listdir : string -> option (list string);  (* [None]: raises OSError *)
  input_eof : bool;                   (* [input()] raises [EOFError]       *)
  process_env : nat -> Env;           (* the environment of the call made
                                         for the item at this position     *)
}.

(** What [main] and [get_script_directory] print themselves. *)
Inductive MainMsg : Type :=
| MsgCwdFallback
| MsgScanning (dir : string) | MsgRemoving | MsgBackupWarning | MsgRule
| MsgListdirError (dir : string)
| MsgPrompt
| MsgNoEpub | MsgFinished
| MsgAttempted (n : nat) | MsgSucceeded (n : nat) | MsgFailed (n : nat)
| MsgCheckErrors.

(** A line of the output: printed by [main], or by a call of
    [process_epub_inplace]. *)
Inductive Line : Type :=
| Own (m : MainMsg)
| Sub (m : Msg).

(** [os.path.abspath(p)] *)
Definition abspath (env : MainEnv) (p : string) : exc + string :=
  if isabs p then inr (normpath p)
  else
    match os_getcwd env with
    | None => inl OSErrorGetcwd
    | Some cwd => inr (normpath (path_join cwd p))
    end.

(** [get_script_directory()]: what it returns or raises, and what it
    prints. *)
Definition get_script_directory (env : MainEnv) : (exc + string) * list Line :=
  let body : exc + string :=
    if sys_frozen env then inr (dirname (sys_executable env))
    else
      match dunder_file env with
      | None => inl NameError
      | Some file =>
          match abspath env file with
          | inr p => inr (dirname p)
          | inl e => inl e
          end
      end in
  match body with
  | inl NameError =>
      let fallback : exc + string :=
        match sys_argv env with
        | [] => inl IndexError
        | argv0 :: _ =>
            match abspath env argv0 with
            | inr p => inr (dirname p)
            | inl e => inl e
            end
        end in
      match fallback with
      | inr d => (inr d, [])
      | inl _ =>
          match os_getcwd env with
          | Some cwd => (inr cwd, [Own MsgCwdFallback])
          | None => (inl OSErrorGetcwd, [Own MsgCwdFallback])
          end
      end
  | r => (r, [])
  end.

(** ** [main] *)

(** [itemname.lower().endswith('.epub')] *)
Definition is_epub_name (itemname : string) : bool :=
  str_endswith (str_lower itemname) ".epub".

(** The variables of the loop, the disk and the output so far. *)
Record MainState : Type := {
  st_world : World;
  st_out : list Line;
  processed_count : nat;
  error_count : nat;
  found_epub : bool;
}.

Definition say (m : MainMsg) (st : MainState) : MainState :=
  {| st_world := st_world st; st_out := st_out st ++ [Own m];
     processed_count := processed_count st; error_count := error_count st;
     found_epub := found_epub st |}.

(** [input(prompt)]: the prompt is written, then a line is read; at the
    end of the input the read raises. *)
Definition input (env : MainEnv) (st : MainState) : option exc * MainState :=
  (if input_eof env then Some EOFError else None, say MsgPrompt st).

Section Main.

Context `{Platform}.
Variable env : MainEnv.

(** The body of the loop for the item at position [i] of the listing. *)
Definition main_step (input_directory script_filename : string)
    (i : nat) (itemname : string) (st : MainState)
  : exc * MainState + MainState :=
  if String.eqb itemname script_filename then inr st
  else
    let item_path := path_join input_directory itemname in
    if bool_decide (is_Some (files (st_world st) !! item_path))
       && is_epub_name itemname
    then
      let w := st_world st in
      let '(result, w') := process_epub_inplace (process_env env i) item_path w in
      let out := st_out st ++ map Sub (printed w w') in
      match result with
      | Returned true =>
          inr {| st_world := w'; st_out := out;
                 processed_count := S (processed_count st);
                 error_count := error_count st; found_epub := true |}
      | Returned false | ReturnedNone =>
          inr {| st_world := w'; st_out := out;
                 processed_count := processed_count st;
                 error_count := S (error_count st); found_epub := true |}
      | Raised e =>
          inl (FromProcess e,
               {| st_world := w'; st_out := out;
                  processed_count := processed_count st;
                  error_count := error_count st; found_epub := true |})
      end
    else inr st.

(** The loop over the listing, from position [i] on. *)
Fixpoint main_loop (input_directory script_filename : string)
    (i : nat) (all_items : list string) (st : MainState)
  : exc * MainState + MainState :=
  match all_items with
  | [] => inr st
  | itemname :: rest =>
      match main_step input_directory script_filename i itemname st with
      | inr st' => main_loop input_directory script_filename (S i) rest st'
      | inl r => inl r
      end
  end.

(** What follows the loop: the summary. *)
Definition main_summary (st : MainState) : MainState :=
  let st := say MsgRule st in
  if negb (found_epub st) then say MsgNoEpub st
  else
    let st := say MsgFinished st in
    let st := say (MsgAttempted (processed_count st + error_count st)) st in
    let st := say (MsgSucceeded (processed_count st)) st in
    let st := say (MsgFailed (error_count st)) st in
    if 0 <? error_count st then say MsgCheckErrors st else st.

(** How a call of [main] ends. *)
Inductive MainResult : Type :=
| MainReturned
| MainRaised (e : exc).

Definition after_input (r : option exc * MainState) : MainResult * MainState :=
  match r with
  | (None, st) => (MainReturned, st)
  | (Some e, st) => (MainRaised e, st)
  end.

Definition main (w : World) : MainResult * MainState :=
  match get_script_directory env with
  | (inl e, out) =>
      (MainRaised e,
       {| st_world := w; st_out := out; processed_count := 0;
          error_count := 0; found_epub := false |})
  | (inr script_dir, out) =>
      let input_directory := script_dir in
      let st :=
        {| st_world := w; st_out := out; processed_count := 0;
           error_count := 0; found_epub := false |} in
      let st := say (MsgScanning input_directory) st in
      let st := say MsgRemoving st in
      let st := say MsgBackupWarning st in
      let st := say MsgRule st in
      match os_listdir env input_directory with
      | None =>
          let st := say (MsgListdirError input_directory) st in
          after_input (input env st)
      | Some all_items =>
          match sys_argv env with
          | [] => (MainRaised IndexError, st)
          | argv0 :: _ =>
              let script_filename := basename argv0 in
              match main_loop input_directory script_filename 0 all_items st with
              | inl (e, st') => (MainRaised e, st')
              | inr st' => after_input (input env (main_summary st'))
              end
          end
      end
  end.

End Main.

(** The lines by which the calls of [process_epub_inplace] show in the
    output: every call prints its opening line, and a call that returns
    success prints one of three closing lines. *)
Definition is_call_line (l : Line) : bool :=
  match l with Sub MsgStart => true | _ => false end.

Definition is_success_line (l : Line) : bool :=
  match l with Sub MsgDone | Sub MsgNoCss | Sub MsgNoChange => true | _ => false end.

Definition count_lines (f : Line -> bool) (out : list Line) : nat :=
  length (filter (fun l => f l = true) out).

(** A small directory for [main] to work on. *)
Module ToyMain.

Definition books_env : MainEnv := {|
  sys_frozen := false;
  sys_executable := "/usr/bin/python3";
  dunder_file := Some "/books/clean_epub_css.py"%string;
  sys_argv := ["clean_epub_css.py"%string];
  os_getcwd := Some "/books"%string;
  os_listdir := fun d =>
    if String.eqb d "/books"
    then Some ["clean_epub_css.py"; "a.epub"; "notes.txt"; "B.EPUB"]%string
    else None;
  input_eof := false;
  process_env := fun _ => Toy.calm;
|}.

Definition books : World :=
  Toy.disk [ ("/books/clean_epub_css.py"%string, Toy.data "import os");
             ("/books/a.epub"%string, Toy.encode_archive Toy.book);
             ("/books/notes.txt"%string, Toy.data "color: red;");
             ("/books/B.EPUB"%string, Toy.data "not a zip") ].

(** [input()] meets the end of its input. *)
Definition eof_env : MainEnv := {|
  sys_frozen := false;
  sys_executable := "/usr/bin/python3";
  dunder_file := Some "/books/clean_epub_css.py"%string;
  sys_argv := ["clean_epub_css.py"%string];
  os_getcwd := Some "/books"%string;
  os_listdir := fun _ => None;
  input_eof := true;
  process_env := fun _ => Toy.calm;
|}.

(** Neither [__file__] nor [sys.argv] nor the working directory is there. *)
Definition lost_env : MainEnv := {|
  sys_frozen := false;
  sys_executable := "";
  dunder_file := None;
  sys_argv := [];
  os_getcwd := None;
  os_listdir := fun _ => None;
  input_eof := false;
  process_env := fun _ => Toy.calm;
|}.

(** [tempfile.mkdtemp] raises. *)
Definition no_tmp : Env := {|
  env_mkdtemp := None;
  env_uuid4 := "0f8b"%string;
  env_extract_fault := None;
  env_extract_corrupt := false;
  env_extract_debris := fun t => t;
  env_read_fault := fun _ => false;
  env_write_fault := fun _ => WriteOk;
  env_pack_fault := PackOk;
  env_move_fault := false;
  env_copy_fault := CopyOk;
  env_unlink_fault := false;
  env_remove_fault := fun _ => false;
  env_rmtree_fault := false;
|}.

(** The state in which the loop of [main] starts on [books]. *)
Definition start : MainState :=
  {| st_world := books; st_out := []; processed_count := 0;
     error_count := 0; found_epub := false |}.

End ToyMain.

(** An item the loop hands to [process_epub_inplace]. *)
Definition selected (dir script : string) (w : World) (itemname : string)
  : Prop :=
  itemname <> script /\ is_epub_name itemname = true /\
  is_Some (files w !! path_join dir itemname).

(** The lines of the summary, for the counters of [st]. *)
Definition summary_lines (st : MainState) : list MainMsg :=
  if found_epub st then
    [MsgRule; MsgFinished;
     MsgAttempted (processed_count st + error_count st);
     MsgSucceeded (processed_count st); MsgFailed (error_count st)]
    ++ (if 0 <? error_count st then [MsgCheckErrors] else [])
  else [MsgRule; MsgNoEpub].

(** The state a sum stands for, with a default for the other side. *)
Definition state_of {A} (r : A + MainState) (st : MainState) : MainState :=
  match r with inr st' => st' | inl _ => st end.

(** The last character of a string. *)
Fixpoint last_char (s : string) : option ascii :=
  match s with
  | EmptyString => None
  | String c s' =>
      match last_char s' with
      | None => Some c
      | r => r
      end
  end.
(** * Properties of [clean_css_content] *)

Example clean_ex1 :
  clean_css_content (txt "p { color: red; margin: 0; Text-Indent : 2em; }")
  = txt "p {  margin: 0;  }".
Proof. vm_compute. reflexivity. Qed.

Example clean_ex2 :
  clean_css_content (txt "a{display : BLOCK ;line-height:1}") = txt "a{line-height:1}".
Proof. vm_compute. reflexivity. Qed.

Example clean_ex3 :
  clean_css_content (txt "colocolor:x;r:y;") = txt "color:y;".
Proof. vm_compute. reflexivity. Qed.

Example clean_ex4 :
  clean_css_content (txt "P { COLOR : Red ; display : BLOCK ; }")
  = txt "P {   }".
Proof. vm_compute. reflexivity. Qed.

(** The Kelvin sign is read as [k], long s as [s], dotless i and capital I
    with dot as [i]. *)
Example clean_ex5 :
  clean_css_content (txt "a{display:bloc" ++ [8490; 59; 125]%N) = txt "a{}".
Proof. vm_compute. reflexivity. Qed.

Example clean_ex6 :
  clean_css_content (txt "font-" ++ [383%N] ++ txt "ize: 2em;x") = txt "x".
Proof. vm_compute. reflexivity. Qed.

Example clean_ex7 :
  clean_css_content
    ([108; 305; 110; 101; 45; 104; 101; 304; 103; 104; 116; 58; 49; 59; 121]%N)
  = txt "y".
Proof. vm_compute. reflexivity. Qed.

(** The ideographic space and the line separator are white space, the
    zero-width space is not; a value may hold a line feed. *)
Example clean_ex8 :
  clean_css_content (txt "color" ++ [12288; 58; 8232]%N ++ txt "red;x")
  = txt "x".
Proof. vm_compute. reflexivity. Qed.

Example clean_ex9 :
  clean_css_content (txt "color" ++ [8203%N] ++ txt ":red;")
  = txt "color" ++ [8203%N] ++ txt ":red;".
Proof. vm_compute. reflexivity. Qed.

Example clean_ex10 :
  clean_css_content (txt "color: a" ++ [10%N] ++ txt "b;c") = txt "c".
Proof. vm_compute. reflexivity. Qed.

(** ** The matcher against the denotation *)

Lemma match_str_sound w s s' :
  match_str w s = Some s' -> exists m, s = m ++ s' /\ ci_equal w m.
Proof.
  revert s. induction w as [|p w IH]; intros s H; simpl in H.
  - inversion H; subst. exists []. split; [reflexivity | constructor].
  - destruct s as [|c s]; [discriminate|].
    destruct (ci_eqb p c) eqn:E; [|discriminate].
    destruct (IH _ H) as (m & -> & Hm).
    exists (c :: m). split; [reflexivity | by constructor].
Qed.

Lemma match_str_complete w m s' :
  ci_equal w m -> match_str w (m ++ s') = Some s'.
Proof.
  induction 1 as [|p c w m Hpc _ IH]; simpl; [reflexivity|].
  by rewrite Hpc.
Qed.

Lemma match_star_sound k s cont out :
  match_star k s cont = Some out ->
  exists m s', s = m ++ s' /\ all_in k m /\ cont s' = Some out.
Proof.
  induction s as [|c s IH]; simpl; intros H.
  - exists [], []. repeat split; [constructor | done].
  - destruct (in_class k c) eqn:E.
    + destruct (match_star k s cont) as [o|] eqn:E'.
      * inversion H; subst o.
        destruct (IH eq_refl) as (m & s' & -> & Hm & Hc).
        exists (c :: m), s'. repeat split; [by constructor | done].
      * exists [], (c :: s). repeat split; [constructor | done].
    + exists [], (c :: s). repeat split; [constructor | done].
Qed.

Lemma match_star_complete k m s' cont out :
  all_in k m -> cont s' = Some out ->
  exists out', match_star k (m ++ s') cont = Some out'.
Proof.
  intros Hm Hc. induction Hm as [|c m Hcl _ IH]; simpl.
  - destruct s' as [|c s']; simpl; [eauto|].
    destruct (in_class k c); [|eauto].
    destruct (match_star k s' cont); eauto.
  - rewrite Hcl. destruct IH as [o ->]. eauto.
Qed.

Lemma match_re_sound r : forall s cont out,
  match_re r s cont = Some out ->
  exists m s', s = m ++ s' /\ matches r m /\ cont s' = Some out.
Proof.
  induction r as [w|k|r1 IH1 r2 IH2|r1 IH1 r2 IH2]; intros s cont out H;
    simpl in H.
  - destruct (match_str w s) as [s'|] eqn:E; [|discriminate].
    destruct (match_str_sound _ _ _ E) as (m & -> & Hm).
    exists m, s'. repeat split; [by constructor | done].
  - destruct (match_star_sound _ _ _ _ H) as (m & s' & -> & Hm & Hc).
    exists m, s'. repeat split; [by constructor | done].
  - destruct (IH1 _ _ _ H) as (m1 & s1 & -> & Hm1 & H2).
    destruct (IH2 _ _ _ H2) as (m2 & s2 & -> & Hm2 & Hc).
    exists (m1 ++ m2), s2. rewrite <- app_assoc.
    repeat split; [by constructor | done].
  - destruct (match_re r1 s cont) as [o|] eqn:E.
    + inversion H; subst o.
      destruct (IH1 _ _ _ E) as (m & s' & -> & Hm & Hc).
      exists m, s'. repeat split; [by apply M_AltL | done].
    + destruct (IH2 _ _ _ H) as (m & s' & -> & Hm & Hc).
      exists m, s'. repeat split; [by apply M_AltR | done].
Qed.

Lemma match_re_complete r m : matches r m -> forall s' cont out,
  cont s' = Some out -> exists out', match_re r (m ++ s') cont = Some out'.
Proof.
  induction 1 as [w m Hm|k m Hm|r1 r2 m1 m2 _ IH1 _ IH2|r1 r2 m _ IH|r1 r2 m _ IH];
    intros s' cont out Hc; simpl.
  - rewrite (match_str_complete _ _ _ Hm). eauto.
  - eapply match_star_complete; eauto.
  - rewrite <- app_assoc.
    destruct (IH2 _ _ _ Hc) as [o2 H2].
    eapply IH1. exact H2.
  - destruct (IH _ _ _ Hc) as [o ->]. eauto.
  - destruct (match_re r1 (m ++ s') cont); [eauto|]. eapply IH; eauto.
Qed.

Lemma re_match_sound r s rest :
  re_match r s = Some rest -> exists m, s = m ++ rest /\ matches r m.
Proof.
  intros H. destruct (match_re_sound _ _ _ _ H) as (m & s' & -> & Hm & Hc).
  inversion Hc; subst. eauto.
Qed.

Lemma re_match_complete r m rest :
  matches r m -> exists rest', re_match r (m ++ rest) = Some rest'.
Proof. intros H. eapply match_re_complete; eauto. Qed.

(** ** The tests of the matcher against the characters of the
    specification *)

Lemma is_space_spec c : is_space c = true <-> In c white_space.
Proof.
  unfold is_space, white_space.
  rewrite !orb_true_iff, !andb_true_iff, !N.leb_le, !N.eqb_eq.
  cbn [In]. lia.
Qed.

Lemma sre_lower_letter c q :
  (97 <= q <= 122)%N ->
  sre_lower_unicode c = q <->
  (c = q \/ c = q - 32 \/ (q = 105 /\ c = 304) \/ (q = 107 /\ c = 8490))%N.
Proof.
  intros Hq. unfold sre_lower_unicode.
  destruct (N.leb_spec 65 c), (N.leb_spec c 90); cbn [andb]; [lia| | |];
    destruct (N.eqb_spec c 304), (N.eqb_spec c 8490); lia.
Qed.

Lemma sre_lower_fix c q :
  (q = 305 \/ q = 383)%N -> sre_lower_unicode c = q <-> c = q.
Proof.
  intros Hq. unfold sre_lower_unicode.
  destruct (N.leb_spec 65 c), (N.leb_spec c 90); cbn [andb]; [lia| | |];
    destruct (N.eqb_spec c 304), (N.eqb_spec c 8490); lia.
Qed.

(** A literal of the pattern that is no capital letter matches the
    characters the specification reads as this literal, and no other. *)
Lemma ci_eqb_forms p c :
  ~ (65 <= p <= 90)%N -> ci_eqb p c = true <-> In c (letter_forms p).
Proof.
  intros Hp. unfold ci_eqb, unicode_iscased, letter_forms.
  destruct (N.leb_spec 97 p), (N.leb_spec p 122); cbn [andb];
    rewrite ?orb_true_r, ?orb_false_r;
    try (destruct (N.leb_spec 65 p), (N.leb_spec p 90); cbn [andb];
         try lia; rewrite N.eqb_eq; cbn [In]; intuition congruence).
  assert (sre_lower_unicode p = p) as ->
    by (apply sre_lower_letter; lia).
  unfold ignorecase_fixes.
  destruct (N.eqb_spec p 105) as [->|H105];
    [|destruct (N.eqb_spec p 115) as [->|H115]];
    try (destruct (N.eqb_spec p 107) as [->|H107]);
    cbn [existsb N.eqb Pos.eqb In];
    rewrite ?orb_true_iff, ?orb_false_r, ?N.eqb_eq, ?sre_lower_letter,
      ?sre_lower_fix by lia; lia.
Qed.

(** The words of the pattern are written without capital letters. *)
Lemma small_check w :
  forallb (fun p => negb ((65 <=? p) && (p <=? 90)))%N w = true -> small w.
Proof.
  intros Hw. apply Forall_forall. intros p Hp%list_elem_of_In.
  rewrite forallb_forall in Hw. specialize (Hw p Hp).
  apply negb_true_iff, andb_false_iff in Hw.
  rewrite N.leb_nle, N.leb_nle in Hw. lia.
Qed.

Lemma ci_equal_same_word w : forall m,
  small w -> ci_equal w m <-> same_word w m.
Proof.
  intros m Hw. revert m. induction Hw as [|p w Hp _ IH]; intros m.
  - split; inversion 1; constructor.
  - split; inversion 1 as [|? c ? m' Hpc Hm]; subst; constructor;
      first [by apply (ci_eqb_forms p c Hp) | by apply IH].
Qed.

Lemma same_word_colon m : same_word (txt ":") m <-> m = txt ":".
Proof.
  split.
  - intros H. inversion H as [|p c w m' Hpc Hm']; subst.
    inversion Hm'; subst. vm_compute in Hpc. by destruct Hpc as [<-|[]].
  - intros ->. repeat constructor.
Qed.

Lemma same_word_semicolon m : same_word (txt ";") m <-> m = txt ";".
Proof.
  split.
  - intros H. inversion H as [|p c w m' Hpc Hm']; subst.
    inversion Hm'; subst. vm_compute in Hpc. by destruct Hpc as [<-|[]].
  - intros ->. repeat constructor.
Qed.

Lemma all_in_space m : all_in CSpace m <-> blank m.
Proof. apply Forall_iff. intros c. apply is_space_spec. Qed.

Lemma all_in_not_semi m : all_in CNotSemi m <-> semicolon_free m.
Proof.
  unfold all_in, semicolon_free. apply Forall_iff. intros c. simpl.
  rewrite negb_true_iff. apply N.eqb_neq.
Qed.

(** ** The pattern against the words of the specification *)

Ltac invert_matches :=
  repeat match goal with
    | H : matches (Seq _ _) _ |- _ => inversion H; subst; clear H
    | H : matches (Alt _ _) _ |- _ => inversion H; subst; clear H
    | H : matches (Str _) _ |- _ => inversion H; subst; clear H
    | H : matches (Star _) _ |- _ => inversion H; subst; clear H
    | H : ci_equal _ _ |- _ =>
        apply ci_equal_same_word in H; [|by apply small_check]
    | H : same_word (txt ":") _ |- _ => apply same_word_colon in H; subst
    | H : same_word (txt ";") _ |- _ => apply same_word_semicolon in H; subst
    | H : all_in CNotSemi _ |- _ => apply all_in_not_semi in H
    | H : all_in CSpace _ |- _ => apply all_in_space in H
    end.

Ltac word_matches :=
  constructor;
  first [ by apply all_in_space | by apply all_in_not_semi
        | apply ci_equal_same_word;
          [ by apply small_check
          | first [ done | by apply same_word_colon
                  | by apply same_word_semicolon ] ] ].

Lemma property_decl_denotes m :
  matches property_decl m <-> is_property_declaration m.
Proof.
  split.
  - unfold property_decl, property_names, ws. intros H. invert_matches;
      match goal with
      | H : same_word ?name ?n |- is_property_declaration (?n ++ ?a ++ _ ++ ?b ++ ?v ++ _) =>
          exists name, n, a, b, v; repeat split; try done;
          unfold removed_properties; simpl; tauto
      end.
  - intros (name & n & sp1 & sp2 & value & Hin & Hn & H1 & H2 & Hv & ->).
    unfold property_decl, ws.
    apply M_Seq.
    + unfold property_names, removed_properties in *. simpl in Hin.
      destruct Hin as [<-|[<-|[<-|[<-|[<-|[<-|[]]]]]]];
        first [ apply M_AltL; by word_matches
              | apply M_AltR, M_AltL; by word_matches
              | apply M_AltR, M_AltR, M_AltL; by word_matches
              | apply M_AltR, M_AltR, M_AltR, M_AltL; by word_matches
              | apply M_AltR, M_AltR, M_AltR, M_AltR, M_AltL; by word_matches
              | apply M_AltR, M_AltR, M_AltR, M_AltR, M_AltR; by word_matches ].
    + repeat apply M_Seq; word_matches.
Qed.

Lemma display_block_decl_denotes m :
  matches display_block_decl m <-> is_display_block m.
Proof.
  split.
  - unfold display_block_decl, ws. intros H. invert_matches.
    match goal with
    | |- is_display_block (?d ++ ?a ++ _ ++ ?a' ++ ?b ++ ?a'' ++ _) =>
        exists d, a, a', b, a''; repeat split; done
    end.
  - intros (d & sp1 & sp2 & b & sp3 & Hd & Hb & H1 & H2 & H3 & ->).
    unfold display_block_decl, ws.
    repeat apply M_Seq; word_matches.
Qed.

Lemma pattern_denotes m :
  matches CSS_REMOVE_PATTERN m <-> removed_declaration m.
Proof.
  unfold CSS_REMOVE_PATTERN, removed_declaration.
  rewrite <- property_decl_denotes, <- display_block_decl_denotes.
  split.
  - intros H. inversion H; subst; tauto.
  - intros [H|H]; [by apply M_AltL | by apply M_AltR].
Qed.

(** ** A declaration ends at its only semicolon

    Hence at most one declaration starts at any position, and the order in
    which the matcher tries alternatives cannot change what it finds. *)

Lemma same_word_semicolon_free w n :
  forallb (fun p => negb (existsb (N.eqb semicolon) (letter_forms p))) w
  = true ->
  same_word w n -> semicolon_free n.
Proof.
  intros Hw H. induction H as [|p c w n Hpc _ IH]; [constructor|].
  cbn [forallb] in Hw. apply andb_true_iff in Hw as [Hp Hw].
  constructor; [|by apply IH].
  intros ->. apply negb_true_iff in Hp.
  assert (existsb (N.eqb semicolon) (letter_forms p) = true) as E; [|congruence].
  apply existsb_exists. exists semicolon. split; [done | apply N.eqb_refl].
Qed.

Lemma blank_semicolon_free m : blank m -> semicolon_free m.
Proof.
  unfold blank, semicolon_free. intros H.
  eapply Forall_impl; [exact H|]. intros c Hc ->.
  vm_compute in Hc.
  repeat (destruct Hc as [Hc|Hc]; [discriminate Hc|]). exact Hc.
Qed.

Lemma colon_semicolon_free : semicolon_free (txt ":").
Proof. repeat constructor. discriminate. Qed.

Lemma decl_shape m :
  removed_declaration m ->
  exists m0, m = m0 ++ [semicolon] /\ semicolon_free m0.
Proof.
  intros [(name & n & sp1 & sp2 & value & Hin & Hn & H1 & H2 & Hv & ->)
         |(d & sp1 & sp2 & b & sp3 & Hd & Hb & H1 & H2 & H3 & ->)].
  - exists (n ++ sp1 ++ txt ":" ++ sp2 ++ value). split.
    + by rewrite <- !app_assoc.
    + unfold semicolon_free. rewrite !Forall_app.
      repeat split; try assumption;
        try (by apply blank_semicolon_free); try apply colon_semicolon_free.
      apply (same_word_semicolon_free name); [|done].
      unfold removed_properties in Hin. simpl in Hin.
      destruct Hin as [<-|[<-|[<-|[<-|[<-|[<-|[]]]]]]]; reflexivity.
  - exists (d ++ sp1 ++ txt ":" ++ sp2 ++ b ++ sp3). split.
    + by rewrite <- !app_assoc.
    + unfold semicolon_free. rewrite !Forall_app.
      repeat split; try assumption;
        try (by apply blank_semicolon_free); try apply colon_semicolon_free.
      * by apply (same_word_semicolon_free (txt "display")).
      * by apply (same_word_semicolon_free (txt "block")).
Qed.

Lemma first_semicolon_unique a1 : forall a2 r1 r2,
  semicolon_free a1 -> semicolon_free a2 ->
  a1 ++ semicolon :: r1 = a2 ++ semicolon :: r2 -> a1 = a2 /\ r1 = r2.
Proof.
  induction a1 as [|c a1 IH]; intros [|c2 a2] r1 r2 H1 H2 E; simpl in E.
  - inversion E. done.
  - inversion E; subst. inversion H2; subst. congruence.
  - inversion E; subst. inversion H1; subst. congruence.
  - inversion E; subst. inversion H1; inversion H2; subst.
    destruct (IH a2 r1 r2) as [-> ->]; done.
Qed.

Lemma decl_unique m1 m2 r1 r2 :
  removed_declaration m1 -> removed_declaration m2 ->
  m1 ++ r1 = m2 ++ r2 -> m1 = m2 /\ r1 = r2.
Proof.
  intros (a1 & -> & H1)%decl_shape (a2 & -> & H2)%decl_shape E.
  rewrite <- !app_assoc in E. simpl in E.
  destruct (first_semicolon_unique _ _ _ _ H1 H2 E) as [-> ->]. done.
Qed.

Lemma decl_length m : removed_declaration m -> 0 < length m.
Proof.
  intros (a & -> & _)%decl_shape. rewrite length_app. simpl. lia.
Qed.

Lemma re_match_decl s rest :
  re_match CSS_REMOVE_PATTERN s = Some rest <->
  exists m, s = m ++ rest /\ removed_declaration m.
Proof.
  split.
  - intros (m & -> & Hm)%re_match_sound. exists m.
    by rewrite <- pattern_denotes.
  - intros (m & -> & Hm).
    destruct (re_match_complete CSS_REMOVE_PATTERN m rest) as [rest' E];
      [by apply pattern_denotes|].
    destruct (re_match_sound _ _ _ E) as (m' & E' & Hm').
    apply pattern_denotes in Hm'.
    destruct (decl_unique _ _ _ _ Hm Hm' E') as [_ ->]. done.
Qed.

Lemma re_match_none s :
  re_match CSS_REMOVE_PATTERN s = None <-> ~ declaration_at_head s.
Proof.
  split.
  - intros E (m & rest & -> & Hm).
    assert (re_match CSS_REMOVE_PATTERN (m ++ rest) = Some rest) as E'
      by (apply re_match_decl; eauto).
    congruence.
  - intros H. destruct (re_match CSS_REMOVE_PATTERN s) as [rest|] eqn:E;
      [|done].
    exfalso. apply H. apply re_match_decl in E as (m & -> & Hm).
    by exists m, rest.
Qed.

(** ** The scan: unfolding equations of [clean_css_content] *)

Lemma re_sub_fuel n : forall s f1 f2,
  length s <= n -> length s < f1 -> length s < f2 ->
  re_sub_empty_aux f1 CSS_REMOVE_PATTERN s
  = re_sub_empty_aux f2 CSS_REMOVE_PATTERN s.
Proof.
  induction n as [|n IH]; intros s f1 f2 Hn H1 H2.
  - destruct s; [|simpl in Hn; lia].
    destruct f1, f2; try lia. reflexivity.
  - destruct f1 as [|f1], f2 as [|f2]; try lia. simpl.
    destruct s as [|c s]; [reflexivity|]. simpl in *.
    destruct (re_match CSS_REMOVE_PATTERN (c :: s)) as [rest|] eqn:E.
    + apply re_match_decl in E as (m & E & Hm).
      apply decl_length in Hm.
      assert (length (c :: s) = length (m ++ rest)) as HL by by rewrite E.
      rewrite length_app in HL. simpl in HL.
      apply IH; lia.
    + f_equal. apply IH; lia.
Qed.

Lemma re_sub_step f r c s :
  re_sub_empty_aux (S f) r (c :: s)
  = match re_match r (c :: s) with
    | Some rest => re_sub_empty_aux f r rest
    | None => c :: re_sub_empty_aux f r s
    end.
Proof. reflexivity. Qed.

Lemma clean_nil : clean_css_content [] = [].
Proof. reflexivity. Qed.

Lemma clean_drop m rest :
  removed_declaration m ->
  clean_css_content (m ++ rest) = clean_css_content rest.
Proof.
  intros Hm. unfold clean_css_content, re_sub_empty.
  pose proof (decl_length _ Hm) as HL.
  destruct (m ++ rest) as [|c s] eqn:E.
  { apply (f_equal length) in E. rewrite length_app in E. simpl in E. lia. }
  rewrite re_sub_step.
  assert (re_match CSS_REMOVE_PATTERN (c :: s) = Some rest) as ->.
  { apply re_match_decl. exists m. by rewrite E. }
  apply (f_equal length) in E. rewrite length_app in E. simpl in E.
  apply (re_sub_fuel (length rest)); simpl; lia.
Qed.

Lemma clean_keep c s :
  ~ declaration_at_head (c :: s) ->
  clean_css_content (c :: s) = c :: clean_css_content s.
Proof.
  intros H. unfold clean_css_content, re_sub_empty.
  rewrite re_sub_step.
  apply re_match_none in H. rewrite H. reflexivity.
Qed.

Lemma declaration_at_head_dec s :
  declaration_at_head s \/ ~ declaration_at_head s.
Proof.
  destruct (re_match CSS_REMOVE_PATTERN s) as [rest|] eqn:E.
  - left. apply re_match_decl in E as (m & -> & Hm). by exists m, rest.
  - right. by apply re_match_none.
Qed.

Lemma clean_strips n : forall s,
  length s <= n -> strips_to s (clean_css_content s).
Proof.
  induction n as [|n IH]; intros s Hn.
  - destruct s; [constructor | simpl in Hn; lia].
  - destruct s as [|c s]; [constructor|].
    destruct (declaration_at_head_dec (c :: s)) as [(m & rest & E & Hm)|H].
    + rewrite E, clean_drop by done. apply strips_drop; [done|].
      apply IH. apply decl_length in Hm.
      apply (f_equal length) in E. rewrite length_app in E.
      simpl in *. lia.
    + rewrite clean_keep by done. apply strips_keep; [done|].
      apply IH. simpl in Hn. lia.
Qed.

Lemma strips_functional s out :
  strips_to s out -> out = clean_css_content s.
Proof.
  induction 1 as [|m rest out Hm _ IH|c s out Hc _ IH].
  - reflexivity.
  - by rewrite clean_drop.
  - by rewrite clean_keep, IH.
Qed.

Lemma clean_length n : forall s,
  length s <= n -> length (clean_css_content s) <= length s.
Proof.
  induction n as [|n IH]; intros s Hn.
  - destruct s; [simpl; lia | simpl in Hn; lia].
  - destruct s as [|c s]; [simpl; lia|].
    destruct (declaration_at_head_dec (c :: s)) as [(m & rest & E & Hm)|H].
    + rewrite E, clean_drop by done. apply decl_length in Hm.
      apply (f_equal length) in E. rewrite length_app in *.
      simpl in *. specialize (IH rest). lia.
    + rewrite clean_keep by done. simpl in *. specialize (IH s). lia.
Qed.

Lemma clean_shrinks before : forall m after,
  removed_declaration m ->
  length (clean_css_content (before ++ m ++ after))
  < length (before ++ m ++ after).
Proof.
  induction before as [|c before IH]; intros m after Hm.
  - simpl. rewrite clean_drop by done.
    pose proof (clean_length _ after (le_n _)).
    apply decl_length in Hm. rewrite length_app. lia.
  - destruct (declaration_at_head_dec ((c :: before) ++ m ++ after))
      as [(m' & rest & E & Hm')|H].
    + rewrite E, clean_drop by done.
      pose proof (clean_length _ rest (le_n _)).
      apply decl_length in Hm'. rewrite length_app. lia.
    + simpl in *. rewrite clean_keep by done. simpl.
      specialize (IH m after Hm). lia.
Qed.

Lemma clean_fixed_iff s :
  clean_css_content s = s <-> ~ declaration_occurs s.
Proof.
  split.
  - intros E (before & m & after & -> & Hm).
    pose proof (clean_shrinks before m after Hm) as HL.
    rewrite E in HL. lia.
  - induction s as [|c s IH]; intros H; [reflexivity|].
    rewrite clean_keep.
    + f_equal. apply IH. intros (before & m & after & -> & Hm).
      apply H. by exists (c :: before), m, after.
    + intros (m & rest & E & Hm). apply H. by exists [], m, rest.
Qed.

(** * Directory trees *)

Lemma assoc_set_eq {A} k (v : A) l :
  is_Some (assoc k l) -> assoc k (assoc_set k v l) = Some v.
Proof.
  induction l as [|[k' x] l IH]; simpl; intros Hs.
  - by destruct Hs.
  - destruct (String.eqb k' k) eqn:E; simpl; rewrite E; auto.
Qed.

Lemma assoc_set_ne {A} k k' (v : A) l :
  k <> k' -> assoc k' (assoc_set k v l) = assoc k' l.
Proof.
  intros Hne. induction l as [|[k0 x] l IH]; simpl; [done|].
  destruct (String.eqb k0 k) eqn:E; simpl.
  - apply String.eqb_eq in E as ->.
    by rewrite (proj2 (String.eqb_neq k k') Hne).
  - by rewrite IH.
Qed.

Lemma assoc_app_new {A} k (v : A) l :
  assoc k l = None -> assoc k (l ++ [(k, v)]) = Some v.
Proof.
  induction l as [|[k0 x] l IH]; simpl; intros Hn.
  - by rewrite String.eqb_refl.
  - destruct (String.eqb k0 k); [done | auto].
Qed.

Lemma assoc_app_ne {A} k k' (v : A) l :
  k <> k' -> assoc k' (l ++ [(k, v)]) = assoc k' l.
Proof.
  intros Hne. induction l as [|[k0 x] l IH]; simpl.
  - by rewrite (proj2 (String.eqb_neq k k') Hne).
  - destruct (String.eqb k0 k'); [done | auto].
Qed.


Lemma read_node_cons c q ch :
  read_node (c :: q) (Dir ch)
  = match assoc c ch with Some n => read_node q n | None => None end.
Proof. unfold read_node. simpl. by destruct (assoc c ch). Qed.

Lemma read_node_file q b : q <> [] -> read_node q (File b) = None.
Proof. by destruct q. Qed.

Lemma read_file_nil t : read_file [] t = None.
Proof. reflexivity. Qed.

Lemma read_file_empty q : read_file q [] = None.
Proof. by destruct q. Qed.

(** Writing a file changes what is read at its own path and nowhere else. *)
Lemma read_file_set_file p : forall b t t' q,
  set_file p b t = Some t' ->
  read_file q t' = if decide (q = p) then Some b else read_file q t.
Proof.
  induction p as [|f p IH]; intros b t t' q Hset; [done|].
  simpl in Hset. destruct p as [|f' p].
  - destruct (assoc f t) as [[b0|ch]|] eqn:Ef; inversion Hset; subst; clear Hset.
    + destruct q as [|c q]; [done|]. unfold read_file.
      rewrite !read_node_cons.
      destruct (decide (f = c)) as [->|Hne].
      * rewrite assoc_set_eq, Ef by (by rewrite Ef).
        destruct q as [|c' q]; [by rewrite decide_True|].
        rewrite decide_False by congruence. done.
      * rewrite assoc_set_ne by done.
        rewrite decide_False by congruence. done.
    + destruct q as [|c q]; [done|]. unfold read_file.
      rewrite !read_node_cons.
      destruct (decide (f = c)) as [->|Hne].
      * rewrite assoc_app_new, Ef by done.
        destruct q as [|c' q]; [by rewrite decide_True|].
        rewrite decide_False by congruence. done.
      * rewrite assoc_app_ne by done.
        rewrite decide_False by congruence. done.
  - destruct (assoc f t) as [[b0|ch]|] eqn:Ef; try discriminate.
    destruct (set_file (f' :: p) b ch) as [ch'|] eqn:Es; [|discriminate].
    inversion Hset; subst; clear Hset.
    destruct q as [|c q]; [done|]. unfold read_file.
    rewrite !read_node_cons.
    destruct (decide (f = c)) as [->|Hne].
    + rewrite assoc_set_eq, Ef by (by rewrite Ef).
      specialize (IH b ch ch' q Es). unfold read_file in IH. rewrite IH.
      repeat case_decide; congruence.
    + rewrite assoc_set_ne by done.
      rewrite decide_False by congruence. done.
Qed.

(** Creating directories leaves every regular file as it was. *)
Lemma read_file_makedirs p : forall t t' q,
  makedirs p t = Some t' -> read_file q t' = read_file q t.
Proof.
  induction p as [|d p IH]; intros t t' q Hmk; simpl in Hmk.
  - by inversion Hmk.
  - destruct (assoc d t) as [[b0|ch]|] eqn:Ed; [discriminate| |].
    + destruct (makedirs p ch) as [ch'|] eqn:Em; [|discriminate].
      inversion Hmk; subst; clear Hmk.
      destruct q as [|c q]; [done|]. unfold read_file.
      rewrite !read_node_cons.
      destruct (decide (d = c)) as [->|Hne].
      * rewrite assoc_set_eq, Ed by (by rewrite Ed).
        apply (IH ch ch' q Em).
      * by rewrite assoc_set_ne.
    + destruct (makedirs p []) as [ch'|] eqn:Em; [|discriminate].
      inversion Hmk; subst; clear Hmk.
      destruct q as [|c q]; [done|]. unfold read_file.
      rewrite !read_node_cons.
      destruct (decide (d = c)) as [->|Hne].
      * rewrite assoc_app_new, Ed by done.
        rewrite <- (read_file_empty q). apply (IH [] ch' q Em).
      * by rewrite assoc_app_ne.
Qed.


(** ** The walk reaches every regular file *)





(** * Member names and paths *)

Lemma str_app_nil_r s : s +:+ "" = s.
Proof.
  induction s as [|c s IH]; [done|].
  change (String c (s +:+ "") = String c s). by rewrite IH.
Qed.

Lemma str_app_assoc s1 s2 s3 : (s1 +:+ s2) +:+ s3 = s1 +:+ (s2 +:+ s3).
Proof.
  induction s1 as [|c s1 IH]; [done|].
  change (String c ((s1 +:+ s2) +:+ s3) = String c (s1 +:+ (s2 +:+ s3))).
  by rewrite IH.
Qed.

Lemma slash_free_app s1 s2 :
  slash_free (s1 +:+ s2) = slash_free s1 && slash_free s2.
Proof.
  induction s1 as [|c s1 IH]; [done|].
  change (negb (Ascii.eqb c "/") && slash_free (s1 +:+ s2)
          = negb (Ascii.eqb c "/") && slash_free s1 && slash_free s2).
  rewrite IH. by rewrite andb_assoc.
Qed.

Lemma split_slash_app c : forall cur rest,
  slash_free c = true ->
  split_slash cur (c +:+ rest) = split_slash (cur +:+ c) rest.
Proof.
  induction c as [|a c IH]; intros cur rest Hc.
  - by rewrite str_app_nil_r.
  - simpl in Hc. apply andb_prop in Hc as [Ha Hc].
    apply negb_true_iff in Ha.
    change (split_slash cur (String a (c +:+ rest))
            = split_slash (cur +:+ String a c) rest).
    cbn [split_slash]. rewrite Ha, IH by done. f_equal.
    apply (str_app_assoc cur (String a "") c).
Qed.

Lemma split_slash_slash cur s :
  split_slash cur (String "/" s) = cur :: split_slash "" s.
Proof. reflexivity. Qed.

Lemma split_slash_join q :
  q <> [] -> Forall (fun c => slash_free c = true) q ->
  split_slash "" (join_slash q) = q.
Proof.
  induction q as [|c q IH]; intros Hne Hq; [done|].
  inversion Hq as [|? ? Hc Hq']; subst.
  destruct q as [|c' q].
  - simpl. rewrite <- (str_app_nil_r c) at 1.
    by rewrite split_slash_app.
  - change (join_slash (c :: c' :: q))
      with (c +:+ "/" +:+ join_slash (c' :: q)).
    rewrite split_slash_app by done.
    change (split_slash c (String "/" (join_slash (c' :: q))) = c :: c' :: q).
    rewrite split_slash_slash. by rewrite IH.
Qed.

Lemma split_slash_free s : forall cur,
  slash_free cur = true ->
  Forall (fun c => slash_free c = true) (split_slash cur s).
Proof.
  induction s as [|a s IH]; intros cur Hcur; simpl.
  - by constructor.
  - destruct (Ascii.eqb a "/") eqn:Ea.
    + constructor; [done|]. by apply IH.
    + apply IH. rewrite slash_free_app, Hcur. simpl. by rewrite Ea.
Qed.

Lemma member_path_good name : Forall good_component (member_path name).
Proof.
  unfold member_path. apply Forall_forall. intros c Hc.
  apply list_elem_of_filter in Hc as [Hv Hc]. split; [done|].
  pose proof (split_slash_free name "" eq_refl) as Hall.
  rewrite Forall_forall in Hall. by apply Hall.
Qed.

Lemma filter_all {A} (P : A -> Prop) `{forall x, Decision (P x)} (l : list A) :
  Forall P l -> filter P l = l.
Proof.
  induction 1 as [|x l Hx _ IH]; [done|].
  by rewrite filter_cons_True, IH.
Qed.

(** A path of good components is the path of its own archive name. *)
Lemma member_path_join q :
  q <> [] -> Forall good_component q -> member_path (join_slash q) = q.
Proof.
  intros Hne Hq. unfold member_path. rewrite split_slash_join.
  - apply filter_all. eapply Forall_impl; [exact Hq|]. by intros c [Hv _].
  - done.
  - eapply Forall_impl; [exact Hq|]. by intros c [_ Hs].
Qed.


(** * Extraction *)

Lemma extract_member_read m t t' q :
  extract_member m t = Some t' ->
  read_file q t' =
    if member_is_dir (filename m) then read_file q t
    else if decide (q = member_path (filename m)) then Some (file_data m)
         else read_file q t.
Proof.
  unfold extract_member. destruct (member_is_dir (filename m)).
  - apply read_file_makedirs.
  - destruct (makedirs _ t) as [t1|] eqn:E1; [|done]. intros E2.
    rewrite (read_file_set_file _ _ _ _ q E2).
    case_decide; [done|]. by eapply read_file_makedirs.
Qed.

Lemma extract_members_step fault m a t t' ok :
  extract_members fault (m :: a) t = (t', ok) ->
  (ok = false /\ t' = t) \/
  exists t1, extract_member m t = Some t1 /\
             extract_members (pred <$> fault) a t1 = (t', ok).
Proof.
  simpl. destruct fault as [[|n]|].
  - intros [= <- <-]. by left.
  - destruct (extract_member m t) as [t1|].
    + intros He. right. by exists t1.
    + intros [= <- <-]. by left.
  - destruct (extract_member m t) as [t1|].
    + intros He. right. by exists t1.
    + intros [= <- <-]. by left.
Qed.


(** Every regular file of the extracted tree was there before or is a
    file member of the archive, under the path of its name. *)
Lemma extract_members_provenance a : forall fault t t' q b,
  extract_members fault a t = (t', true) ->
  read_file q t' = Some b ->
  read_file q t = Some b \/
  exists m, m ∈ a /\ member_is_dir (filename m) = false /\
            member_path (filename m) = q /\ file_data m = b.
Proof.
  induction a as [|m a IH]; intros fault t t' q b He Hr.
  - inversion He; subst. by left.
  - apply extract_members_step in He as [[? _]|(t1 & E1 & E2)]; [done|].
    destruct (IH _ _ _ _ _ E2 Hr) as [H1|(m' & Hin & Hd & Hp & Hb)].
    + rewrite (extract_member_read _ _ _ q E1) in H1.
      destruct (member_is_dir (filename m)) eqn:Ed; [by left|].
      case_decide; [|by left].
      right. exists m. split; [left|]. split; [done|].
      split; [done | congruence].
    + right. exists m'. split; [by right | done].
Qed.

Lemma extract_members_keeps a : forall fault t t' q,
  extract_members fault a t = (t', true) ->
  is_Some (read_file q t) -> is_Some (read_file q t').
Proof.
  induction a as [|m a IH]; intros fault t t' q He Hq.
  - by inversion He; subst.
  - apply extract_members_step in He as [[? _]|(t1 & E1 & E2)]; [done|].
    eapply IH; [exact E2|].
    rewrite (extract_member_read _ _ _ q E1).
    destruct (member_is_dir (filename m)); [done|]. case_decide; eauto.
Qed.

(** Every file member of the archive is a regular file of the extracted
    tree, at the path of its name. *)
Lemma extract_members_present a : forall fault t t' m,
  extract_members fault a t = (t', true) ->
  m ∈ a -> member_is_dir (filename m) = false ->
  is_Some (read_file (member_path (filename m)) t').
Proof.
  induction a as [|m0 a IH]; intros fault t t' m He Hin Hd.
  - by apply elem_of_nil in Hin.
  - apply extract_members_step in He as [[? _]|(t1 & E1 & E2)]; [done|].
    apply elem_of_cons in Hin as [->|Hin].
    + eapply extract_members_keeps; [exact E2|].
      rewrite (extract_member_read _ _ _ _ E1), Hd.
      rewrite decide_True by done. eauto.
    + by eapply IH.
Qed.

Lemma good_files_empty : good_files [].
Proof. intros q b Hr. by rewrite read_file_empty in Hr. Qed.

Lemma extract_members_good a fault t t' :
  extract_members fault a t = (t', true) -> good_files t -> good_files t'.
Proof.
  intros He Ht q b Hr.
  destruct (extract_members_provenance _ _ _ _ _ _ He Hr)
    as [H1|(m & _ & _ & <- & _)]; [by eapply Ht|].
  split; [|apply member_path_good].
  intros E. by rewrite E, read_file_nil in Hr.
Qed.

(** * The loops of the program *)

Local Open Scope py_scope.

Lemma for_each_app {A} (l1 l2 : list A) (body : A -> M unit) st :
  for_each (l1 ++ l2) body st
  = (for_each l1 body ;; for_each l2 body) st.
Proof.
  revert st. induction l1 as [|x l1 IH]; intros st; simpl.
  - reflexivity.
  - unfold bind. destruct (body x st) as [[a|b|e] st']; [|done|done].
    rewrite IH. reflexivity.
Qed.

Lemma for_each_ext {A} (l : list A) (body1 body2 : A -> M unit) st :
  (forall x st, body1 x st = body2 x st) ->
  for_each l body1 st = for_each l body2 st.
Proof.
  intros Hext. revert st. induction l as [|x l IH]; intros st; simpl.
  - reflexivity.
  - unfold bind. rewrite Hext. destruct (body2 x st) as [[a|b|e] st']; auto.
Qed.

Lemma for_each_map {A B} (f : A -> B) (l : list A) (body : B -> M unit) st :
  for_each (map f l) body st = for_each l (fun x => body (f x)) st.
Proof.
  revert st. induction l as [|x l IH]; intros st; simpl.
  - reflexivity.
  - unfold bind. destruct (body (f x) st) as [[a|b|e] st']; auto.
Qed.

Lemma for_each_flat_map {A B} (g : A -> list B) (l : list A)
    (body : B -> M unit) st :
  for_each l (fun x => for_each (g x) body) st
  = for_each (flat_map g l) body st.
Proof.
  revert st. induction l as [|x l IH]; intros st; simpl.
  - reflexivity.
  - rewrite for_each_app. unfold bind.
    destruct (for_each (g x) body st) as [[a|b|e] st']; auto.
Qed.

(** A loop whose body always runs to its end is a fold over the state. *)
Lemma for_each_fold {A S} (inj : S -> State) (step : S -> A -> S)
    (body : A -> M unit) (l : list A) :
  (forall x s, body x (inj s) = (Normal tt, inj (step s x))) ->
  forall s, for_each l body (inj s) = (Normal tt, inj (fold_left step l s)).
Proof.
  intros Hbody. induction l as [|x l IH]; intros s; simpl.
  - reflexivity.
  - unfold bind. rewrite Hbody. apply IH.
Qed.

(** Reduction of the control operators and of the record accessors, and
    of nothing else. *)
Ltac mred :=
  repeat
    (progress
       (cbv beta iota zeta delta
            [bind ret raise return_ try_except try_finally handle when
             print set_world get_world set_local get_local
             is_Exception is_OSError is_BadZipFile
             add_console set_files set_tmpdirs
             set_temp_output_epub_path set_temp_dir set_css_files_found
             set_modified set_new_zip initial_locals];
        cbn [negb fst snd files tmpdirs console
             temp_output_epub_path temp_dir css_files_found modified new_zip
             ws_tree ws_found ws_modified ws_msgs])).

Section Runs.

Context `{Platform}.
Variable env : Env.
Variable transform : text -> text.

(** ** Step 3 *)

Lemma in_walk_tmpdir w l d s :
  tmpdirs (in_walk w l d s).1 !! d = Some (ws_tree s).
Proof. simpl. apply lookup_insert_eq. Qed.

Lemma clean_one_run w l d root file s :
  clean_one env transform d root file (in_walk w l d s)
  = (Normal tt, in_walk w l d (walk_one env transform s (root, file))).
Proof.
  unfold clean_one, walk_one, read_text, write_text, store_file.
  destruct (is_css_name file); [|reflexivity].
  destruct (env_read_fault env (root ++ [file])) eqn:Ef.
  { unfold in_walk, walk_warn. mred. by rewrite <- app_assoc. }
  unfold in_walk at 1. mred. rewrite lookup_insert_eq.
  destruct (read_file (root ++ [file]) (ws_tree s)) as [b|] eqn:Er.
  2:{ unfold in_walk, walk_warn. mred. by rewrite <- app_assoc. }
  destruct (bool_decide (transform (decode_text b) = decode_text b));
    [reflexivity|].
  destruct (env_write_fault env (root ++ [file])) eqn:Ew; mred;
    rewrite ?lookup_insert_eq.
  - destruct (set_file (root ++ [file]) _ (ws_tree s)) as [t'|] eqn:Es;
      unfold in_walk, walk_warn; mred;
      by rewrite ?insert_insert_eq, <- app_assoc.
  - unfold in_walk, walk_warn; mred. by rewrite <- app_assoc.
  - destruct (set_file (root ++ [file]) [] (ws_tree s)) as [t'|] eqn:Es;
      unfold in_walk, walk_warn; mred;
      by rewrite ?insert_insert_eq, <- app_assoc.
Qed.

Lemma step_walk_run w l d t :
  tmpdirs w !! d = Some t ->
  step_walk env transform d (w, l)
  = (Normal tt, in_walk w l d (walk_result env transform t)).
Proof.
  intros Hd. unfold step_walk, os_walk. mred. rewrite Hd. mred.
  assert (forall st : State,
    for_each (walk_tree t)
      (fun item => let '(root, _, fs) := item in
                   for_each fs (clean_one env transform d root)) st
    = for_each (walk_files t)
        (fun item => clean_one env transform d item.1 item.2) st) as ->.
  { intros st. unfold walk_files. rewrite <- for_each_flat_map.
    apply for_each_ext. intros [[root dirs] fs] st'.
    by rewrite for_each_map. }
  set (s0 := {| ws_tree := t; ws_found := false; ws_modified := false;
                ws_msgs := [] |}).
  match goal with
  | |- for_each _ _ ?st = _ => assert (st = in_walk w l d s0) as ->
  end.
  { unfold in_walk, s0. destruct w, l. cbn in *.
    by rewrite insert_id, app_nil_r. }
  rewrite (for_each_fold (in_walk w l d) (walk_one env transform)).
  - reflexivity.
  - intros [root file] s. apply clean_one_run.
Qed.

(** ** Step 5 *)

Lemma zip_write_run w l p d t r ms content :
  tmpdirs w !! d = Some t ->
  exists ms' content',
    (write_member env p d r (in_pack w l p ms content)
       = (Raise OSError, in_pack w l p ms' content')) \/
    (exists m, member_of t r = Some m /\
       write_member env p d r (in_pack w l p ms content)
       = (Normal tt, in_pack w l p (ms ++ [m]) content)).
Proof.
  intros Hd. destruct r as [[src arcname] ctype].
  unfold write_member, zip_write, pack_fault_check, in_pack, member_of.
  cbn [fst snd].
  assert (forall c, (set_files (<[p:=c]> (<[p:=content]> (files w)))
            {| files := <[p:=content]> (files w); tmpdirs := tmpdirs w;
               console := console w |})
          = {| files := <[p:=c]> (files w); tmpdirs := tmpdirs w;
               console := console w |}) as Hins.
  { intros c. unfold set_files. cbn. by rewrite insert_insert_eq. }
  destruct (env_pack_fault env) as [| |n partial] eqn:Ef; mred;
    try destruct (length ms =? n); mred; rewrite ?Hd; rewrite ?insert_insert_eq;
    try (exists ms, partial; left; reflexivity);
    (destruct (find_node src (Dir t)) as [[b|ch]|]; mred;
     [ exists ms, content; right; eexists; split; reflexivity
     | exists ms, content; right; eexists; split; reflexivity
     | exists ms, content; left; reflexivity ]).
Qed.

Lemma write_members_run w l p d t reqs :
  tmpdirs w !! d = Some t ->
  forall ms content,
  exists o ms' content',
    for_each reqs (write_member env p d) (in_pack w l p ms content)
      = (o, in_pack w l p ms' content') /\
    (o = Raise OSError \/
     (o = Normal tt /\ content' = content /\
      exists out, mapM (member_of t) reqs = Some out /\ ms' = ms ++ out)).
Proof.
  intros Hd. induction reqs as [|r reqs IH]; intros ms content.
  - exists (Normal tt), ms, content. split; [reflexivity|]. right.
    repeat split. exists []. by rewrite app_nil_r.
  - cbn [for_each]. unfold bind.
    destruct (zip_write_run w l p d t r ms content Hd)
      as (ms1 & c1 & [E|(m & Hm & E)]); rewrite E.
    + exists (Raise OSError), ms1, c1. split; [reflexivity | by left].
    + destruct (IH (ms ++ [m]) content) as (o & ms' & c' & E' & Ho).
      exists o, ms', c'. split; [exact E'|].
      destruct Ho as [->|(-> & -> & out & Hout & ->)]; [by left|].
      right. repeat split. exists (m :: out).
      rewrite <- app_assoc. split; [|reflexivity].
      cbn. rewrite Hm. cbn. by rewrite Hout.
Qed.

Lemma bind_normal {A B} (m : M A) (f : A -> M B) st a st' :
  m st = (Normal a, st') -> (x <- m ;; f x) st = f a st'.
Proof. unfold bind. by intros ->. Qed.

Lemma bind_raise {A B} (m : M A) (f : A -> M B) st e st' :
  m st = (Raise e, st') -> (x <- m ;; f x) st = (Raise e, st').
Proof. unfold bind. by intros ->. Qed.

Lemma scratch_path_exists_run (st : State) d q t :
  tmpdirs st.1 !! d = Some t ->
  scratch_path_exists d q st
  = (Normal (bool_decide (is_Some (find_node q (Dir t)))), st).
Proof.
  intros Hd. unfold scratch_path_exists. mred. rewrite Hd.
  destruct (find_node q (Dir t)) as [n|]; mred.
  - by rewrite bool_decide_true.
  - rewrite bool_decide_false; [done|]. by intros [? ?].
Qed.

Lemma os_walk_run (st : State) d t :
  tmpdirs st.1 !! d = Some t -> os_walk d st = (Normal (walk_tree t), st).
Proof. intros Hd. unfold os_walk. mred. by rewrite Hd. Qed.

Lemma pack_body_run w l p d t ms content :
  tmpdirs w !! d = Some t ->
  pack_body env p d (in_pack w l p ms content)
  = for_each (pack_requests t) (write_member env p d)
      (in_pack w l p ms content).
Proof.
  intros Hd. unfold pack_body, pack_requests, walk_requests.
  assert (forall st : State, tmpdirs st.1 !! d = Some t ->
    (items <- os_walk d ;;
     for_each items
       (fun item =>
          let '(root, _, fs) := item in
          for_each
            (if bool_decide (root = []) && bool_decide ("mimetype" ∈ fs)
             then remove_first "mimetype" fs else fs)
            (fun file =>
               zip_write env p d (root ++ [file])
                 (relpath_arcname (root ++ [file])) None))) st
    = for_each
        (flat_map
           (fun item : list string * list string * list string =>
              let '(root, _, fs) := item in
              map (fun file => (root ++ [file],
                                relpath_arcname (root ++ [file]),
                                @None compress_type))
                (if bool_decide (root = []) && bool_decide ("mimetype" ∈ fs)
                 then remove_first "mimetype" fs else fs))
           (walk_tree t))
        (write_member env p d) st) as Hflat.
  { intros st Hst. rewrite (bind_normal _ _ _ _ _ (os_walk_run st d t Hst)).
    rewrite <- for_each_flat_map. apply for_each_ext.
    intros [[root dirs] fs] st'. by rewrite for_each_map. }
  rewrite for_each_app.
  rewrite (bind_normal _ _ _ _ _
             (scratch_path_exists_run (in_pack w l p ms content) d _ t Hd)).
  destruct (find_node ["mimetype"] (Dir t)) as [n|].
  - rewrite bool_decide_true by done. cbn [when for_each].
    change (zip_write env p d ["mimetype"] "mimetype" (Some ZIP_STORED))
      with (write_member env p d (["mimetype"], "mimetype", Some ZIP_STORED)).
    destruct (zip_write_run w l p d t
                (["mimetype"], "mimetype", Some ZIP_STORED) ms content Hd)
      as (ms1 & c1 & [E|(m & Hm & E)]).
    + rewrite (bind_raise _ _ _ _ _ E).
      rewrite (bind_raise _ (fun _ => for_each _ _) _ OSError
                 (in_pack w l p ms1 c1)); [done|].
      by rewrite (bind_raise _ _ _ _ _ E).
    + rewrite (bind_normal _ _ _ _ _ E).
      rewrite (bind_normal _ (fun _ => for_each _ _) _ tt
                 (in_pack w l p (ms ++ [m]) content)).
      * by apply Hflat.
      * by rewrite (bind_normal _ _ _ _ _ E).
  - rewrite bool_decide_false by (by intros [? ?]). cbn [when for_each].
    mred. by apply Hflat.
Qed.

Lemma zip_open_write_run w l p :
  env_pack_fault env <> PackFailOpen ->
  zip_open_write env p (w, l) = (Normal tt, in_pack w l p [] []).
Proof.
  intros Hf. unfold zip_open_write, in_pack.
  by destruct (env_pack_fault env); mred.
Qed.

Lemma zip_close_run w l p ms content :
  exists o content',
    zip_close env p (in_pack w l p ms content) = (o, in_pack w l p ms content')
    /\ (o = Raise OSError \/ (o = Normal tt /\ content' = zip_bytes ms)).
Proof.
  unfold zip_close, pack_fault_check, in_pack.
  destruct (env_pack_fault env) as [| |n partial]; mred;
    try destruct (length ms =? n); mred; rewrite insert_insert_eq.
  all: first [ by exists (Normal tt), (zip_bytes ms); split; [|right]
             | by exists (Raise OSError), partial; split; [|left] ].
Qed.

Lemma pack_run w l p d t :
  tmpdirs w !! d = Some t ->
  (env_pack_fault env = PackFailOpen /\
   with_zipfile_write env p (pack_body env p d) (w, l)
   = (Raise OSError, (w, l))) \/
  exists o ms content,
    with_zipfile_write env p (pack_body env p d) (w, l)
      = (o, in_pack w l p ms content) /\
    (o = Raise OSError \/
     (o = Normal tt /\ pack_members t = Some ms /\ content = zip_bytes ms)).
Proof.
  intros Hd. unfold with_zipfile_write.
  assert (env_pack_fault env = PackFailOpen
          \/ env_pack_fault env <> PackFailOpen) as [Ef|Ef]
    by (destruct (env_pack_fault env); auto).
  { left. split; [done|]. unfold zip_open_write. rewrite Ef. reflexivity. }
  right. rewrite (bind_normal _ _ _ _ _ (zip_open_write_run w l p Ef)).
  destruct (write_members_run w l p d t (pack_requests t) Hd [] [])
    as (o & ms & c & E & Ho).
  rewrite <- (pack_body_run w l p d t [] [] Hd) in E.
  destruct Ho as [->|(-> & -> & out & Hout & ->)].
  - exists (Raise OSError), ms, c. split; [|by left].
    by rewrite (bind_raise _ _ _ _ _ E).
  - rewrite (bind_normal _ _ _ _ _ E). cbn [app].
    destruct (zip_close_run w l p out []) as (o & c' & E' & Ho).
    exists o, out, c'. split; [exact E'|].
    destruct Ho as [->|[-> ->]]; [by left | by right].
Qed.

End Runs.

(** * Every call takes one of the exits *)

Lemma str_length_app s1 s2 :
  String.length (s1 +:+ s2) = String.length s1 + String.length s2.
Proof.
  induction s1 as [|c s1 IH]; [done|].
  change (S (String.length (s1 +:+ s2))
          = S (String.length s1) + String.length s2).
  by rewrite IH.
Qed.

(** The temporary archive never has the path of the container. *)
Lemma temp_output_name_ne env epub_path :
  temp_output_name env epub_path <> epub_path.
Proof.
  unfold temp_output_name. intros E.
  apply (f_equal String.length) in E. rewrite str_length_app in E.
  change (String.length ("." +:+ env_uuid4 env +:+ ".tmpzip"))
    with (S (String.length (env_uuid4 env +:+ ".tmpzip"))) in E.
  lia.
Qed.

Section Master.

Context `{Platform}.
Variable env : Env.
Variable transform : text -> text.

Local Open Scope py_scope.

(** The [finally] clause, with the scratch directory in place. *)
Lemma finally_run F dirs d t C tmpo cf md nz :
  dirs !! d = None ->
  process_finally env
    ({| files := F; tmpdirs := <[d := t]> dirs; console := C |},
     {| temp_output_epub_path := tmpo; temp_dir := Some d;
        css_files_found := cf; modified := md; new_zip := nz |})
  = (Normal tt,
     ({| files := match tmpo with
                  | Some q =>
                      if env_remove_fault env InFinally then F else delete q F
                  | None => F
                  end;
         tmpdirs := after_rmtree env d t dirs;
         console := C ++ rmtree_msgs env |},
      {| temp_output_epub_path := tmpo; temp_dir := Some d;
         css_files_found := cf; modified := md; new_zip := nz |})).
Proof.
  intros Hd.
  unfold process_finally, dir_exists, rmtree, if_temp_output_exists,
    file_exists, os_remove, after_rmtree, rmtree_msgs.
  mred. rewrite lookup_insert_eq, bool_decide_true by eauto. mred.
  destruct (env_rmtree_fault env); mred;
    rewrite ?lookup_insert_eq; mred;
    rewrite ?delete_insert_id, ?app_nil_r by done;
    (destruct tmpo as [q|]; mred; [|reflexivity]);
    (destruct (F !! q) as [c|] eqn:Eq;
     [ rewrite bool_decide_true by eauto
     | rewrite bool_decide_false by (by intros [? ?]) ]; mred;
     destruct (env_remove_fault env InFinally); mred;
     rewrite ?Eq; mred; rewrite ?delete_id by done; reflexivity).
Qed.

(** The [finally] clause when no scratch directory was created. *)
Lemma finally_run_none (w : World) :
  process_finally env (w, initial_locals) = (Normal tt, (w, initial_locals)).
Proof. reflexivity. Qed.

(** The outer [except] clause. *)
Lemma except_run F D C tmpo td cf md nz :
  process_except env
    ({| files := F; tmpdirs := D; console := C |},
     {| temp_output_epub_path := tmpo; temp_dir := td;
        css_files_found := cf; modified := md; new_zip := nz |})
  = (Return false,
     ({| files := match tmpo with
                  | Some q =>
                      if env_remove_fault env InOuterHandler then F
                      else delete q F
                  | None => F
                  end;
         tmpdirs := D; console := C ++ [MsgUnexpected] |},
      {| temp_output_epub_path := tmpo; temp_dir := td;
         css_files_found := cf; modified := md; new_zip := nz |})).
Proof.
  unfold process_except, if_temp_output_exists, file_exists, os_remove.
  mred. destruct tmpo as [q|]; mred; [|reflexivity].
  destruct (F !! q) as [c|] eqn:Eq;
    [ rewrite bool_decide_true by eauto
    | rewrite bool_decide_false by (by intros [? ?]) ]; mred;
    destruct (env_remove_fault env InOuterHandler); mred;
    rewrite ?Eq; mred; rewrite ?delete_id by done; reflexivity.
Qed.

Lemma failure_handler_run msg site F D C q td cf md nz :
  let l := {| temp_output_epub_path := Some q; temp_dir := td;
              css_files_found := cf; modified := md; new_zip := nz |} in
  (is_Some (F !! q) /\ env_remove_fault env site = true /\
   failure_handler env msg site
     ({| files := F; tmpdirs := D; console := C |}, l)
   = (Raise OSError,
      ({| files := F; tmpdirs := D; console := C ++ [msg] |}, l))) \/
  failure_handler env msg site
    ({| files := F; tmpdirs := D; console := C |}, l)
  = (Return false,
     ({| files := delete q F; tmpdirs := D; console := C ++ [msg] |}, l)).
Proof.
  unfold failure_handler, if_temp_output_exists, file_exists, os_remove.
  mred.
  destruct (F !! q) as [c|] eqn:Eq;
    [ rewrite bool_decide_true by eauto
    | rewrite bool_decide_false by (by intros [? ?]) ]; mred.
  - destruct (env_remove_fault env site) eqn:Ef; mred.
    + left. eauto.
    + right. rewrite Eq. reflexivity.
  - right. rewrite delete_id by done. reflexivity.
Qed.

Lemma stmt_return epub_path st b st1 st2 :
  process_try env transform epub_path st = (Return b, st1) ->
  process_finally env st1 = (Normal tt, st2) ->
  process_stmt env transform epub_path st = (Return b, st2).
Proof.
  intros E1 E2. unfold process_stmt, try_finally, try_except.
  by rewrite E1, E2.
Qed.

Lemma stmt_raise epub_path st e st1 st1' st2 :
  process_try env transform epub_path st = (Raise e, st1) ->
  process_except env st1 = (Return false, st1') ->
  process_finally env st1' = (Normal tt, st2) ->
  process_stmt env transform epub_path st = (Return false, st2).
Proof.
  intros E1 E1' E2. unfold process_stmt, try_finally, try_except.
  rewrite E1. cbn [handle is_Exception]. by rewrite E1', E2.
Qed.

Lemma bind_return {A B} (m : M A) (f : A -> M B) st b st' :
  m st = (Return b, st') -> (x <- m ;; f x) st = (Return b, st').
Proof. unfold bind. by intros ->. Qed.

Lemma step_extract_run epub_path F D C d l :
  D !! d = None ->
  let st := ({| files := F; tmpdirs := <[d := []]> D; console := C |}, l) in
  match F !! epub_path with
  | None =>
      step_extract env epub_path d st
      = (Return false,
         ({| files := F; tmpdirs := <[d := []]> D;
             console := C ++ [MsgExtractError] |}, l))
  | Some b =>
      match zip_read b with
      | None =>
          step_extract env epub_path d st
          = (Return false,
             ({| files := F; tmpdirs := <[d := []]> D;
                 console := C ++ [MsgBadZip] |}, l))
      | Some a =>
          match extract_members (env_extract_fault env) a [] with
          | (t, true) =>
              step_extract env epub_path d st
              = (Normal tt,
                 ({| files := F; tmpdirs := <[d := t]> D; console := C |}, l))
          | (t, false) =>
              step_extract env epub_path d st
              = (Return false,
                 ({| files := F;
                     tmpdirs := <[d := env_extract_debris env t]> D;
                     console :=
                       C ++ [match extract_error (env_extract_fault env)
                                     (extract_exn env) a [] with
                             | BadZipFile => MsgBadZip
                             | OSError => MsgExtractError
                             end] |}, l))
          end
      end
  end.
Proof.
  intros Hd st. unfold st, step_extract, zip_open_read, extractall.
  destruct (F !! epub_path) as [b|] eqn:Eb; mred; rewrite Eb; mred;
    [|reflexivity].
  destruct (zip_read b) as [a|]; mred; [|reflexivity].
  rewrite lookup_insert_eq.
  destruct (extract_members (env_extract_fault env) a []) as [t [|]];
    mred; [by rewrite insert_insert_eq|].
  destruct (extract_error _ _ _ _); mred; by rewrite insert_insert_eq.
Qed.

Lemma step_pack_run F D C d t p td cf md nz :
  D !! d = Some t ->
  let l := {| temp_output_epub_path := Some p; temp_dir := td;
              css_files_found := cf; modified := md; new_zip := nz |} in
  let st := ({| files := F; tmpdirs := D; console := C |}, l) in
  exists o F' C' nz',
    step_pack env p d st
    = (o, ({| files := F'; tmpdirs := D; console := C' |},
           {| temp_output_epub_path := Some p; temp_dir := td;
              css_files_found := cf; modified := md; new_zip := nz' |})) /\
    ((o = Normal tt /\ C' = C /\
      exists out, pack_members t = Some out /\ F' = <[p := zip_bytes out]> F)
     \/ (o = Return false /\ C' = C ++ [MsgPackError] /\ F' = delete p F)
     \/ (o = Raise OSError /\ C' = C ++ [MsgPackError] /\
         env_remove_fault env InPackHandler = true /\
         exists junk, F' = <[p := junk]> F)).
Proof.
  intros Hd l st. unfold step_pack, try_except.
  change (print MsgPackError ;;
          if_temp_output_exists (os_remove env InPackHandler) ;;
          return_ false)
    with (failure_handler env MsgPackError InPackHandler).
  destruct (pack_run env {| files := F; tmpdirs := D; console := C |} l p d t Hd)
    as [[Ef E]|(o & ms & content & E & Ho)]; fold st in E; rewrite E.
  - cbn [handle is_Exception]. unfold st, l.
    destruct (failure_handler_run MsgPackError InPackHandler
                F D C p td cf md nz) as [([c Hc] & Hf & E')|E']; rewrite E'.
    + eexists _, _, _, _. split; [reflexivity|]. right. right.
      repeat split; [done|]. exists c. by rewrite insert_id.
    + eexists _, _, _, _. split; [reflexivity|]. right. left. done.
  - unfold in_pack, l. mred. destruct Ho as [->|(-> & Hout & ->)].
    + cbn [handle is_Exception].
      destruct (failure_handler_run MsgPackError InPackHandler
                  (<[p := content]> F) D C p td cf md ms)
        as [(_ & Hf & E')|E']; rewrite E'.
      * eexists _, _, _, _. split; [reflexivity|]. right. right.
        repeat split; [done|]. by exists content.
      * eexists _, _, _, _. split; [reflexivity|]. right. left.
        by rewrite delete_insert_eq.
    + eexists _, _, _, _. split; [reflexivity|]. left.
      repeat split. by exists ms.
Qed.

Lemma step_replace_run F D C p epub_path zb td cf md nz :
  F !! p = Some zb -> p <> epub_path ->
  let st := ({| files := F; tmpdirs := D; console := C |},
             {| temp_output_epub_path := Some p; temp_dir := td;
                css_files_found := cf; modified := md; new_zip := nz |}) in
  exists o F' C' tmpo,
    step_replace env p epub_path st
    = (o, ({| files := F'; tmpdirs := D; console := C' |},
           {| temp_output_epub_path := tmpo; temp_dir := td;
              css_files_found := cf; modified := md; new_zip := nz |})) /\
    ((o = Return true /\ C' = C ++ [MsgDone] /\ tmpo = None /\
      move_leaves env zb = None /\
      F' = <[epub_path := zb]> (delete p F))
     \/ (exists left, move_leaves env zb = Some left /\
         o = Return false /\ C' = C ++ [MsgReplaceError] /\ tmpo = Some p /\
         F' = delete p (container_left epub_path left F))
     \/ (exists left, move_leaves env zb = Some left /\
         o = Raise OSError /\ C' = C ++ [MsgReplaceError] /\ tmpo = Some p /\
         env_remove_fault env InMoveHandler = true /\
         F' = container_left epub_path left F)).
Proof.
  intros Hp Hne st.
  assert (forall left,
            move_leaves env zb = Some left ->
            exists o F' C' tmpo,
              (failure_handler env MsgReplaceError InMoveHandler
                 ({| files := container_left epub_path left F; tmpdirs := D;
                     console := C |},
                  {| temp_output_epub_path := Some p; temp_dir := td;
                     css_files_found := cf; modified := md; new_zip := nz |})
               = (o, ({| files := F'; tmpdirs := D; console := C' |},
                      {| temp_output_epub_path := tmpo; temp_dir := td;
                         css_files_found := cf; modified := md;
                         new_zip := nz |}))) /\
              ((exists left, move_leaves env zb = Some left /\
                 o = Return false /\ C' = C ++ [MsgReplaceError] /\
                 tmpo = Some p /\
                 F' = delete p (container_left epub_path left F))
               \/ (exists left, move_leaves env zb = Some left /\
                   o = Raise OSError /\ C' = C ++ [MsgReplaceError] /\
                   tmpo = Some p /\
                   env_remove_fault env InMoveHandler = true /\
                   F' = container_left epub_path left F))) as Hfail.
  { intros left Hl.
    destruct (failure_handler_run MsgReplaceError InMoveHandler
                (container_left epub_path left F) D C p td cf md nz)
      as [(_ & Hf & E')|E']; rewrite E';
      eexists _, _, _, _; (split; [reflexivity|]).
    - right. by exists left.
    - left. by exists left. }
  unfold step_replace, try_except, shutil_move, os_rename, copy2, os_unlink.
  change (print MsgReplaceError ;;
          if_temp_output_exists (os_remove env InMoveHandler) ;;
          return_ false)
    with (failure_handler env MsgReplaceError InMoveHandler).
  unfold move_leaves in *.
  destruct (env_move_fault env); unfold st; mred.
  - rewrite Hp. mred.
    destruct (env_copy_fault env) as [| |n]; mred.
    + destruct (env_unlink_fault env); mred.
      * destruct (Hfail (Some zb) eq_refl) as (o & F' & C' & tmpo & E & Ho).
        cbn [container_left] in E. rewrite E.
        eexists _, _, _, _. split; [reflexivity|]. right. exact Ho.
      * rewrite lookup_insert_ne, Hp by done. mred.
        eexists _, _, _, _. split; [reflexivity|]. left.
        repeat split. by rewrite delete_insert_ne.
    + destruct (Hfail None eq_refl) as (o & F' & C' & tmpo & E & Ho).
      cbn [container_left] in E. rewrite E.
      eexists _, _, _, _. split; [reflexivity|]. right. exact Ho.
    + destruct (Hfail (Some (take n zb)) eq_refl)
        as (o & F' & C' & tmpo & E & Ho).
      cbn [container_left] in E. rewrite E.
      eexists _, _, _, _. split; [reflexivity|]. right. exact Ho.
  - rewrite Hp. mred.
    eexists _, _, _, _. split; [reflexivity|]. left. done.
Qed.

Lemma after_walk_run epub_path F D C d t found changed nz :
  let st := ({| files := F; tmpdirs := <[d := t]> D; console := C |},
             {| temp_output_epub_path := None; temp_dir := Some d;
                css_files_found := found; modified := changed;
                new_zip := nz |}) in
  exists o F' C' tmpo nz',
    after_walk env epub_path d st
    = (o, ({| files := F'; tmpdirs := <[d := t]> D; console := C ++ C' |},
           {| temp_output_epub_path := tmpo; temp_dir := Some d;
              css_files_found := found; modified := changed;
              new_zip := nz' |})) /\
    after_walk_exit env epub_path t found changed F o F' C' tmpo.
Proof.
  intros st. unfold st, after_walk. mred.
  destruct found; mred.
  2:{ eexists _, _, _, _, _. split; [reflexivity|].
      apply aw_no_change. by left. }
  destruct changed; mred.
  2:{ eexists _, _, _, _, _. split; [reflexivity|].
      apply aw_no_change. by right. }
  set (p := temp_output_name env epub_path).
  destruct (step_pack_run F (<[d := t]> D) (C ++ [MsgRepacking]) d t p
              (Some d) true true nz (lookup_insert_eq _ _ _))
    as (o & F1 & C1 & nz1 & E & Ho). cbv zeta in E. rewrite E.
  destruct Ho as [(-> & -> & out & Hout & ->)|[(-> & -> & ->)|
                  (-> & -> & Hf & junk & ->)]]; mred.
  - destruct (step_replace_run (<[p := zip_bytes out]> F) (<[d := t]> D)
                ((C ++ [MsgRepacking]) ++ [MsgReplacing]) p epub_path
                (zip_bytes out) (Some d) true true nz1
                (lookup_insert_eq _ _ _) (temp_output_name_ne env epub_path))
      as (o & F2 & C2 & tmpo & E2 & Ho). cbv zeta in E2. rewrite E2.
    assert (forall left,
              container_left epub_path left (<[p := zip_bytes out]> F)
              = <[p := zip_bytes out]> (container_left epub_path left F))
      as Hleft.
    { intros [c|]; [|done]. cbn [container_left].
      apply insert_insert_ne. intros E'. symmetry in E'.
      by apply (temp_output_name_ne env epub_path). }
    destruct Ho as [(-> & -> & -> & Hl & ->)|[(left & Hl & -> & -> & -> & ->)|
                    (left & Hl & -> & -> & -> & Hf & ->)]];
      rewrite <- ?app_assoc, ?Hleft, ?delete_insert_eq;
      eexists _, _, _, _, _; (split; [reflexivity|]).
    + by apply aw_committed.
    + by eapply aw_replace_return.
    + by eapply aw_replace_raise.
  - rewrite <- ?app_assoc. eexists _, _, _, _, _. split; [reflexivity|].
    by apply aw_pack_return.
  - rewrite <- ?app_assoc. eexists _, _, _, _, _. split; [reflexivity|].
    by apply aw_pack_raise.
Qed.

(** The master theorem: whatever the environment does, a call takes one of
    the exits of [transaction]. *)
Theorem process_with_transaction epub_path w :
  transaction env transform epub_path w
    (process_with transform env epub_path w).1
    (process_with transform env epub_path w).2.
Proof.
  destruct w as [F D C]. set (w := {| files := F; tmpdirs := D; console := C |}).
  unfold process_with, call.
  destruct (env_mkdtemp env) as [d|] eqn:Emk.
  2:{ erewrite stmt_raise; cycle 1.
      - unfold process_try, mkdtemp. rewrite Emk. unfold w. mred. reflexivity.
      - apply except_run.
      - apply finally_run_none.
      - cbn [fst snd]. rewrite <- !app_assoc. apply exit_no_scratch. by left. }
  destruct (D !! d) as [t0|] eqn:Ed.
  { erewrite stmt_raise; cycle 1.
    - unfold process_try, mkdtemp. rewrite Emk. unfold w. mred. rewrite Ed.
      mred. reflexivity.
    - apply except_run.
    - apply finally_run_none.
    - cbn [fst snd]. rewrite <- !app_assoc. apply exit_no_scratch.
      right. exists d. eauto. }
  assert (scratch_created env w d) as Hsc by done.
  set (l1 := {| temp_output_epub_path := None; temp_dir := Some d;
                css_files_found := false; modified := false;
                new_zip := [] |}).
  assert (process_try env transform epub_path (w, initial_locals)
          = (step_extract env epub_path d ;;
             step_walk env transform d ;;
             after_walk env epub_path d)
              ({| files := F; tmpdirs := <[d := []]> D;
                  console := C ++ [MsgStart] |}, l1)) as Htry.
  { unfold process_try, mkdtemp. rewrite Emk. unfold w. mred. rewrite Ed.
    mred. reflexivity. }
  pose proof (step_extract_run epub_path F D (C ++ [MsgStart]) d l1 Ed) as Hex.
  cbv zeta in Hex.
  destruct (F !! epub_path) as [b|] eqn:Eb.
  2:{ rewrite (bind_return _ _ _ _ _ Hex) in Htry.
      erewrite stmt_return; [|exact Htry|by apply finally_run].
      cbn [fst snd]. rewrite <- !app_assoc.
      apply (exit_extract_error env transform epub_path w d []); [done|]. by left. }
  destruct (zip_read b) as [a|] eqn:Ea.
  2:{ rewrite (bind_return _ _ _ _ _ Hex) in Htry.
      erewrite stmt_return; [|exact Htry|by apply finally_run].
      cbn [fst snd]. rewrite <- !app_assoc.
      by apply (exit_not_an_archive env transform epub_path w d b). }
  destruct (extract_members (env_extract_fault env) a []) as [t [|]] eqn:Et.
  2:{ rewrite (bind_return _ _ _ _ _ Hex) in Htry.
      erewrite stmt_return; [|exact Htry|by apply finally_run].
      cbn [fst snd]. rewrite <- !app_assoc.
      destruct (extract_error _ _ _ _) eqn:Ee.
      - by apply (exit_corrupt_member env transform epub_path w d b a t).
      - apply (exit_extract_error env transform epub_path w d
                 (env_extract_debris env t)); [done|].
        right. by exists b, a, t. }
  assert (extracted env epub_path w a t) as Hext by (by exists b).
  rewrite (bind_normal _ _ _ _ _ Hex) in Htry.
  rewrite (bind_normal _ _ _ _ _
             (step_walk_run env transform _ l1 d t (lookup_insert_eq _ _ _)))
    in Htry.
  set (s := walk_result env transform t) in *.
  unfold in_walk, l1 in Htry. cbn [files tmpdirs console temp_output_epub_path
    temp_dir new_zip] in Htry. rewrite insert_insert_eq in Htry.
  destruct (after_walk_run epub_path F D ((C ++ [MsgStart]) ++ ws_msgs s) d
              (ws_tree s) (ws_found s) (ws_modified s) [])
    as (o & F' & C' & tmpo & nz' & E & Hexit).
  cbv zeta in E. rewrite E in Htry. clear E Hex.
  destruct Hexit as [Hnc|Hf Hm|junk Hf Hm Hr|out left Hf Hm Hout Hl
                    |out left Hf Hm Hout Hl Hr|out Hf Hm Hout Hl].
  - erewrite stmt_return; [|exact Htry|by apply finally_run].
    cbn [fst snd]. rewrite <- !app_assoc. by apply (exit_no_change env transform epub_path w d a t s).
  - erewrite stmt_return; [|exact Htry|by apply finally_run].
    cbn [fst snd]. rewrite <- !app_assoc.
    apply (exit_pack_error env transform epub_path w d a t s _ []); try done; [|by left].
    left. destruct (env_remove_fault env InFinally); [done|].
    by rewrite delete_delete_eq.
  - erewrite stmt_raise;
      [|exact Htry|by apply except_run|by apply finally_run].
    cbn [fst snd]. rewrite <- !app_assoc.
    apply (exit_pack_error env transform epub_path w d a t s _ [MsgUnexpected]); try done;
      [|by right].
    unfold files_after_failure, removals_fail.
    destruct (env_remove_fault env InOuterHandler),
      (env_remove_fault env InFinally);
      rewrite ?delete_delete_eq, ?delete_insert_eq;
      first [ by left | right; split; [done|]; eexists; reflexivity ].
  - erewrite stmt_return; [|exact Htry|by apply finally_run].
    cbn [fst snd]. rewrite <- !app_assoc.
    apply (exit_replace_error env transform epub_path w d a t s out left _ []);
      try done; [|by left].
    left. destruct (env_remove_fault env InFinally); [done|].
    by rewrite delete_delete_eq.
  - erewrite stmt_raise;
      [|exact Htry|by apply except_run|by apply finally_run].
    cbn [fst snd]. rewrite <- !app_assoc.
    apply (exit_replace_error env transform epub_path w d a t s out left _
             [MsgUnexpected]); try done; [|by right].
    unfold files_after_move_failure, removals_fail.
    destruct (env_remove_fault env InOuterHandler),
      (env_remove_fault env InFinally);
      rewrite ?delete_delete_eq, ?delete_insert_eq;
      first [ by left | right; split; [done|]; eexists; reflexivity ].
  - erewrite stmt_return; [|exact Htry|by apply finally_run].
    cbn [fst snd]. rewrite <- !app_assoc. by apply (exit_committed env transform epub_path w d a t s out).
Qed.

End Master.

(** * The walk *)

Section Walk.

Context `{Platform}.
Variable env : Env.
Variable transform : text -> text.

Lemma walk_one_cases s item :
  let s' := walk_one env transform s item in
  (ws_tree s' = ws_tree s /\ ws_modified s' = ws_modified s /\
   (ws_msgs s' = ws_msgs s \/ exists m, walk_msg m /\ ws_msgs s' = ws_msgs s ++ [m]))
  \/
  (exists b content,
     is_css_name item.2 = true /\
     env_read_fault env (item.1 ++ [item.2]) = false /\
     read_file (item.1 ++ [item.2]) (ws_tree s) = Some b /\
     transform (decode_text b) <> decode_text b /\
     set_file (item.1 ++ [item.2]) content (ws_tree s) = Some (ws_tree s') /\
     (exists m, walk_msg m /\ ws_msgs s' = ws_msgs s ++ [m]) /\
     ((env_write_fault env (item.1 ++ [item.2]) = WriteOk /\
       content = encode_text (transform (decode_text b)) /\
       ws_modified s' = true)
      \/ (env_write_fault env (item.1 ++ [item.2]) = WriteFailTruncated /\
          content = [] /\ ws_modified s' = ws_modified s))).
Proof.
  destruct item as [root file]. unfold walk_one. cbn [fst snd].
  destruct (is_css_name file) eqn:Ecss; [|left; auto].
  destruct (env_read_fault env (root ++ [file])) eqn:Erf.
  { left. repeat split. right. by exists (MsgReadWarning file). }
  destruct (read_file (root ++ [file]) (ws_tree s)) as [b|] eqn:Er.
  2:{ left. repeat split. right. by exists (MsgReadWarning file). }
  case_bool_decide as Hclean; [left; auto|].
  destruct (env_write_fault env (root ++ [file])) eqn:Ewf.
  - destruct (set_file _ _ (ws_tree s)) as [t'|] eqn:Es.
    + right. exists b, (encode_text (transform (decode_text b))).
      repeat split; try done.
      * by exists (MsgCleaned (root ++ [file])).
      * left. done.
    + left. repeat split. right. by exists (MsgWriteWarning file).
  - left. repeat split. right. by exists (MsgWriteWarning file).
  - destruct (set_file _ [] (ws_tree s)) as [t'|] eqn:Es.
    + right. exists b, []. repeat split; try done.
      * by exists (MsgWriteWarning file).
      * right. done.
    + left. repeat split. right. by exists (MsgWriteWarning file).
Qed.

Lemma walk_from_cons item items s :
  walk_from env transform (item :: items) s
  = walk_from env transform items (walk_one env transform s item).
Proof. reflexivity. Qed.

(** The walk prints nothing but its own messages. *)
Lemma walk_from_msgs items : forall s,
  exists msgs, ws_msgs (walk_from env transform items s) = ws_msgs s ++ msgs /\
               Forall walk_msg msgs.
Proof.
  induction items as [|item items IH]; intros s.
  - exists []. by rewrite app_nil_r.
  - rewrite walk_from_cons.
    destruct (IH (walk_one env transform s item)) as (msgs & -> & Hm).
    destruct (walk_one_cases s item)
      as [(_ & _ & [->|(m & Hw & ->)])|(b & c & _ & _ & _ & _ & _ & (m & Hw & ->) & _)].
    + by exists msgs.
    + exists (m :: msgs). rewrite <- app_assoc. split; [done|].
      by constructor.
    + exists (m :: msgs). rewrite <- app_assoc. split; [done|].
      by constructor.
Qed.

(** The walk neither creates nor removes a regular file. *)
Lemma walk_one_files s item q :
  is_Some (read_file q (ws_tree (walk_one env transform s item)))
  <-> is_Some (read_file q (ws_tree s)).
Proof.
  destruct (walk_one_cases s item)
    as [(-> & _)|(b & c & _ & _ & Hr & _ & Hs & _)]; [done|].
  rewrite (read_file_set_file _ _ _ _ q Hs).
  case_decide as Hq; [|done]. subst q. rewrite Hr. split; eauto.
Qed.

Lemma walk_from_files items q : forall s,
  is_Some (read_file q (ws_tree (walk_from env transform items s)))
  <-> is_Some (read_file q (ws_tree s)).
Proof.
  induction items as [|item items IH]; intros s; [done|].
  rewrite walk_from_cons. rewrite IH. apply walk_one_files.
Qed.

Lemma walk_result_files t q :
  is_Some (read_file q (ws_tree (walk_result env transform t)))
  <-> is_Some (read_file q t).
Proof. apply walk_from_files. Qed.



(** Whether a style sheet was found. *)
Lemma walk_one_found s item :
  ws_found (walk_one env transform s item)
  = ws_found s || is_css_name item.2.
Proof.
  destruct item as [root file]. unfold walk_one. cbn [snd].
  destruct (is_css_name file); [|by rewrite orb_false_r].
  rewrite orb_true_r.
  repeat (first [case_match | case_bool_decide]); reflexivity.
Qed.

Lemma walk_from_found items : forall s,
  ws_found (walk_from env transform items s)
  = ws_found s || existsb (fun item => is_css_name item.2) items.
Proof.
  induction items as [|item items IH]; intros s.
  - by rewrite orb_false_r.
  - rewrite walk_from_cons. cbn [existsb]. rewrite IH, walk_one_found.
    by rewrite orb_assoc.
Qed.

Lemma walk_result_no_css t :
  no_css t -> ws_found (walk_result env transform t) = false.
Proof.
  intros Hn. unfold walk_result. rewrite walk_from_found.
  cbn [ws_found orb]. unfold no_css in Hn.
  induction Hn as [|item items Hi _ IH]; [done|].
  cbn [existsb]. by rewrite Hi.
Qed.

Lemma elem_of_flat_map {A B} (f : A -> list B) (l : list A) (y : B) :
  y ∈ flat_map f l <-> exists x, x ∈ l /\ y ∈ f x.
Proof.
  rewrite list_elem_of_In, in_flat_map. split.
  - intros (x & Hx & Hy). exists x. by rewrite !list_elem_of_In.
  - intros (x & Hx & Hy). exists x. by rewrite <- !list_elem_of_In.
Qed.








End Walk.

(** * Well-formed trees *)

Lemma node_ind' (P : node -> Prop) :
  (forall b, P (File b)) ->
  (forall ch, Forall (fun e => P e.2) ch -> P (Dir ch)) ->
  forall n, P n.
Proof.
  intros HF HD. fix IH 1. intros [b|ch]; [apply HF|].
  apply HD. induction ch as [|[k c] ch IHch]; constructor; [apply IH | exact IHch].
Qed.

Lemma assoc_Some_elem {A} k (v : A) l : assoc k l = Some v -> (k, v) ∈ l.
Proof.
  induction l as [|[k' x] l IH]; simpl; [done|].
  destruct (String.eqb k' k) eqn:E.
  - intros [= ->]. apply String.eqb_eq in E as ->. left.
  - intros Hl. right. auto.
Qed.

Lemma assoc_None_notin {A} k (l : list (string * A)) :
  assoc k l = None -> k ∉ map fst l.
Proof.
  induction l as [|[k' x] l IH]; simpl; [intros _; apply not_elem_of_nil|].
  destruct (String.eqb k' k) eqn:E; [done|].
  intros Hl. apply not_elem_of_cons. split; [|auto].
  intros ->. by rewrite String.eqb_refl in E.
Qed.

Lemma assoc_elem {A} k (v : A) l :
  NoDup (map fst l) -> (k, v) ∈ l -> assoc k l = Some v.
Proof.
  induction l as [|[k' x] l IH]; simpl; intros Hnd Hin.
  - by apply elem_of_nil in Hin.
  - apply NoDup_cons in Hnd as [Hk Hnd].
    apply elem_of_cons in Hin as [[= <- <-]|Hin].
    + by rewrite String.eqb_refl.
    + destruct (String.eqb k' k) eqn:E; [|auto].
      apply String.eqb_eq in E as ->. exfalso. apply Hk.
      apply list_elem_of_fmap. by exists (k, v).
Qed.

Lemma map_fst_assoc_set {A} k (v : A) l :
  map fst (assoc_set k v l) = map fst l.
Proof.
  induction l as [|[k' x] l IH]; simpl; [done|].
  destruct (String.eqb k' k); simpl; [done | by rewrite IH].
Qed.

Lemma Forall_assoc_set {A} (P : string * A -> Prop) k v l :
  Forall P l -> (forall k', P (k', v)) -> Forall P (assoc_set k v l).
Proof.
  intros Hl Hv. induction Hl as [|[k' x] l Hx Hl IH]; simpl; [constructor|].
  destruct (String.eqb k' k); constructor; auto.
Qed.

Lemma wf_child k c ch : wf_node (Dir ch) -> assoc k ch = Some c -> wf_node c.
Proof.
  intros Hwf Hc. inversion Hwf as [|? _ Hall]; subst.
  rewrite Forall_forall in Hall.
  apply (Hall (k, c)). by apply assoc_Some_elem.
Qed.

Lemma wf_assoc_set k c ch :
  wf_node (Dir ch) -> wf_node c -> wf_node (Dir (assoc_set k c ch)).
Proof.
  intros Hwf Hc. inversion Hwf as [|? Hnd Hall]; subst. constructor.
  - by rewrite map_fst_assoc_set.
  - by apply Forall_assoc_set.
Qed.

Lemma wf_app_new k c ch :
  wf_node (Dir ch) -> assoc k ch = None -> wf_node c ->
  wf_node (Dir (ch ++ [(k, c)])).
Proof.
  intros Hwf Hk Hc. inversion Hwf as [|? Hnd Hall]; subst. constructor.
  - rewrite map_app. apply NoDup_app. split; [done|]. split.
    + intros x Hx Hx'. apply list_elem_of_singleton in Hx' as ->.
      by apply (assoc_None_notin _ _ Hk).
    + apply NoDup_singleton.
  - apply Forall_app. split; [done|]. by constructor.
Qed.

Lemma wf_empty : wf_node (Dir []).
Proof. constructor; [apply NoDup_nil_2 | constructor]. Qed.

Lemma wf_set_file p : forall b t t',
  wf_node (Dir t) -> set_file p b t = Some t' -> wf_node (Dir t').
Proof.
  induction p as [|f p IH]; intros b t t' Hwf Hs; [done|].
  simpl in Hs. destruct p as [|f' p].
  - destruct (assoc f t) as [[b0|ch]|] eqn:Ef; inversion Hs; subst.
    + apply wf_assoc_set; [done | constructor].
    + apply wf_app_new; [done | done | constructor].
  - destruct (assoc f t) as [[b0|ch]|] eqn:Ef; try discriminate.
    destruct (set_file (f' :: p) b ch) as [ch'|] eqn:Es; [|discriminate].
    inversion Hs; subst. apply wf_assoc_set; [done|].
    eapply IH; [|exact Es]. by eapply wf_child.
Qed.

Lemma wf_makedirs p : forall t t',
  wf_node (Dir t) -> makedirs p t = Some t' -> wf_node (Dir t').
Proof.
  induction p as [|d p IH]; intros t t' Hwf Hm; simpl in Hm.
  - by inversion Hm; subst.
  - destruct (assoc d t) as [[b0|ch]|] eqn:Ed; [discriminate| |].
    + destruct (makedirs p ch) as [ch'|] eqn:Em; [|discriminate].
      inversion Hm; subst. apply wf_assoc_set; [done|].
      eapply IH; [|exact Em]. by eapply wf_child.
    + destruct (makedirs p []) as [ch'|] eqn:Em; [|discriminate].
      inversion Hm; subst. apply wf_app_new; [done | done |].
      eapply IH; [|exact Em]. apply wf_empty.
Qed.

Lemma wf_extract_member m t t' :
  wf_node (Dir t) -> extract_member m t = Some t' -> wf_node (Dir t').
Proof.
  unfold extract_member. intros Hwf.
  destruct (member_is_dir (filename m)).
  - by apply wf_makedirs.
  - destruct (makedirs _ t) as [t1|] eqn:E1; [|done].
    apply wf_set_file. by eapply wf_makedirs.
Qed.

Lemma wf_extract_members a : forall fault t t' ok,
  wf_node (Dir t) -> extract_members fault a t = (t', ok) -> wf_node (Dir t').
Proof.
  induction a as [|m a IH]; intros fault t t' ok Hwf He.
  - by inversion He; subst.
  - apply extract_members_step in He as [[_ ->]|(t1 & E1 & E2)]; [done|].
    eapply IH; [|exact E2]. by eapply wf_extract_member.
Qed.

(** In a well-formed tree every file name the walk yields is a regular
    file at the path the program builds for it. *)
Lemma walk_children_inv root (ch : list (string * node)) x :
  x ∈ (fix walk_children (l : list (string * node)) :=
         match l with
         | [] => []
         | (name, c) :: l' => walk_node (root ++ [name]) c ++ walk_children l'
         end) ch ->
  exists name c, (name, c) ∈ ch /\ x ∈ walk_node (root ++ [name]) c.
Proof.
  induction ch as [|[k c] ch IH]; simpl; intros Hx.
  - by apply elem_of_nil in Hx.
  - apply elem_of_app in Hx as [Hx|Hx].
    + exists k, c. split; [left | done].
    + destruct (IH Hx) as (name & c' & Hin & Hx').
      exists name, c'. split; [by right | done].
Qed.

Lemma filenames_elem f (ch : list (string * node)) :
  f ∈ filenames ch -> exists b, (f, File b) ∈ ch.
Proof.
  unfold filenames. intros Hf.
  apply list_elem_of_fmap in Hf as ([k n] & -> & Hin).
  apply list_elem_of_filter in Hin as [Hd Hin]. cbn in *.
  destruct n as [b|]; [|done]. by exists b.
Qed.

Lemma walk_node_sound n :
  wf_node n -> forall root r dirs fs f,
  (r, dirs, fs) ∈ walk_node root n -> f ∈ fs ->
  exists q b, r ++ [f] = root ++ q /\ read_node q n = Some b.
Proof.
  induction n as [b|ch IH] using node_ind'; intros Hwf root r dirs fs f Hin Hf.
  - by apply elem_of_nil in Hin.
  - inversion Hwf as [|? Hnd Hall]; subst. simpl in Hin.
    apply elem_of_cons in Hin as [[= -> -> ->]|Hin].
    + destruct (filenames_elem _ _ Hf) as [b Hb].
      exists [f], b. split; [done|].
      rewrite read_node_cons, (assoc_elem _ _ _ Hnd Hb). done.
    + apply walk_children_inv in Hin as (name & c & Hc & Hin).
      rewrite Forall_forall in IH, Hall.
      destruct (IH _ Hc (Hall _ Hc) _ _ _ _ _ Hin Hf) as (q & b & E & Hr).
      exists (name :: q), b. split.
      * by rewrite E, <- app_assoc.
      * by rewrite read_node_cons, (assoc_elem _ _ _ Hnd Hc).
Qed.

Lemma walk_sound t q :
  wf_node (Dir t) -> walked t q -> is_Some (read_file q t).
Proof.
  intros Hwf (root & dirs & fs & f & Hin & Hf & ->).
  destruct (walk_node_sound _ Hwf [] _ _ _ _ Hin Hf) as (q & b & E & Hr).
  simpl in E. rewrite E. by exists b.
Qed.

Section WalkWf.

Context `{Platform}.
Variable env : Env.
Variable transform : text -> text.

Lemma wf_walk_from items : forall s,
  wf_node (Dir (ws_tree s)) ->
  wf_node (Dir (ws_tree (walk_from env transform items s))).
Proof.
  induction items as [|item items IH]; intros s Hwf; [done|].
  rewrite walk_from_cons. apply IH.
  destruct (walk_one_cases env transform s item)
    as [(-> & _)|(b & c & _ & _ & _ & _ & Hs & _)]; [done|].
  by eapply wf_set_file.
Qed.

Lemma wf_walk_result t :
  wf_node (Dir t) -> wf_node (Dir (ws_tree (walk_result env transform t))).
Proof. intros Hwf. by apply (wf_walk_from (walk_files t)). Qed.

End WalkWf.

(** * The repacked archive *)

Lemma Forall2_elem_r {A B} (R : A -> B -> Prop) l k y :
  Forall2 R l k -> y ∈ k -> exists x, x ∈ l /\ R x y.
Proof.
  induction 1 as [|x y' l k Hxy _ IH]; intros Hy.
  - by apply elem_of_nil in Hy.
  - apply elem_of_cons in Hy as [->|Hy].
    + exists x. split; [left | done].
    + destruct (IH Hy) as (x' & Hx' & HR). exists x'. split; [by right | done].
Qed.


Lemma remove_first_elem x f l : f ∈ remove_first x l -> f ∈ l.
Proof.
  induction l as [|y l IH]; simpl; [done|].
  destruct (String.eqb y x).
  - intros Hf. by right.
  - intros Hf. apply elem_of_cons in Hf as [->|Hf]; [left | right; auto].
Qed.


Lemma walk_requests_elem t r :
  r ∈ walk_requests t ->
  exists q, r = (q, join_slash q, None) /\ walked t q.
Proof.
  unfold walk_requests. intros Hr.
  apply elem_of_flat_map in Hr as ([[root dirs] fs] & Hin & Hr).
  apply list_elem_of_fmap in Hr as (f & -> & Hf).
  exists (root ++ [f]). split; [done|].
  exists root, dirs, fs, f. split; [done|]. split; [|done].
  destruct (bool_decide (root = []) && bool_decide ("mimetype" ∈ fs));
    [by eapply remove_first_elem | done].
Qed.


Lemma pack_requests_split t :
  pack_requests t
  = match find_node ["mimetype"] (Dir t) with
    | Some _ => [(["mimetype"], "mimetype", Some ZIP_STORED)]
    | None => []
    end ++ walk_requests t.
Proof. reflexivity. Qed.

Lemma find_node_read q t b :
  read_file q t = Some b -> find_node q (Dir t) = Some (File b).
Proof.
  unfold read_file, read_node.
  destruct (find_node q (Dir t)) as [[b'|ch]|]; congruence.
Qed.

Lemma member_of_file t q arc ct b :
  read_file q t = Some b ->
  member_of t (q, arc, ct)
  = Some {| filename := arc; file_data := b;
            compression := default ZIP_DEFLATED ct |}.
Proof. intros Hr. unfold member_of. by rewrite (find_node_read _ _ _ Hr). Qed.

(** The reserved member comes first and is stored; every other member is
    deflated. *)
Lemma pack_mimetype_first t b out :
  wf_node (Dir t) -> read_file ["mimetype"] t = Some b ->
  pack_members t = Some out ->
  exists rest,
    out = {| filename := "mimetype"; file_data := b;
             compression := ZIP_STORED |} :: rest /\
    Forall (fun m => compression m = ZIP_DEFLATED) rest.
Proof.
  intros Hwf Hr Hp. unfold pack_members in Hp.
  rewrite pack_requests_split, (find_node_read _ _ _ Hr) in Hp.
  apply mapM_Some in Hp. cbn [app] in Hp.
  inversion Hp as [|r m reqs rest Hm Hrest]; subst.
  rewrite (member_of_file _ _ _ _ _ Hr) in Hm. injection Hm as <-.
  exists rest. split; [done|].
  apply Forall_forall. intros m Hin.
  destruct (Forall2_elem_r _ _ _ _ Hrest Hin) as (r & Hr' & Hm).
  apply walk_requests_elem in Hr' as (q & -> & Hq).
  destruct (walk_sound _ _ Hwf Hq) as [b' Hb'].
  rewrite (member_of_file _ _ _ _ _ Hb') in Hm. by injection Hm as <-.
Qed.



(** * Names of members and directories of the scratch tree *)

Lemma last_char_app a b : b <> EmptyString -> last_char (a +:+ b) = last_char b.
Proof.
  intros Hb. induction a as [|c a IH]; [done|].
  change (last_char (String c (a +:+ b)) = last_char b).
  cbn [last_char]. rewrite IH.
  destruct b as [|c' b]; [done|]. cbn [last_char].
  by destruct (last_char b).
Qed.

Lemma str_endswith_last s suffix :
  str_endswith s suffix = true -> suffix <> EmptyString ->
  last_char s = last_char suffix.
Proof.
  intros He Hs. induction s as [|c s IH].
  - destruct suffix; [done | discriminate He].
  - cbn [str_endswith] in He. apply orb_true_iff in He as [He|He].
    + apply String.eqb_eq in He. by rewrite He.
    + specialize (IH He). cbn [last_char]. rewrite IH.
      destruct suffix as [|c' suffix]; [done|]. cbn [last_char].
      by destruct (last_char suffix).
Qed.












Section WalkDirs.

Context `{Platform}.
Variable env : Env.
Variable transform : text -> text.



End WalkDirs.

(** * Properties of the transaction *)

Section Claims.

Context `{Platform}.
Variable transform : text -> text.
Variable env : Env.
Variable epub_path : string.

Lemma run_exit w r w' :
  process_with transform env epub_path w = (r, w') ->
  transaction env transform epub_path w r w'.
Proof.
  intros E. pose proof (process_with_transaction env transform epub_path w) as Ht.
  by rewrite E in Ht.
Qed.

Lemma printed_app w C F D msgs :
  C = console w ->
  printed w {| files := F; tmpdirs := D; console := C ++ msgs |} = msgs.
Proof. intros ->. unfold printed. cbn. apply drop_app_length. Qed.

Lemma walk_msgs_only t m :
  m ∈ ws_msgs (walk_result env transform t) -> walk_msg m.
Proof.
  unfold walk_result.
  destruct (walk_from_msgs env transform (walk_files t)
              {| ws_tree := t; ws_found := false; ws_modified := false;
                 ws_msgs := [] |}) as (msgs & -> & Hall).
  cbn. rewrite Forall_forall in Hall. apply Hall.
Qed.

Lemma rmtree_msgs_elem m : m ∈ rmtree_msgs env -> m = MsgRmtreeWarning.
Proof.
  unfold rmtree_msgs. destruct (env_rmtree_fault env).
  - by intros ->%list_elem_of_singleton.
  - by intros ?%elem_of_nil.
Qed.

Lemma handler_tail_elem tail m :
  handler_tail tail -> m ∈ tail -> m = MsgUnexpected.
Proof.
  intros [->| ->]; [by intros ?%elem_of_nil|].
  by intros ->%list_elem_of_singleton.
Qed.

Lemma files_after_failure_other w site fs q :
  files_after_failure env epub_path w site fs ->
  q <> temp_output_name env epub_path -> fs !! q = files w !! q.
Proof.
  intros [->|(_ & junk & ->)] Hq.
  - by rewrite lookup_delete_ne.
  - by rewrite lookup_insert_ne.
Qed.

Lemma files_after_failure_gone w site fs :
  files_after_failure env epub_path w site fs ->
  ~ removals_fail env site ->
  fs !! temp_output_name env epub_path = None.
Proof.
  intros [->|(Hf & _)] Hn; [|done]. apply lookup_delete_eq.
Qed.

Lemma files_after_move_failure_other w left fs q :
  files_after_move_failure env epub_path w left fs ->
  q <> temp_output_name env epub_path -> q <> epub_path ->
  fs !! q = files w !! q.
Proof.
  intros [->|(_ & junk & ->)] Hq Hq';
    rewrite ?lookup_delete_ne, ?lookup_insert_ne by done;
    destruct left; cbn [container_left]; by rewrite ?lookup_insert_ne.
Qed.

Lemma files_after_move_failure_container w left fs :
  files_after_move_failure env epub_path w left fs ->
  fs !! epub_path
  = match left with Some c => Some c | None => files w !! epub_path end.
Proof.
  pose proof (temp_output_name_ne env epub_path) as Hne.
  intros [->|(_ & junk & ->)];
    rewrite ?lookup_delete_ne, ?lookup_insert_ne by done;
    destruct left; cbn [container_left]; by rewrite ?lookup_insert_eq.
Qed.

Lemma files_after_move_failure_gone w left fs :
  files_after_move_failure env epub_path w left fs ->
  ~ removals_fail env InMoveHandler ->
  fs !! temp_output_name env epub_path = None.
Proof.
  intros [->|(Hf & _)] Hn; [|done]. apply lookup_delete_eq.
Qed.

Lemma move_leaves_untouched zb left :
  move_leaves env zb = Some left -> env_copy_fault env = CopyFailOpen ->
  left = None.
Proof.
  unfold move_leaves. intros Hl Hc. rewrite Hc in Hl.
  destruct (env_move_fault env); congruence.
Qed.

Lemma move_leaves_fault zb left :
  move_leaves env zb = Some left -> env_move_fault env = true.
Proof. unfold move_leaves. by destruct (env_move_fault env). Qed.

Lemma after_rmtree_ok d t dirs :
  env_rmtree_fault env = false -> after_rmtree env d t dirs = dirs.
Proof. intros E. unfold after_rmtree. by rewrite E. Qed.

End Claims.

(** Case analysis of a message of the run. *)
Ltac msg_cases H :=
  repeat first
    [ apply elem_of_app in H as [H|H]
    | apply elem_of_cons in H as [H|H]
    | apply elem_of_nil in H; destruct H ].

Ltac msg_absurd H :=
  msg_cases H;
  first
    [ discriminate H
    | by (apply walk_msgs_only in H)
    | by (apply rmtree_msgs_elem in H)
    | by (eapply handler_tail_elem in H; [|eassumption])
    | by (match type of H with
          | _ = (if ?b then _ else _) => destruct b
          end) ].


(** C2, with the removals that may fail.  On every exit the clean-up is
    attempted; when [shutil.rmtree] and the last [os.remove] do not
    themselves raise, the scratch directory is gone and no temporary
    archive is left. *)
Theorem cleanup_when_removal_succeeds `{Platform} transform env epub_path
    w r w' :
  env_rmtree_fault env = false ->
  env_remove_fault env InFinally = false ->
  process_with transform env epub_path w = (r, w') ->
  cleaned_up w w'.
Proof.
  intros Hrm Hfin Hrun%run_exit. unfold cleaned_up.
  inversion Hrun; subst; cbn [files tmpdirs];
    rewrite ?after_rmtree_ok by done; (split; [done|]); try done.
  - match goal with Hf : files_after_failure _ _ _ _ _ |- _ =>
      destruct Hf as [->|((_ & _ & Hx) & _)]; [|congruence] end.
    intros q [c Hq]. apply lookup_delete_Some in Hq as [_ Hq]. eauto.
  - match goal with Hf : files_after_move_failure _ _ _ _ _ |- _ =>
      destruct Hf as [->|((_ & _ & Hx) & _)]; [|congruence] end.
    intros q [c Hq]. apply lookup_delete_Some in Hq as [_ Hq].
    match goal with He : extracted _ _ _ _ _ |- _ =>
      destruct He as (b0 & Hb0 & _) end.
    destruct left as [c'|]; cbn [container_left] in Hq; [|eauto].
    destruct (decide (q = epub_path)) as [->|Hne]; [eauto|].
    rewrite lookup_insert_ne in Hq by done. eauto.
  - intros q [c Hq].
    match goal with He : extracted _ _ _ _ _ |- _ =>
      destruct He as (b0 & Hb0 & _) end.
    destruct (decide (q = epub_path)) as [->|Hne]; [eauto|].
    rewrite lookup_insert_ne in Hq by done.
    apply lookup_delete_Some in Hq as [_ Hq]. eauto.
Qed.

(** C4, with the members extracted before a corrupt one and the removal
    that may fail.  A container for which [zipfile] raises [BadZipFile]
    makes the call return failure with every file as it was, and the call
    reports that the container is no valid archive once the scratch
    directory exists.  The scratch directory is removed unless
    [shutil.rmtree] raises; then the warning is printed and the directory
    stays, empty when the container cannot be read as an archive, and with
    the members that come before the corrupt one, and what the corrupt one
    has left, when it can. *)
Theorem not_an_archive_fails `{Platform} transform env epub_path w b r w' :
  files w !! epub_path = Some b -> bad_zip_file env b ->
  process_with transform env epub_path w = (r, w') ->
  r = Returned false /\
  files w' = files w /\
  (forall d, scratch_created env w d -> MsgBadZip ∈ printed w w') /\
  (env_rmtree_fault env = false -> tmpdirs w' = tmpdirs w) /\
  (env_rmtree_fault env = true ->
   forall d, scratch_created env w d ->
     MsgRmtreeWarning ∈ printed w w' /\
     tmpdirs w' !! d
     = Some match zip_read b with
            | None => []
            | Some a =>
                env_extract_debris env
                  (extract_members (env_extract_fault env) a []).1
            end) /\
  (forall d, d <> default ""%string (env_mkdtemp env) ->
     tmpdirs w' !! d = tmpdirs w !! d).
Proof.
  intros Hb Hbad Hrun%run_exit.
  assert (forall d d', scratch_created env w d -> scratch_created env w d' ->
                       d' = d) as Hsame.
  { intros d d' [E1 _] [E2 _]. congruence. }
  assert (forall d d' t, scratch_created env w d ->
            d' <> default ""%string (env_mkdtemp env) ->
            after_rmtree env d t (tmpdirs w) !! d' = tmpdirs w !! d')
    as Hother.
  { intros d d' t [E _] Hd. rewrite E in Hd. cbn in Hd. unfold after_rmtree.
    destruct (env_rmtree_fault env); [|done]. by rewrite lookup_insert_ne. }
  assert (forall d t, env_rmtree_fault env = true ->
            MsgRmtreeWarning ∈ rmtree_msgs env /\
            after_rmtree env d t (tmpdirs w) !! d = Some t) as Hwarn.
  { intros d t E. unfold rmtree_msgs, after_rmtree. rewrite E.
    split; [by apply list_elem_of_singleton|apply lookup_insert_eq]. }
  inversion Hrun; subst; cbn [files tmpdirs];
    try (match goal with He : extracted _ _ _ _ _ |- _ =>
           destruct He as (b0 & Hb0 & Hz0 & He0);
           destruct Hbad as [Hz|(a1 & t1 & Hz & He1 & _)]; congruence end).
  - (* no scratch directory *)
    split; [done|]. split; [done|].
    split.
    { intros d [E Hd]. match goal with Hx : _ \/ _ |- _ =>
        destruct Hx as [Hn|(d' & E' & [? Hd'])]; congruence end. }
    split; [done|]. split; [|done].
    intros _ d [E Hd]. match goal with Hx : _ \/ _ |- _ =>
      destruct Hx as [Hn|(d' & E' & [? Hd'])]; congruence end.
  - (* the container cannot be read *)
    rewrite printed_app by done.
    split; [done|]. split; [done|].
    split. { intros _ _. rewrite ?elem_of_app, ?elem_of_cons. tauto. }
    split; [by apply after_rmtree_ok|]. split; [|by eauto].
    intros Hrm d' Hd'. rewrite (Hsame d d') by done.
    assert (zip_read b = None) as -> by congruence.
    destruct (Hwarn d [] Hrm) as [Hw ->]. split; [|done].
    rewrite !elem_of_app, !elem_of_cons. tauto.
  - (* a member is corrupt *)
    rewrite printed_app by done.
    split; [done|]. split; [done|].
    split. { intros _ _. rewrite ?elem_of_app, ?elem_of_cons. tauto. }
    split; [by apply after_rmtree_ok|]. split; [|by eauto].
    intros Hrm d' Hd'. rewrite (Hsame d d') by done.
    match goal with
      Hb' : files w !! epub_path = Some ?b', Hz' : zip_read ?b' = Some _,
      He' : extract_members _ _ _ = _ |- _ =>
        assert (b' = b) as -> by congruence; rewrite Hz', He' end.
    destruct (Hwarn d (env_extract_debris env t) Hrm) as [Hw ->].
    split; [|done].
    rewrite !elem_of_app, !elem_of_cons. tauto.
  - (* another failure of the extraction *)
    exfalso. match goal with Hx : _ \/ _ |- _ =>
      destruct Hx as [[Hn _]|(b0 & a0 & t0 & Hb0 & Hz0 & He0 & _ & Hr0)] end;
      [congruence|].
    destruct Hbad as [Hz|(a1 & t1 & Hz & He1 & Hr1)]; congruence.
Qed.

(** C6, with the removals that may fail.  When repacking fails the call
    returns failure with the container and every other file as they were,
    and the partial archive is deleted unless every attempt to delete it
    raises. *)
Theorem pack_failure_handled `{Platform} transform env epub_path w r w' :
  process_with transform env epub_path w = (r, w') ->
  MsgPackError ∈ printed w w' ->
  r = Returned false /\
  files w' !! epub_path = files w !! epub_path /\
  (forall q, q <> temp_output_name env epub_path ->
             files w' !! q = files w !! q) /\
  (~ removals_fail env InPackHandler ->
   files w' !! temp_output_name env epub_path = None).
Proof.
  intros Hrun%run_exit Hmsg.
  inversion Hrun; subst; rewrite printed_app in Hmsg by done;
    try (exfalso; msg_absurd Hmsg).
  cbn [files]. split; [done|]. split; [|split].
  - eapply files_after_failure_other; [eassumption|].
    intros E; by apply (temp_output_name_ne env epub_path).
  - intros q Hq. by eapply files_after_failure_other.
  - intros Hn. by eapply files_after_failure_gone.
Qed.

(** A run that prints [MsgDone] has extracted, walked, repacked and
    replaced the container. *)
Lemma committed_exit `{Platform} transform env epub_path w r w' :
  process_with transform env epub_path w = (r, w') ->
  MsgDone ∈ printed w w' ->
  exists a t out,
    extracted env epub_path w a t /\
    pack_members (ws_tree (walk_result env transform t)) = Some out /\
    files w' !! epub_path = Some (zip_bytes out) /\
    r = Returned true.
Proof.
  intros Hrun%run_exit Hmsg.
  inversion Hrun; subst; rewrite printed_app in Hmsg by done;
    try (exfalso; msg_absurd Hmsg).
  eexists _, _, _. split; [eassumption|]. split; [eassumption|].
  split; [|done]. cbn [files]. apply lookup_insert_eq.
Qed.

Lemma extracted_inv `{Platform} env epub_path w a t b a0 :
  extracted env epub_path w a t ->
  files w !! epub_path = Some b -> zip_read b = Some a0 ->
  a = a0 /\ extract_members (env_extract_fault env) a0 [] = (t, true).
Proof. intros (b' & Hb & Hz & He) Hb0 Hz0. split; congruence. Qed.

(** C3.  When the container holds a member named [mimetype] and the run
    replaces it, the new archive has [mimetype] as its first member,
    stored, and every other member is deflated. *)
Theorem mimetype_first_and_stored `{Platform} transform env epub_path
    w b a m r w' :
  process_with transform env epub_path w = (r, w') ->
  MsgDone ∈ printed w w' ->
  files w !! epub_path = Some b -> zip_read b = Some a ->
  m ∈ a -> filename m = "mimetype"%string ->
  exists content rest,
    files w' !! epub_path
    = Some (zip_bytes ({| filename := "mimetype"; file_data := content;
                          compression := ZIP_STORED |} :: rest)) /\
    Forall (fun m' => compression m' = ZIP_DEFLATED) rest.
Proof.
  intros Hrun Hmsg Hb Hz Hm Hname.
  destruct (committed_exit _ _ _ _ _ _ Hrun Hmsg)
    as (a' & t & out & Hext & Hpack & Hfile & _).
  destruct (extracted_inv _ _ _ _ _ _ _ Hext Hb Hz) as [-> He].
  assert (is_Some (read_file ["mimetype"%string] t)) as Hmt.
  { pose proof (extract_members_present _ _ _ _ m He Hm) as Hp.
    rewrite Hname in Hp. by apply Hp. }
  apply (walk_result_files env transform) in Hmt as [content Hc].
  assert (wf_node (Dir (ws_tree (walk_result env transform t)))) as Hwf.
  { apply wf_walk_result. eapply wf_extract_members; [apply wf_empty|exact He]. }
  destruct (pack_mimetype_first _ _ _ Hwf Hc Hpack) as (rest & -> & Hrest).
  by exists content, rest.
Qed.



(** * The walk when nothing fails *)

Section CalmWalk.

Context `{Platform}.
Variable env : Env.
Variable transform : text -> text.




End CalmWalk.

(** * The small platform reads back what it writes *)

Module ToyFacts.
Import Toy.

Lemma take_nat_encode n rest : take_nat (encode_nat n ++ rest) = Some (n, rest).
Proof.
  unfold encode_nat. induction n as [|n IH]; [done|].
  cbn [repeat app take_nat]. cbn [repeat app] in IH. by rewrite IH.
Qed.

Lemma take_bytes_app l rest : take_bytes (length l) (l ++ rest) = Some (l, rest).
Proof.
  unfold take_bytes. rewrite length_app.
  rewrite (proj2 (Nat.leb_le _ _)) by lia.
  by rewrite take_app_length, drop_app_length.
Qed.

Lemma decode_encode_ctype c : decode_ctype (encode_ctype c) = Some c.
Proof. by destruct c. Qed.

Lemma decode_members_encode a : forall fuel,
  length (concat (map encode_member a)) <= fuel ->
  decode_members fuel (concat (map encode_member a)) = Some a.
Proof.
  induction a as [|m a IH]; intros fuel Hf; [by destruct fuel|].
  cbn [map concat] in *.
  assert (length (concat (map encode_member a)) <= pred fuel /\ 0 < fuel)
    as [Hf' Hpos].
  { assert (0 < length (encode_member m))
      by (unfold encode_member; cbn [length]; lia).
    rewrite length_app in Hf. lia. }
  destruct fuel as [|fuel]; [lia|]. cbn [pred] in Hf'.
  unfold encode_member at 1. cbn [app].
  cbn [decode_members]. rewrite decode_encode_ctype. cbn [mbind option_bind].
  rewrite <- !app_assoc, take_nat_encode. cbn [mbind option_bind].
  rewrite take_bytes_app. cbn [mbind option_bind].
  rewrite take_nat_encode. cbn [mbind option_bind].
  rewrite take_bytes_app. cbn [mbind option_bind].
  rewrite IH by done.
  cbn [mbind option_bind]. rewrite string_of_list_byte_of_string.
  by destruct m.
Qed.

Lemma decode_encode_archive a : decode_archive (encode_archive a) = Some a.
Proof. unfold decode_archive, encode_archive. by apply decode_members_encode. Qed.

End ToyFacts.

Section Idempotence.

Context `{Platform}.
Variable transform : text -> text.







End Idempotence.


(** C10.  For every text, a sequence of Unicode code points,
    [clean_css_content] is a total function whose result is the input with
    the removed declarations deleted from left to right, each as a whole
    and none overlapping another: the words the pattern matches are the
    declarations of the six listed properties and of [display : block ;]
    in any letter case and with any white space of Unicode, as
    [removed_declaration] spells them out character by character; the
    deletion has one result only, and the input comes back unchanged
    exactly when no such declaration occurs in it. *)
Theorem clean_css_content_deletes_declarations (s : text) :
  (forall m, matches CSS_REMOVE_PATTERN m <-> removed_declaration m) /\
  strips_to s (clean_css_content s) /\
  (forall out, strips_to s out -> out = clean_css_content s) /\
  (clean_css_content s = s <-> ~ declaration_occurs s).
Proof.
  split; [exact pattern_denotes|].
  split; [by apply (clean_strips (length s))|].
  split; [exact (strips_functional s)|].
  apply clean_fixed_iff.
Qed.

(** ** Scenarios on the example platform *)

Import Toy.

(** C7.  A style sheet that cannot be written is reported on the console
    and the walk goes on, but the call keeps no trace of it: with the
    write to [style/a.css] failing, the run on [Toy.book] ends as the run
    on a container with nothing to clean does, returning success with the
    container as it was. *)
Theorem failed_write_reported_as_success :
  let run := process_epub_inplace Toy.write_fails "book.epub" Toy.book_disk in
  let quiet := process_epub_inplace Toy.calm "book.epub" Toy.clean_book_disk in
  run.1 = Returned true /\
  console run.2 = [MsgStart; MsgWriteWarning "a.css"; MsgNoChange] /\
  files run.2 = files Toy.book_disk /\
  quiet.1 = Returned true /\
  console quiet.2 = [MsgStart; MsgNoChange].
Proof. vm_compute. repeat split. Qed.

(** The locals that carry the outcome of the walk hold the same values
    after a failed write as after a walk with nothing to change. *)
Example failed_write_same_aggregate :
  let t := (extract_members None Toy.book []).1 in
  let t' := (extract_members None Toy.clean_book []).1 in
  let s := walk_result Toy.write_fails clean_css_content t in
  let s' := walk_result Toy.calm clean_css_content t' in
  (ws_found s, ws_modified s) = (ws_found s', ws_modified s') /\
  ws_msgs s = [MsgWriteWarning "a.css"] /\ ws_msgs s' = [].
Proof. vm_compute. repeat split. Qed.

(** A write that fails after the file was opened leaves the sheet empty;
    when another sheet is cleaned the run replaces the container, and the
    new archive holds the empty sheet. *)
Example truncated_sheet_is_committed :
  let run :=
    process_epub_inplace Toy.write_truncates "book.epub" Toy.two_sheets_disk in
  run.1 = Returned true /\
  console run.2
  = [MsgStart; MsgWriteWarning "a.css"; MsgCleaned ["style"; "b.css"];
     MsgRepacking; MsgReplacing; MsgDone] /\
  files run.2 !! "book.epub"%string
  = Some (Toy.encode_archive
            [ Toy.member "mimetype" "application/epub+zip" ZIP_STORED;
              Toy.member "style/a.css" "" ZIP_DEFLATED;
              Toy.member "style/b.css" "h1 {  }" ZIP_DEFLATED ]).
Proof. vm_compute. repeat split. Qed.

(** ** The claims at work on the example containers *)

(** Membership in a list that evaluates to a literal. *)
Ltac in_literal :=
  apply list_elem_of_In; vm_compute;
  repeat (first [left; reflexivity | right]).





(** C2 at work: after a run that replaces the container nothing but the
    container is on the disk. *)
Lemma cleanup_when_removal_succeeds_witness :
  cleaned_up book_disk (process_epub_inplace calm "book.epub" book_disk).2.
Proof.
  apply (cleanup_when_removal_succeeds clean_css_content calm "book.epub"
           book_disk (Returned true)); vm_compute; reflexivity.
Defined.

(** A scratch directory that [shutil.rmtree] cannot remove stays behind,
    here after a successful run. *)
Lemma scratch_directory_left_behind :
  ~ (forall env epub_path w r w',
       process_epub_inplace env epub_path w = (r, w') -> cleaned_up w w').
Proof.
  intros Hall.
  destruct (Hall rmtree_fails "book.epub"%string book_disk _ _
              (surjective_pairing _)) as [Ht _].
  apply (f_equal (fun m => m !! "/tmp/tmpa1"%string)) in Ht.
  vm_compute in Ht. discriminate Ht.
Qed.

(** C4 at work: a file that is no archive. *)
Lemma not_an_archive_fails_witness :
  (process_epub_inplace calm "book.epub" junk_disk).1 = Returned false /\
  files (process_epub_inplace calm "book.epub" junk_disk).2 = files junk_disk /\
  tmpdirs (process_epub_inplace calm "book.epub" junk_disk).2
  = tmpdirs junk_disk.
Proof.
  destruct (not_an_archive_fails clean_css_content calm "book.epub" junk_disk
              (data "not a zip")
              (process_epub_inplace calm "book.epub" junk_disk).1
              (process_epub_inplace calm "book.epub" junk_disk).2)
    as (Hr & Hf & _ & Ht & _).
  - vm_compute; reflexivity.
  - left. vm_compute; reflexivity.
  - vm_compute; reflexivity.
  - split; [exact Hr|]. split; [exact Hf|]. by apply Ht.
Defined.

(** A corrupt member is found only while the archive is extracted: the
    members before it are in the scratch directory by then. *)
Lemma corrupt_member_after_extraction :
  ~ (forall env epub_path w b d,
       files w !! epub_path = Some b -> bad_zip_file env b ->
       tmpdirs w !! d = Some [] ->
       tmpdirs (step_extract env epub_path d (w, initial_locals)).2.1 !! d
       = Some []).
Proof.
  intros Hall.
  pose proof (Hall (corrupt_member false) "book.epub"%string
                {| files := files book_disk;
                   tmpdirs := {["/tmp/tmpa1"%string := []]};
                   console := [] |}
                (encode_archive book) "/tmp/tmpa1"%string) as Hk.
  assert (bad_zip_file (corrupt_member false) (encode_archive book)) as Hbad.
  { right. exists book, (extract_members (Some 1) book []).1.
    split; [apply ToyFacts.decode_encode_archive|].
    split; vm_compute; reflexivity. }
  specialize (Hk eq_refl Hbad eq_refl).
  vm_compute in Hk. discriminate Hk.
Qed.

(** The empty scratch directory of a file that is no archive stays behind
    when [shutil.rmtree] raises. *)
Lemma not_an_archive_leaves_scratch :
  ~ (forall env epub_path w b r w',
       files w !! epub_path = Some b -> zip_read b = None ->
       process_epub_inplace env epub_path w = (r, w') ->
       r = Returned false /\ files w' = files w /\ tmpdirs w' = tmpdirs w).
Proof.
  intros Hall.
  destruct (Hall rmtree_fails "book.epub"%string junk_disk
              (data "not a zip") _ _ eq_refl eq_refl eq_refl)
    as (_ & _ & Ht).
  apply (f_equal (fun m => m !! "/tmp/tmpa1"%string)) in Ht.
  vm_compute in Ht. discriminate Ht.
Qed.

(** C6 at work: the second write to the new archive raises. *)
Lemma pack_failure_handled_witness :
  (process_epub_inplace pack_fails "book.epub" book_disk).1 = Returned false /\
  files (process_epub_inplace pack_fails "book.epub" book_disk).2
  = files book_disk.
Proof.
  destruct (pack_failure_handled clean_css_content pack_fails "book.epub"
              book_disk
              (process_epub_inplace pack_fails "book.epub" book_disk).1
              (process_epub_inplace pack_fails "book.epub" book_disk).2)
    as (Hr & _ & _ & _).
  - vm_compute; reflexivity.
  - in_literal.
  - split; [exact Hr|]. vm_compute; reflexivity.
Defined.

(** When [os.remove] raises as well, the partial archive stays on the
    disk. *)
Lemma partial_archive_left_behind :
  ~ (forall env epub_path w r w',
       process_epub_inplace env epub_path w = (r, w') ->
       MsgPackError ∈ printed w w' ->
       r = Returned false /\
       files w' !! temp_output_name env epub_path = None /\
       files w' !! epub_path = files w !! epub_path).
Proof.
  intros Hall.
  destruct (Hall pack_and_remove_fail "book.epub"%string book_disk _ _
              (surjective_pairing _)) as (_ & Hgone & _).
  - in_literal.
  - vm_compute in Hgone. discriminate Hgone.
Qed.

(** C3 at work: the archive that replaces [book]. *)
Lemma mimetype_first_and_stored_witness :
  exists content rest,
    files (process_epub_inplace calm "book.epub" book_disk).2
      !! "book.epub"%string
    = Some (zip_bytes
              ({| filename := "mimetype"; file_data := content;
                  compression := ZIP_STORED |} :: rest)) /\
    Forall (fun m' => compression m' = ZIP_DEFLATED) rest.
Proof.
  apply (mimetype_first_and_stored clean_css_content calm "book.epub"
           book_disk (encode_archive book) book
           (member "mimetype" "application/epub+zip" ZIP_STORED)
           (process_epub_inplace calm "book.epub" book_disk).1
           (process_epub_inplace calm "book.epub" book_disk).2).
  - apply surjective_pairing.
  - in_literal.
  - vm_compute; reflexivity.
  - apply ToyFacts.decode_encode_archive.
  - in_literal.
  - reflexivity.
Defined.




(** Where [mimetype] is a directory of the scratch tree, step 5 writes it
    as the first member, a directory member that the old archive does not
    have. *)
Lemma mimetype_directory_is_written :
  head (default []
          (files (process_epub_inplace calm "book.epub" mimetype_dir_disk).2
             !! "book.epub"%string ≫= zip_read))
  = Some {| filename := "mimetype/"; file_data := [];
            compression := ZIP_STORED |} /\
  Forall (fun m => filename m <> "mimetype/"%string) mimetype_dir_book.
Proof.
  split; [vm_compute; reflexivity|].
  repeat (apply Forall_cons; split; [discriminate|]). apply Forall_nil_2.
Qed.



(** ** Further properties *)

(** [clean_css_content] is not idempotent: deleting one declaration can
    bring the two halves of another together. *)
Theorem clean_css_content_not_idempotent :
  exists s : text,
    clean_css_content (clean_css_content s) <> clean_css_content s.
Proof. exists (txt "colocolor:x;r:y;"). vm_compute. discriminate. Qed.

(** * Further properties of the transaction *)

(** A call touches no file but the container and its temporary sibling. *)
Theorem other_files_untouched `{Platform} transform env epub_path w r w' q :
  process_with transform env epub_path w = (r, w') ->
  q <> epub_path -> q <> temp_output_name env epub_path ->
  files w' !! q = files w !! q.
Proof.
  intros Hrun%run_exit Hq Hq'.
  inversion Hrun; subst; cbn [files]; try done.
  - by eapply files_after_failure_other.
  - by eapply files_after_move_failure_other.
  - rewrite lookup_insert_ne by done. by rewrite lookup_delete_ne.
Qed.

(** A path at which there is no file: the [FileNotFoundError] of
    [zipfile.ZipFile] is caught, the call returns failure and no file is
    created. *)
Theorem missing_container_fails `{Platform} transform env epub_path w r w' :
  files w !! epub_path = None ->
  process_with transform env epub_path w = (r, w') ->
  r = Returned false /\ files w' = files w /\
  (MsgExtractError ∈ printed w w' \/ MsgUnexpected ∈ printed w w').
Proof.
  intros Hnone Hrun%run_exit.
  inversion Hrun; subst; cbn [files];
    try (match goal with He : extracted _ _ _ _ _ |- _ =>
           destruct He as (b0 & Hb0 & _); congruence end);
    try congruence.
  - split; [done|]. split; [done|]. right.
    rewrite printed_app by done. rewrite !elem_of_cons. tauto.
  - split; [done|]. split; [done|]. left.
    rewrite printed_app by done. rewrite elem_of_app, !elem_of_cons. tauto.
Qed.

(** When [tempfile.mkdtemp] raises, the outer handler reports it and the
    call returns failure with the disk as it was. *)
Theorem no_scratch_directory_fails `{Platform} transform env epub_path w :
  env_mkdtemp env = None ->
  process_with transform env epub_path w
  = (Returned false,
     {| files := files w; tmpdirs := tmpdirs w;
        console := console w ++ [MsgStart; MsgUnexpected] |}).
Proof.
  intros Hnone.
  destruct (process_with transform env epub_path w) as [r w'] eqn:Hrun.
  apply run_exit in Hrun.
  inversion Hrun; subst; try done;
    match goal with Hs : scratch_created _ _ _ |- _ =>
      destruct Hs as [Hs _]; congruence end.
Qed.

(** When the move of step 6 raises, the call returns failure.  The
    container holds what the move left there: its old bytes when
    [os.rename] and then the copy failed before the container was opened,
    and otherwise the part of the repacked archive that the copy wrote.
    Every other file is as it was, and the repacked archive is deleted
    unless every attempt to delete it raises. *)
Theorem move_failure_handled `{Platform} transform env epub_path w r w' :
  process_with transform env epub_path w = (r, w') ->
  MsgReplaceError ∈ printed w w' ->
  r = Returned false /\
  (exists a t out left,
     extracted env epub_path w a t /\
     pack_members (ws_tree (walk_result env transform t)) = Some out /\
     move_leaves env (zip_bytes out) = Some left /\
     files w' !! epub_path
     = match left with
       | Some c => Some c
       | None => files w !! epub_path
       end) /\
  (env_copy_fault env = CopyFailOpen ->
   files w' !! epub_path = files w !! epub_path) /\
  (forall q, q <> temp_output_name env epub_path -> q <> epub_path ->
             files w' !! q = files w !! q) /\
  (~ removals_fail env InMoveHandler ->
   files w' !! temp_output_name env epub_path = None).
Proof.
  intros Hrun%run_exit Hmsg.
  inversion Hrun; subst; rewrite printed_app in Hmsg by done;
    try (exfalso; msg_absurd Hmsg).
  cbn [files].
  match goal with
    Hf : files_after_move_failure _ _ _ _ _, Hl : move_leaves _ _ = Some _
    |- _ =>
      pose proof (files_after_move_failure_container _ _ _ _ _ Hf) as Hc;
      pose proof (fun q => files_after_move_failure_other _ _ _ _ _ q Hf)
        as Ho;
      pose proof (files_after_move_failure_gone _ _ _ _ _ Hf) as Hg;
      pose proof (fun E => move_leaves_untouched _ _ _ Hl E) as Hu
  end.
  split; [done|]. split; [by eexists _, _, _, _|].
  split; [|by split].
  intros E. rewrite Hc. by rewrite (Hu E).
Qed.

Section WalkFacts.

Context `{Platform}.
Variable env : Env.
Variable transform : text -> text.

(** The walk sets [modified] only where it prints that a sheet was
    cleaned. *)
Lemma walk_one_modified_msg s item :
  (ws_modified s = true ->
   exists q, css_path q /\ MsgCleaned q ∈ ws_msgs s) ->
  ws_modified (walk_one env transform s item) = true ->
  exists q, css_path q /\ MsgCleaned q ∈ ws_msgs (walk_one env transform s item).
Proof.
  intros Hinv. destruct item as [root file]. unfold walk_one.
  destruct (is_css_name file) eqn:Hcss; [|done].
  assert (forall m s',
            ws_modified s' = ws_modified s -> ws_msgs s' = ws_msgs s ++ [m] ->
            ws_modified s' = true ->
            exists q, css_path q /\ MsgCleaned q ∈ ws_msgs s') as Hwarn.
  { intros m s' Hm Hmsgs Ht. rewrite Hm in Ht.
    destruct (Hinv Ht) as (q & Hq & Hin). exists q. split; [done|].
    rewrite Hmsgs. apply elem_of_app. by left. }
  destruct (env_read_fault env (root ++ [file]));
    [by apply (Hwarn (MsgReadWarning file))|].
  destruct (read_file (root ++ [file]) (ws_tree s)) as [b|];
    [|by apply (Hwarn (MsgReadWarning file))].
  cbv zeta. case_bool_decide; [exact Hinv|].
  destruct (env_write_fault env (root ++ [file])).
  - destruct (set_file _ _ _);
      [|by apply (Hwarn (MsgWriteWarning file))].
    intros _. exists (root ++ [file]). split; [by exists root, file|].
    cbn [ws_msgs]. apply elem_of_app. right. by apply list_elem_of_singleton.
  - by apply (Hwarn (MsgWriteWarning file)).
  - destruct (set_file _ _ _); by apply (Hwarn (MsgWriteWarning file)).
Qed.

Lemma walk_from_modified_msg items : forall s,
  (ws_modified s = true ->
   exists q, css_path q /\ MsgCleaned q ∈ ws_msgs s) ->
  ws_modified (walk_from env transform items s) = true ->
  exists q, css_path q /\
            MsgCleaned q ∈ ws_msgs (walk_from env transform items s).
Proof.
  induction items as [|item items IH]; intros s Hinv; [exact Hinv|].
  rewrite walk_from_cons. apply IH. by apply walk_one_modified_msg.
Qed.

Lemma walk_result_modified_msg t :
  ws_modified (walk_result env transform t) = true ->
  exists q, css_path q /\
            MsgCleaned q ∈ ws_msgs (walk_result env transform t).
Proof. unfold walk_result. by apply walk_from_modified_msg. Qed.




End WalkFacts.

(** The container is replaced only when the walk has rewritten a style
    sheet: a run that prints the completion message has printed, before
    it, that some sheet was cleaned. *)
Theorem replaced_only_when_cleaned `{Platform} transform env epub_path w r w' :
  process_with transform env epub_path w = (r, w') ->
  MsgDone ∈ printed w w' ->
  exists q, css_path q /\ MsgCleaned q ∈ printed w w'.
Proof.
  intros Hrun%run_exit Hmsg.
  inversion Hrun; subst; rewrite printed_app in Hmsg |- * by done;
    try (exfalso; msg_absurd Hmsg).
  match goal with Hm : ws_modified _ = true |- _ =>
    destruct (walk_result_modified_msg env transform _ Hm)
      as (q & Hq & Hin) end.
  exists q. split; [done|].
  rewrite !elem_of_app. right. left. exact Hin.
Qed.


(** * The walk visits every file once *)

Lemma flat_map_flat_map {A B C} (f : B -> list C) (g : A -> list B) l :
  flat_map f (flat_map g l) = flat_map (fun x => flat_map f (g x)) l.
Proof.
  induction l as [|x l IH]; [done|].
  simpl. by rewrite flat_map_app, IH.
Qed.

Lemma map_flat_map {A B C} (f : B -> C) (g : A -> list B) l :
  map f (flat_map g l) = flat_map (fun x => map f (g x)) l.
Proof.
  induction l as [|x l IH]; [done|].
  simpl. by rewrite map_app, IH.
Qed.

Lemma walk_children_flat root (ch : list (string * node)) :
  (fix walk_children (l : list (string * node)) :=
     match l with
     | [] => []
     | (name, c) :: l' => walk_node (root ++ [name]) c ++ walk_children l'
     end) ch
  = flat_map (fun e => walk_node (root ++ [e.1]) e.2) ch.
Proof. induction ch as [|[k c] ch IH]; [done|]. simpl. by rewrite IH. Qed.

Lemma node_paths_dir root ch :
  node_paths root (Dir ch)
  = map (fun f => root ++ [f]) (filenames ch)
    ++ flat_map (fun e => node_paths (root ++ [e.1]) e.2) ch.
Proof.
  unfold node_paths. cbn [walk_node flat_map].
  by rewrite walk_children_flat, flat_map_flat_map.
Qed.

Lemma walk_paths_node t : walk_paths t = node_paths [] (Dir t).
Proof.
  unfold walk_paths, walk_files, node_paths, walk_tree.
  rewrite map_flat_map. apply flat_map_ext. intros [[root dirs] fs].
  unfold triple_paths. cbn. by rewrite map_map.
Qed.

Lemma node_paths_prefix n : forall root q,
  q ∈ node_paths root n -> exists rest, q = root ++ rest /\ rest <> [].
Proof.
  induction n as [b|ch IH] using node_ind'; intros root q Hq.
  - by apply elem_of_nil in Hq.
  - rewrite node_paths_dir in Hq. apply elem_of_app in Hq as [Hq|Hq].
    + apply list_elem_of_fmap in Hq as (f & -> & _). by exists [f].
    + apply elem_of_flat_map in Hq as ([k c] & Hin & Hq).
      rewrite Forall_forall in IH.
      destruct (IH _ Hin _ _ Hq) as (rest & -> & _).
      exists (k :: rest). by rewrite <- app_assoc.
Qed.

Lemma children_paths_head root (ch : list (string * node)) q :
  q ∈ flat_map (fun e => node_paths (root ++ [e.1]) e.2) ch ->
  exists k rest, k ∈ map fst ch /\ q = root ++ k :: rest /\ rest <> [].
Proof.
  intros Hq. apply elem_of_flat_map in Hq as ([k c] & Hin & Hq).
  destruct (node_paths_prefix _ _ _ Hq) as (rest & -> & Hne).
  exists k, rest. split; [|by rewrite <- app_assoc].
  apply list_elem_of_fmap. by exists (k, c).
Qed.

Lemma filenames_NoDup (ch : list (string * node)) :
  NoDup (map fst ch) -> NoDup (filenames ch).
Proof.
  intros Hnd. unfold filenames.
  apply (sublist_NoDup _ (map fst ch)); [exact Hnd|].
  apply fmap_sublist, sublist_filter.
Qed.

Lemma node_paths_NoDup n :
  wf_node n -> forall root, NoDup (node_paths root n).
Proof.
  induction n as [b|ch IH] using node_ind'; intros Hwf root.
  - apply NoDup_nil_2.
  - inversion Hwf as [|? Hnd Hall]; subst.
    rewrite node_paths_dir. apply NoDup_app. split; [|split].
    + apply NoDup_fmap_2; [|by apply filenames_NoDup].
      intros f1 f2 E. apply app_inv_head in E. congruence.
    + intros q Hq1 Hq2.
      apply list_elem_of_fmap in Hq1 as (f & -> & _).
      apply children_paths_head in Hq2 as (k & rest & _ & E & Hne).
      apply app_inv_head in E. injection E as _ E. by subst rest.
    + clear Hwf. induction ch as [|[k c] ch IHch]; [apply NoDup_nil_2|].
      apply Forall_cons in IH as [IHc IH].
      apply Forall_cons in Hall as [Hc Hall].
      cbn [map fst] in Hnd. apply NoDup_cons in Hnd as [Hk Hnd].
      cbn [flat_map]. apply NoDup_app. split; [|split].
      * by apply IHc.
      * intros q Hq1 Hq2. cbn [fst snd] in Hq1.
        apply node_paths_prefix in Hq1 as (r1 & -> & _).
        apply children_paths_head in Hq2 as (k2 & r2 & Hk2 & E & _).
        rewrite <- app_assoc in E. apply app_inv_head in E.
        injection E as -> _. done.
      * by apply IHch.
Qed.

Lemma walk_paths_NoDup t : wf_node (Dir t) -> NoDup (walk_paths t).
Proof. intros Hwf. rewrite walk_paths_node. by apply node_paths_NoDup. Qed.

Section WalkBytes.

Context `{Platform}.
Variable env : Env.
Variable transform : text -> text.





End WalkBytes.


(** * The names of the repacked archive *)

Lemma remove_first_sublist x l : remove_first x l `sublist_of` l.
Proof.
  induction l as [|y l IH]; simpl; [constructor|].
  destruct (String.eqb y x); [by apply sublist_cons | by apply sublist_skip].
Qed.

Lemma remove_first_NoDup x l : NoDup l -> x ∉ remove_first x l.
Proof.
  induction l as [|y l IH]; simpl; intros Hnd; [apply not_elem_of_nil|].
  apply NoDup_cons in Hnd as [Hy Hnd].
  destruct (String.eqb y x) eqn:E.
  - apply String.eqb_eq in E as ->. done.
  - apply not_elem_of_cons. split; [|auto].
    intros ->. by rewrite String.eqb_refl in E.
Qed.

Lemma flat_map_sublist {A B} (f g : A -> list B) l :
  (forall x, f x `sublist_of` g x) -> flat_map f l `sublist_of` flat_map g l.
Proof.
  intros Hfg. induction l as [|x l IH]; [constructor|].
  simpl. by apply sublist_app.
Qed.

(** The file names [os.walk] lists for one directory are distinct. *)
Lemma walk_triple_NoDup n :
  wf_node n -> forall root r dirs fs,
  (r, dirs, fs) ∈ walk_node root n -> NoDup fs.
Proof.
  induction n as [b|ch IH] using node_ind'; intros Hwf root r dirs fs Hin.
  - by apply elem_of_nil in Hin.
  - inversion Hwf as [|? Hnd Hall]; subst. simpl in Hin.
    apply elem_of_cons in Hin as [[= -> -> ->]|Hin].
    + by apply filenames_NoDup.
    + apply walk_children_inv in Hin as (name & c & Hc & Hin).
      rewrite Forall_forall in IH, Hall.
      exact (IH _ Hc (Hall _ Hc) _ _ _ _ Hin).
Qed.

Lemma walk_requests_sources t :
  map request_source (walk_requests t) `sublist_of` walk_paths t.
Proof.
  unfold walk_requests, walk_paths, walk_files.
  rewrite !map_flat_map. apply flat_map_sublist. intros [[root dirs] fs].
  rewrite !map_map. cbn.
  change (map (fun f => root ++ [f])
            (if bool_decide (root = []) && bool_decide ("mimetype" ∈ fs)
             then remove_first "mimetype" fs else fs)
          `sublist_of` map (fun f => root ++ [f]) fs).
  apply fmap_sublist.
  destruct (bool_decide (root = []) && bool_decide ("mimetype" ∈ fs));
    [apply remove_first_sublist | done].
Qed.

Lemma walk_requests_no_mimetype t :
  wf_node (Dir t) ->
  ["mimetype"] ∉ map request_source (walk_requests t).
Proof.
  intros Hwf Hin. apply list_elem_of_fmap in Hin as (r & E & Hr).
  unfold walk_requests in Hr.
  apply elem_of_flat_map in Hr as ([[root dirs] fs] & Hin & Hr).
  apply list_elem_of_fmap in Hr as (f & -> & Hf).
  unfold request_source in E. cbn in E.
  destruct root as [|c root]; [|destruct root; discriminate E].
  injection E as <-.
  pose proof (walk_triple_NoDup _ Hwf _ _ _ _ Hin) as Hnd.
  rewrite bool_decide_true in Hf by done. cbn [andb] in Hf.
  destruct (bool_decide ("mimetype" ∈ fs)) eqn:Em.
  - exact (remove_first_NoDup "mimetype" fs Hnd Hf).
  - apply bool_decide_eq_false in Em. done.
Qed.

Lemma pack_sources_NoDup t :
  wf_node (Dir t) -> NoDup (map request_source (pack_requests t)).
Proof.
  intros Hwf. rewrite pack_requests_split, map_app.
  apply NoDup_app. split; [|split].
  - destruct (find_node ["mimetype"] (Dir t));
      [apply NoDup_singleton | apply NoDup_nil_2].
  - intros q Hq Hq'.
    destruct (find_node ["mimetype"] (Dir t)); [|by apply elem_of_nil in Hq].
    apply list_elem_of_singleton in Hq as ->.
    by apply (walk_requests_no_mimetype t).
  - apply (sublist_NoDup _ (walk_paths t));
      [by apply walk_paths_NoDup | apply walk_requests_sources].
Qed.

Lemma named_after_inj t q1 q2 m1 m2 :
  good_files t -> named_after t q1 m1 -> named_after t q2 m2 ->
  filename m1 = filename m2 -> q1 = q2.
Proof.
  intros Hgood [[E1 [b1 H1]]|[-> E1]] [[E2 [b2 H2]]|[-> E2]] E; [| | |done].
  - destruct (Hgood _ _ H1) as [Hn1 Hg1], (Hgood _ _ H2) as [Hn2 Hg2].
    rewrite <- (member_path_join q1), <- (member_path_join q2) by done.
    congruence.
  - exfalso. destruct (Hgood _ _ H1) as [Hn1 Hg1].
    assert (q1 = ["mimetype"]) as ->.
    { rewrite <- (member_path_join q1) by done.
      rewrite <- E1, E, E2. reflexivity. }
    rewrite E1, E2 in E. discriminate E.
  - exfalso. destruct (Hgood _ _ H2) as [Hn2 Hg2].
    assert (q2 = ["mimetype"]) as ->.
    { rewrite <- (member_path_join q2) by done.
      rewrite <- E2, <- E, E1. reflexivity. }
    rewrite E1, E2 in E. discriminate E.
Qed.

Lemma Forall2_names_NoDup {A} (R : A -> ZipInfo -> Prop) l out :
  Forall2 R l out -> NoDup l ->
  (forall x1 x2 m1 m2, R x1 m1 -> R x2 m2 ->
     filename m1 = filename m2 -> x1 = x2) ->
  NoDup (map filename out).
Proof.
  intros HF Hnd Hinj.
  induction HF as [|x m l out Hxm HF IH]; [apply NoDup_nil_2|].
  apply NoDup_cons in Hnd as [Hx Hnd]. cbn [map]. apply NoDup_cons.
  split; [|auto].
  intros Hin. apply list_elem_of_fmap in Hin as (m2 & E & Hm2).
  destruct (Forall2_elem_r _ _ _ _ HF Hm2) as (x2 & Hx2 & HR).
  by rewrite (Hinj _ _ _ _ Hxm HR E) in Hx.
Qed.

Lemma Forall2_elem_impl {A B} (R Q : A -> B -> Prop) l k :
  Forall2 R l k -> (forall x y, x ∈ l -> R x y -> Q x y) -> Forall2 Q l k.
Proof.
  induction 1 as [|x y l k Hxy _ IH]; intros Himp; constructor.
  - apply Himp; [left | done].
  - apply IH. intros x' y' Hx'. apply Himp. by right.
Qed.

Lemma pack_named_after t out :
  wf_node (Dir t) -> pack_members t = Some out ->
  Forall2 (named_after t) (map request_source (pack_requests t)) out.
Proof.
  intros Hwf Hp. unfold pack_members in Hp. apply mapM_Some in Hp.
  apply Forall2_fmap_l.
  apply (Forall2_elem_impl _ _ _ _ Hp). intros r m Hr Hm.
  rewrite pack_requests_split in Hr. apply elem_of_app in Hr as [Hr|Hr].
  - destruct (find_node ["mimetype"] (Dir t)) as [n|] eqn:Ef;
      [|by apply elem_of_nil in Hr].
    apply list_elem_of_singleton in Hr as ->.
    unfold member_of in Hm. rewrite Ef in Hm. unfold request_source. cbn.
    destruct n as [b|ch]; injection Hm as <-.
    + left. split; [done|]. exists b. unfold read_file, read_node.
      by rewrite Ef.
    + by right.
  - apply walk_requests_elem in Hr as (q & -> & Hq).
    destruct (walk_sound _ _ Hwf Hq) as [b Hb].
    rewrite (member_of_file _ _ _ _ _ Hb) in Hm. injection Hm as <-.
    left. split; [done|]. by exists b.
Qed.

(** In a well-formed tree of well-named files no two members of the
    repacked archive share a name. *)
Lemma pack_names_NoDup t out :
  wf_node (Dir t) -> good_files t -> pack_members t = Some out ->
  NoDup (map filename out).
Proof.
  intros Hwf Hgood Hp.
  apply (Forall2_names_NoDup (named_after t)
           (map request_source (pack_requests t))).
  - by apply pack_named_after.
  - by apply pack_sources_NoDup.
  - intros q1 q2 m1 m2 H1 H2 E. by eapply named_after_inj.
Qed.

(** No two members of the archive that replaces the container share a
    name, whatever the names of the old archive were. *)
Theorem repacked_names_are_distinct `{Platform} transform env epub_path
    w r w' :
  process_with transform env epub_path w = (r, w') ->
  MsgDone ∈ printed w w' ->
  exists out,
    files w' !! epub_path = Some (zip_bytes out) /\
    NoDup (map filename out).
Proof.
  intros Hrun Hmsg.
  destruct (committed_exit _ _ _ _ _ _ Hrun Hmsg)
    as (a & t & out & (b & Hb & Hz & He) & Hpack & Hout & _).
  exists out. split; [done|].
  assert (wf_node (Dir t)) as Hwf
    by (eapply wf_extract_members; [apply wf_empty | exact He]).
  assert (good_files t) as Hgood
    by (eapply extract_members_good; [exact He | apply good_files_empty]).
  apply (pack_names_NoDup (ws_tree (walk_result env transform t))).
  - by apply wf_walk_result.
  - intros q c Hq.
    assert (is_Some (read_file q t)) as [c' Hc']
      by (apply (walk_result_files env transform); eauto).
    exact (Hgood q c' Hc').
  - done.
Qed.

(** * Further properties of [clean_css_content] *)

Lemma strips_sublist s out : strips_to s out -> out `sublist_of` s.
Proof.
  induction 1 as [|m rest out Hm _ IH|c s out Hc _ IH].
  - constructor.
  - by apply sublist_inserts_l.
  - by apply sublist_skip.
Qed.

(** Cleaning only deletes: the result is the input with characters left
    out, none added and none moved. *)
Theorem clean_css_content_only_deletes (s : text) :
  clean_css_content s `sublist_of` s.
Proof. apply strips_sublist, (clean_strips (length s)). done. Qed.

Lemma decl_has_colon m : removed_declaration m -> colon ∈ m.
Proof.
  intros [(name & n & sp1 & sp2 & value & _ & _ & _ & _ & _ & ->)
         |(d & sp1 & sp2 & b & sp3 & _ & _ & _ & _ & _ & ->)];
    rewrite !elem_of_app; right; right; left; apply list_elem_of_singleton;
    reflexivity.
Qed.

Lemma decl_has_semicolon m : removed_declaration m -> semicolon ∈ m.
Proof.
  intros (m0 & -> & _)%decl_shape. apply elem_of_app. right.
  by apply list_elem_of_singleton.
Qed.

(** A text without a colon or without a semicolon holds no declaration
    the pattern can match, and comes back unchanged. *)
Theorem text_without_declaration_unchanged (s : text) :
  colon ∉ s \/ semicolon ∉ s -> clean_css_content s = s.
Proof.
  intros Hs. apply clean_fixed_iff.
  intros (before & m & after & -> & Hm).
  destruct Hs as [Hs|Hs]; apply Hs; rewrite !elem_of_app; right; left.
  - by apply decl_has_colon.
  - by apply decl_has_semicolon.
Qed.

(** ** Cleaning is local to the pieces between semicolons *)

Lemma first_semicolon (x : text) :
  semicolon_free x \/
  exists x1 x2, x = x1 ++ semicolon :: x2 /\ semicolon_free x1.
Proof.
  induction x as [|c x IH]; [left; constructor|].
  destruct (decide (c = semicolon)) as [->|Hc].
  - right. exists [], x. split; [done | constructor].
  - destruct IH as [Hx|(x1 & x2 & -> & Hx1)].
    + left. by constructor.
    + right. exists (c :: x1), x2. split; [done | by constructor].
Qed.

Lemma declaration_before_semicolon x s2 :
  declaration_at_head ((x ++ [semicolon]) ++ s2) ->
  exists m rest, x ++ [semicolon] = m ++ rest /\ removed_declaration m /\
                 (rest = [] \/ exists x', rest = x' ++ [semicolon]).
Proof.
  intros (m & rest & E & Hm).
  destruct (decl_shape m Hm) as (a & -> & Ha).
  rewrite <- !app_assoc in E. cbn [app] in E.
  destruct (first_semicolon x) as [Hx|(x1 & x2 & -> & Hx1)].
  - destruct (first_semicolon_unique _ _ _ _ Hx Ha E) as [-> ->].
    exists (a ++ [semicolon]), []. rewrite app_nil_r. auto.
  - rewrite <- app_assoc in E. cbn [app] in E.
    destruct (first_semicolon_unique _ _ _ _ Hx1 Ha E) as [-> _].
    exists (a ++ [semicolon]), (x2 ++ [semicolon]). split; [|eauto].
    by rewrite <- !app_assoc.
Qed.

Lemma clean_local_aux n s2 : forall x,
  length x <= n ->
  clean_css_content ((x ++ [semicolon]) ++ s2)
  = clean_css_content (x ++ [semicolon]) ++ clean_css_content s2.
Proof.
  induction n as [n IH] using lt_wf_ind. intros x Hn.
  destruct (declaration_at_head_dec (x ++ [semicolon])) as [Hd|Hd].
  - assert (declaration_at_head ((x ++ [semicolon]) ++ s2)) as Hd'.
    { destruct Hd as (m & rest & E & Hm). exists m, (rest ++ s2).
      split; [by rewrite E, <- app_assoc | done]. }
    destruct (declaration_before_semicolon _ _ Hd')
      as (m & rest & E & Hm & Hrest).
    rewrite E, <- app_assoc, (clean_drop m rest Hm),
      (clean_drop m (rest ++ s2) Hm).
    destruct Hrest as [->|[x' ->]]; [done|].
    pose proof (decl_length m Hm) as Hlen.
    apply (f_equal length) in E. rewrite !length_app in E. cbn in E.
    apply (IH (length x')); lia.
  - assert (~ declaration_at_head ((x ++ [semicolon]) ++ s2)) as Hd'.
    { intros (m & rest & E & Hm & _)%declaration_before_semicolon.
      apply Hd. by exists m, rest. }
    destruct x as [|c x].
    + cbn [app] in *. by rewrite !clean_keep.
    + cbn [app] in *. rewrite !clean_keep by done. cbn [app]. f_equal.
      cbn in Hn. apply (IH (length x)); lia.
Qed.

(** Cleaning is local to the pieces that end with a semicolon: what
    follows a semicolon has no effect on what is deleted before it, so a
    text cut behind a semicolon is cleaned piece by piece. *)
Theorem clean_css_content_piecewise (x s2 : text) :
  clean_css_content (x ++ semicolon :: s2)
  = clean_css_content (x ++ [semicolon]) ++ clean_css_content s2.
Proof.
  rewrite <- (clean_local_aux (length x) s2 x) by done.
  by rewrite <- app_assoc.
Qed.

(** ** Letter case *)

Section Respelling.

(** A change of characters that keeps what each character is read as. *)
Variable f : N -> N.
Hypothesis f_forms : forall p c,
  ~ (65 <= p <= 90)%N -> In (f c) (letter_forms p) <-> In c (letter_forms p).
Hypothesis f_space : forall c, In (f c) white_space <-> In c white_space.

Lemma same_word_map w : forall n,
  small w -> same_word w (map f n) <-> same_word w n.
Proof.
  intros n Hw. unfold same_word. rewrite Forall2_fmap_r. revert n.
  induction Hw as [|p w Hp _ IH]; intros n.
  - split; inversion 1; constructor.
  - split; inversion 1 as [|? c ? n' Hpc Hn]; subst; constructor;
      first [by apply (f_forms p c Hp) | by apply IH].
Qed.

Lemma blank_map m : blank (map f m) <-> blank m.
Proof. unfold blank. rewrite Forall_fmap. apply Forall_iff, f_space. Qed.

Lemma f_semicolon c : f c = semicolon <-> c = semicolon.
Proof.
  assert (~ (65 <= semicolon <= 90)%N) as Hp by (unfold semicolon; lia).
  pose proof (f_forms semicolon c Hp) as Hc.
  change (letter_forms semicolon) with [semicolon] in Hc. cbn [In] in Hc.
  split; intros E;
    [destruct Hc as [Hc _]|destruct Hc as [_ Hc]];
    (destruct Hc as [?|[]]; [by left | done]).
Qed.

Lemma f_colon c : f c = colon <-> c = colon.
Proof.
  assert (~ (65 <= colon <= 90)%N) as Hp by (unfold colon; lia).
  pose proof (f_forms colon c Hp) as Hc.
  change (letter_forms colon) with [colon] in Hc. cbn [In] in Hc.
  split; intros E;
    [destruct Hc as [Hc _]|destruct Hc as [_ Hc]];
    (destruct Hc as [?|[]]; [by left | done]).
Qed.

Lemma semicolon_free_map m : semicolon_free (map f m) <-> semicolon_free m.
Proof.
  unfold semicolon_free. rewrite Forall_fmap. apply Forall_iff. intros c.
  cbn. by rewrite f_semicolon.
Qed.

Lemma map_colon k : map f k = txt ":" <-> k = txt ":".
Proof.
  change (txt ":") with [colon]. split.
  - destruct k as [|c [|c' k]]; try done. intros [= E]. apply (proj1 (f_colon c)) in E. by subst.
  - intros ->. cbn. f_equal. by apply f_colon.
Qed.

Lemma map_semicolon k : map f k = txt ";" <-> k = txt ";".
Proof.
  change (txt ";") with [semicolon]. split.
  - destruct k as [|c [|c' k]]; try done. intros [= E]. apply (proj1 (f_semicolon c)) in E. by subst.
  - intros ->. cbn. f_equal. by apply f_semicolon.
Qed.

Lemma property_name_small name : In name removed_properties -> small name.
Proof.
  unfold removed_properties. simpl.
  intros [<-|[<-|[<-|[<-|[<-|[<-|[]]]]]]]; by apply small_check.
Qed.

(** What is a removed declaration does not depend on the change. *)
Lemma declaration_map m :
  removed_declaration (map f m) <-> removed_declaration m.
Proof.
  split.
  - intros [(name & n & sp1 & sp2 & value & Hin & Hn & H1 & H2 & Hv & E)
           |(d & sp1 & sp2 & b & sp3 & Hd & Hb & H1 & H2 & H3 & E)].
    + apply fmap_app_inv in E as (n0 & r & En & E & ->). symmetry in E.
      apply fmap_app_inv in E as (s1 & r1 & Es1 & E & ->). symmetry in E.
      apply fmap_app_inv in E as (c1 & r2 & Hc1 & E & ->). symmetry in E.
      apply fmap_app_inv in E as (s2 & r3 & Es2 & E & ->). symmetry in E.
      apply fmap_app_inv in E as (v & c2 & Ev & Hc2 & ->).
      subst n sp1 sp2 value. symmetry in Hc1, Hc2.
      apply (proj1 (map_colon c1)) in Hc1 as ->.
      apply (proj1 (map_semicolon c2)) in Hc2 as ->.
      left. exists name, n0, s1, s2, v.
      split; [done|].
      split; [by apply (proj1 (same_word_map name n0
                                 (property_name_small name Hin)))|].
      split; [by apply (proj1 (blank_map s1))|].
      split; [by apply (proj1 (blank_map s2))|].
      split; [by apply (proj1 (semicolon_free_map v)) | done].
    + apply fmap_app_inv in E as (d0 & r & Ed & E & ->). symmetry in E.
      apply fmap_app_inv in E as (s1 & r1 & Es1 & E & ->). symmetry in E.
      apply fmap_app_inv in E as (c1 & r2 & Hc1 & E & ->). symmetry in E.
      apply fmap_app_inv in E as (s2 & r3 & Es2 & E & ->). symmetry in E.
      apply fmap_app_inv in E as (b0 & r4 & Eb & E & ->). symmetry in E.
      apply fmap_app_inv in E as (s3 & c2 & Es3 & Hc2 & ->).
      subst d sp1 sp2 b sp3. symmetry in Hc1, Hc2.
      apply (proj1 (map_colon c1)) in Hc1 as ->.
      apply (proj1 (map_semicolon c2)) in Hc2 as ->.
      right. exists d0, s1, s2, b0, s3.
      split; [apply (proj1 (same_word_map _ d0 (small_check (txt "display") eq_refl)) Hd)|].
      split; [apply (proj1 (same_word_map _ b0 (small_check (txt "block") eq_refl)) Hb)|].
      split; [by apply (proj1 (blank_map s1))|].
      split; [by apply (proj1 (blank_map s2))|].
      split; [by apply (proj1 (blank_map s3)) | done].
  - intros [(name & n & sp1 & sp2 & value & Hin & Hn & H1 & H2 & Hv & ->)
           |(d & sp1 & sp2 & b & sp3 & Hd & Hb & H1 & H2 & H3 & ->)].
    + left. exists name, (map f n), (map f sp1), (map f sp2), (map f value).
      split; [done|].
      split; [by apply (proj2 (same_word_map name n
                                 (property_name_small name Hin)))|].
      split; [by apply blank_map|]. split; [by apply blank_map|].
      split; [by apply semicolon_free_map|].
      rewrite !map_app.
      by rewrite (proj2 (map_colon _) eq_refl),
        (proj2 (map_semicolon _) eq_refl).
    + right. exists (map f d), (map f sp1), (map f sp2), (map f b), (map f sp3).
      split; [apply (proj2 (same_word_map _ d (small_check (txt "display") eq_refl)) Hd)|].
      split; [apply (proj2 (same_word_map _ b (small_check (txt "block") eq_refl)) Hb)|].
      split; [by apply blank_map|]. split; [by apply blank_map|].
      split; [by apply blank_map|].
      rewrite !map_app.
      by rewrite (proj2 (map_colon _) eq_refl),
        (proj2 (map_semicolon _) eq_refl).
Qed.

Lemma declaration_at_head_map s :
  declaration_at_head (map f s) <-> declaration_at_head s.
Proof.
  split.
  - intros (m & rest & E & Hm).
    apply fmap_app_inv in E as (k1 & k2 & -> & -> & ->).
    exists k1, k2. split; [done|]. by apply declaration_map.
  - intros (m & rest & -> & Hm). exists (map f m), (map f rest).
    split; [apply map_app|]. by apply declaration_map.
Qed.

Lemma strips_map s out :
  strips_to s out -> strips_to (map f s) (map f out).
Proof.
  induction 1 as [|m rest out Hm _ IH|c s out Hc _ IH].
  - constructor.
  - rewrite map_app. apply strips_drop; [by apply declaration_map | done].
  - cbn [map]. apply strips_keep; [|done].
    intros Hd. apply Hc. apply declaration_at_head_map. exact Hd.
Qed.

Lemma clean_map s :
  clean_css_content (map f s) = map f (clean_css_content s).
Proof.
  symmetry. apply strips_functional, strips_map.
  by apply (clean_strips (length s)).
Qed.

End Respelling.

Lemma ascii_upper_forms p c :
  ~ (65 <= p <= 90)%N ->
  In (ascii_upper c) (letter_forms p) <-> In c (letter_forms p).
Proof.
  intros Hp. unfold ascii_upper, letter_forms.
  destruct (N.leb_spec 97 c), (N.leb_spec c 122); cbn [andb]; try tauto;
    destruct (N.leb_spec 97 p), (N.leb_spec p 122); cbn [andb In];
    try lia;
    destruct (N.eqb_spec p 105); [cbn [In]; lia|];
    destruct (N.eqb_spec p 107); [cbn [In]; lia|];
    destruct (N.eqb_spec p 115); cbn [In]; lia.
Qed.

Lemma ascii_lower_forms p c :
  ~ (65 <= p <= 90)%N ->
  In (ascii_lower c) (letter_forms p) <-> In c (letter_forms p).
Proof.
  intros Hp. unfold ascii_lower, letter_forms.
  destruct (N.leb_spec 65 c), (N.leb_spec c 90); cbn [andb]; try tauto;
    destruct (N.leb_spec 97 p), (N.leb_spec p 122); cbn [andb In];
    try lia;
    destruct (N.eqb_spec p 105); [cbn [In]; lia|];
    destruct (N.eqb_spec p 107); [cbn [In]; lia|];
    destruct (N.eqb_spec p 115); cbn [In]; lia.
Qed.

Lemma ascii_upper_space c :
  In (ascii_upper c) white_space <-> In c white_space.
Proof.
  unfold ascii_upper, white_space.
  destruct (N.leb_spec 97 c), (N.leb_spec c 122); cbn [andb In]; lia.
Qed.

Lemma ascii_lower_space c :
  In (ascii_lower c) white_space <-> In c white_space.
Proof.
  unfold ascii_lower, white_space.
  destruct (N.leb_spec 65 c), (N.leb_spec c 90); cbn [andb In]; lia.
Qed.

(** Letter case plays no part in what is deleted: cleaning a text in
    capital letters gives the cleaned text in capital letters, and the
    same in small letters. *)
Theorem clean_css_content_ignores_case (s : text) :
  clean_css_content (map ascii_upper s)
  = map ascii_upper (clean_css_content s) /\
  clean_css_content (map ascii_lower s)
  = map ascii_lower (clean_css_content s).
Proof.
  split.
  - apply clean_map; [apply ascii_upper_forms | apply ascii_upper_space].
  - apply clean_map; [apply ascii_lower_forms | apply ascii_lower_space].
Qed.

(** * [main] *)

Lemma count_lines_app f out1 out2 :
  count_lines f (out1 ++ out2) = count_lines f out1 + count_lines f out2.
Proof. unfold count_lines. by rewrite filter_app, length_app. Qed.

Lemma count_lines_none f out :
  Forall (fun l => f l = false) out -> count_lines f out = 0.
Proof.
  unfold count_lines. induction 1 as [|l out Hl _ IH]; [done|].
  rewrite filter_cons. case_decide; [congruence | done].
Qed.

Section Calls.

Context `{Platform}.

Lemma count_walk_lines transform env t f :
  (forall m, walk_msg m -> f (Sub m) = false) ->
  count_lines f (map Sub (ws_msgs (walk_result env transform t))) = 0.
Proof.
  intros Hf. apply count_lines_none, Forall_fmap, Forall_forall.
  intros m Hm. cbn. by apply Hf, (walk_msgs_only transform env t).
Qed.

Lemma call_line_walk m : walk_msg m -> is_call_line (Sub m) = false.
Proof. by destruct m. Qed.

Lemma success_line_walk m : walk_msg m -> is_success_line (Sub m) = false.
Proof. by destruct m. Qed.

(** What [main] relies on in a call of [process_epub_inplace]: it returns
    a boolean, touches the container and its temporary sibling only,
    leaves the container alone when it returns failure and the move writes
    nothing where it fails, and prints one opening line and, on success
    only, one closing line. *)
Lemma call_outcome transform env p w r w' :
  process_with transform env p w = (r, w') ->
  exists b, r = Returned b /\
    (forall q, q <> p -> q <> temp_output_name env p ->
               files w' !! q = files w !! q) /\
    (b = false ->
     (env_move_fault env = true -> env_copy_fault env = CopyFailOpen) ->
     files w' !! p = files w !! p) /\
    count_lines is_call_line (map Sub (printed w w')) = 1 /\
    count_lines is_success_line (map Sub (printed w w'))
    = (if b then 1 else 0).
Proof.
  intros Hrun%run_exit.
  assert (forall fs site,
            files_after_failure env p w site fs ->
            fs !! p = files w !! p) as Hkeep.
  { intros fs site Hf. eapply files_after_failure_other; [exact Hf|].
    intros E; by apply (temp_output_name_ne env p). }
  inversion Hrun; subst; rewrite printed_app by done; cbn [files];
    eexists; (split; [reflexivity|]);
    (split; [intros q Hq Hq'; try done;
             try (by eapply files_after_failure_other);
             try (by eapply files_after_move_failure_other);
             try (rewrite lookup_insert_ne by done; by rewrite lookup_delete_ne)|]);
    (split; [intros Hb Hmv; try done; try (by eapply Hkeep);
             try (match goal with
                    Hf : files_after_move_failure _ _ _ _ _,
                    Hl : move_leaves _ _ = Some _ |- _ =>
                      rewrite (files_after_move_failure_container _ _ _ _ _ Hf);
                      by rewrite (move_leaves_untouched _ _ _ Hl
                                    (Hmv (move_leaves_fault _ _ _ Hl)))
                  end)|]);
    rewrite ?map_app, ?count_lines_app,
      ?(count_walk_lines _ _ _ _ call_line_walk),
      ?(count_walk_lines _ _ _ _ success_line_walk);
    unfold rmtree_msgs;
    repeat match goal with
           | |- context [if ?b then _ else _] => destruct b
           | Ht : handler_tail _ |- _ => destruct Ht as [->| ->]
           end;
    by vm_compute.
Qed.

End Calls.

Section MainFacts.

Context `{Platform}.
Variable env : MainEnv.
Variable dir script : string.

(** One turn of the loop: the item is skipped, or it is selected and the
    call returns a boolean that is counted. *)
Lemma main_step_inv i itemname st :
  main_step env dir script i itemname st = inr st \/
  (selected dir script (st_world st) itemname /\
   exists b w',
     process_epub_inplace (process_env env i) (path_join dir itemname)
                          (st_world st) = (Returned b, w') /\
     main_step env dir script i itemname st
     = inr {| st_world := w';
              st_out := st_out st ++ map Sub (printed (st_world st) w');
              processed_count :=
                if b then S (processed_count st) else processed_count st;
              error_count := if b then error_count st else S (error_count st);
              found_epub := true |}).
Proof.
  unfold main_step.
  destruct (String.eqb itemname script) eqn:Es; [by left|].
  apply String.eqb_neq in Es.
  destruct (bool_decide (is_Some (files (st_world st) !! path_join dir itemname)))
    eqn:Ef; [|by left].
  apply bool_decide_eq_true in Ef.
  destruct (is_epub_name itemname) eqn:En; [|by left]. cbn [andb].
  right. split; [done|].
  destruct (process_epub_inplace (process_env env i) (path_join dir itemname)
              (st_world st)) as [r w'] eqn:Hrun.
  destruct (call_outcome _ _ _ _ _ _ Hrun) as (b & -> & _).
  exists b, w'. split; [done|]. by destruct b.
Qed.

Lemma main_loop_cons i itemname rest st :
  main_loop env dir script i (itemname :: rest) st
  = match main_step env dir script i itemname st with
    | inr st' => main_loop env dir script (S i) rest st'
    | inl r => inl r
    end.
Proof. reflexivity. Qed.

(** The loop runs to its end. *)
Lemma main_loop_ends all_items : forall i st,
  exists st', main_loop env dir script i all_items st = inr st'.
Proof.
  induction all_items as [|itemname rest IH]; intros i st; [by exists st|].
  rewrite main_loop_cons.
  destruct (main_step_inv i itemname st) as [->|(_ & b & w' & _ & ->)];
    apply IH.
Qed.

(** Whatever the loop changes on the disk is the container of a selected
    item or the temporary archive of its call. *)
Lemma main_loop_effect all_items q : forall i st st',
  main_loop env dir script i all_items st = inr st' ->
  files (st_world st') !! q <> files (st_world st) !! q ->
  exists k itemname,
    all_items !! k = Some itemname /\
    itemname <> script /\ is_epub_name itemname = true /\
    (q = path_join dir itemname \/
     q = temp_output_name (process_env env (i + k)) (path_join dir itemname)).
Proof.
  induction all_items as [|itemname rest IH]; intros i st st' Hloop Hq.
  - injection Hloop as <-. done.
  - rewrite main_loop_cons in Hloop.
    destruct (main_step_inv i itemname st)
      as [E|((Hs & Hn & _) & b & w' & Hrun & E)]; rewrite E in Hloop.
    + destruct (IH _ _ _ Hloop Hq) as (k & it & Hk & Hit).
      exists (S k), it. split; [done|]. by rewrite Nat.add_succ_r.
    + destruct (call_outcome _ _ _ _ _ _ Hrun) as (b' & _ & Hframe & _).
      destruct (decide (q = path_join dir itemname)) as [Hq1|Hq1].
      { exists 0, itemname. rewrite Nat.add_0_r. auto. }
      destruct (decide (q = temp_output_name (process_env env i)
                              (path_join dir itemname))) as [Hq2|Hq2].
      { exists 0, itemname. rewrite Nat.add_0_r. auto. }
      rewrite <- (Hframe q Hq1 Hq2) in Hq.
      destruct (IH _ _ _ Hloop Hq) as (k & it & Hk & Hit).
      exists (S k), it. split; [done|]. by rewrite Nat.add_succ_r.
Qed.

(** The loop prints nothing of its own, and its counters follow the
    opening and closing lines of the calls. *)
Lemma main_loop_counts all_items : forall i st st',
  main_loop env dir script i all_items st = inr st' ->
  exists msgs,
    st_out st' = st_out st ++ map Sub msgs /\
    processed_count st' + error_count st'
    = processed_count st + error_count st
      + count_lines is_call_line (map Sub msgs) /\
    processed_count st'
    = processed_count st + count_lines is_success_line (map Sub msgs) /\
    (found_epub st' = false ->
     found_epub st = false /\ msgs = [] /\
     processed_count st' = processed_count st /\
     error_count st' = error_count st).
Proof.
  induction all_items as [|itemname rest IH]; intros i st st' Hloop.
  - injection Hloop as <-. exists []. rewrite app_nil_r. cbn.
    split; [done|]. split; [lia|]. split; [lia|]. done.
  - rewrite main_loop_cons in Hloop.
    destruct (main_step_inv i itemname st)
      as [E|(_ & b & w' & Hrun & E)]; rewrite E in Hloop.
    + by apply (IH (S i)).
    + destruct (IH _ _ _ Hloop) as (msgs & Hout & Hcalls & Hok & Hnone).
      cbn [st_out processed_count error_count found_epub] in *.
      destruct (call_outcome _ _ _ _ _ _ Hrun) as (b' & [= <-] & _ & _ & H1 & H2).
      exists (printed (st_world st) w' ++ msgs).
      rewrite Hout, map_app, <- app_assoc, !count_lines_app, H1, H2.
      split; [done|]. split; [destruct b; lia|]. split; [destruct b; lia|].
      intros Hf. by destruct (Hnone Hf).
Qed.

End MainFacts.

(** ** [get_script_directory] *)

Lemma abspath_raises env p e :
  abspath env p = inl e -> e = OSErrorGetcwd /\ os_getcwd env = None.
Proof.
  unfold abspath. destruct (isabs p); [done|].
  destruct (os_getcwd env); [done|]. by intros [= <-].
Qed.

Lemma get_script_directory_prints env r out :
  get_script_directory env = (r, out) ->
  out = [] \/ out = [Own MsgCwdFallback].
Proof.
  unfold get_script_directory.
  destruct (sys_frozen env); [intros [= <- <-]; by left|].
  destruct (dunder_file env) as [file|].
  - destruct (abspath env file) as [e|p] eqn:Ea; [|intros [= <- <-]; by left].
    apply abspath_raises in Ea as [-> _]. intros [= <- <-]. by left.
  - destruct (sys_argv env) as [|argv0 rest].
    + destruct (os_getcwd env); intros [= <- <-]; by right.
    + destruct (abspath env argv0) as [e|p];
        [|intros [= <- <-]; by left].
      destruct (os_getcwd env); intros [= <- <-]; by right.
Qed.

(** The one exception that leaves [get_script_directory] is the one
    [os.getcwd()] raises, and only outside a frozen executable: a missing
    [__file__] and an empty [sys.argv] are caught. *)
Theorem get_script_directory_raises env e out :
  get_script_directory env = (inl e, out) ->
  e = OSErrorGetcwd /\ sys_frozen env = false /\ os_getcwd env = None.
Proof.
  unfold get_script_directory.
  destruct (sys_frozen env); [done|].
  destruct (dunder_file env) as [file|].
  - destruct (abspath env file) as [e'|p] eqn:Ea; [|done].
    apply abspath_raises in Ea as [-> Hcwd]. by intros [= <- <-].
  - destruct (sys_argv env) as [|argv0 rest].
    + destruct (os_getcwd env); [done|]. by intros [= <- <-].
    + destruct (abspath env argv0) as [e'|p]; [|done].
      destruct (os_getcwd env); [done|]. by intros [= <- <-].
Qed.

(** ** The whole of [main] *)

Lemma main_summary_world st : st_world (main_summary st) = st_world st.
Proof.
  unfold main_summary, say. cbn [found_epub error_count].
  destruct (found_epub st); [|done]. cbn [negb].
  by destruct (0 <? error_count st).
Qed.

Section MainTheorems.

Context `{Platform}.
Variable env : MainEnv.

Lemma after_input_out st r st' :
  after_input (input env st) = (r, st') ->
  st_world st' = st_world st /\ st_out st' = st_out st ++ [Own MsgPrompt].
Proof.
  unfold input, after_input. destruct (input_eof env); by intros [= _ <-].
Qed.

End MainTheorems.

(** [main] changes no file but the containers it selects and the
    temporary archives of their calls: a file that differs after [main]
    is an item of the listing of the script directory that is not the
    script and has the extension [.epub] in any letter case, or the
    temporary sibling of one. *)
Theorem main_touches_only_containers `{Platform} env w r st q :
  main env w = (r, st) ->
  files (st_world st) !! q <> files w !! q ->
  exists d out all_items argv0 rest k itemname,
    get_script_directory env = (inr d, out) /\
    os_listdir env d = Some all_items /\
    sys_argv env = argv0 :: rest /\
    all_items !! k = Some itemname /\
    itemname <> basename argv0 /\ is_epub_name itemname = true /\
    (q = path_join d itemname \/
     q = temp_output_name (process_env env k) (path_join d itemname)).
Proof.
  unfold main.
  destruct (get_script_directory env) as [[e0|d] out] eqn:Eg.
  - intros [= _ <-]. done.
  - destruct (os_listdir env d) as [all_items|] eqn:El.
    + destruct (sys_argv env) as [|argv0 rest]; [intros [= _ <-]; done|].
      match goal with |- context [main_loop ?e ?a ?b ?i ?l ?s] =>
        destruct (main_loop_ends e a b l i s) as [st' Hloop]; rewrite Hloop
      end.
      intros [Hw _]%after_input_out Hq. rewrite Hw in Hq.
      rewrite main_summary_world in Hq.
      destruct (main_loop_effect _ _ _ _ q _ _ _ Hloop Hq)
        as (k & it & Hk & Hne & Hn & Hcase).
      by exists d, out, all_items, argv0, rest, k, it.
    + intros [Hw _]%after_input_out Hq. by rewrite Hw in Hq.
Qed.

Lemma main_summary_out st :
  st_out (main_summary st) = st_out st ++ map Own (summary_lines st).
Proof.
  unfold main_summary, summary_lines, say.
  cbn [found_epub error_count processed_count st_out].
  destruct (found_epub st); cbn [negb]; [|by rewrite <- app_assoc].
  destruct (0 <? error_count st); cbn [st_out];
    by rewrite <- !app_assoc.
Qed.

Lemma main_summary_counters st :
  processed_count (main_summary st) = processed_count st /\
  error_count (main_summary st) = error_count st.
Proof.
  unfold main_summary, say. cbn [found_epub error_count processed_count].
  destruct (found_epub st); cbn [negb]; [|done].
  by destruct (0 <? error_count st).
Qed.

Lemma count_lines_own f msgs :
  (forall m, f (Own m) = false) -> count_lines f (map Own msgs) = 0.
Proof.
  intros Hf. apply count_lines_none, Forall_fmap, Forall_forall.
  intros m _. apply Hf.
Qed.

Lemma own_in_own m msgs : Own m ∈ map Own msgs <-> m ∈ msgs.
Proof.
  rewrite list_elem_of_fmap. split.
  - by intros (m' & [= <-] & Hin).
  - intros Hin. by exists m.
Qed.

Lemma own_not_in_sub m msgs : Own m ∉ map Sub msgs.
Proof. rewrite list_elem_of_fmap. by intros (m' & E & _). Qed.

(** The output of a run of [main] that reaches the loop: its own opening
    lines, the lines of the calls, the summary and the prompt. *)
Lemma main_out_shape `{Platform} env w r st d gout all_items argv0 rest :
  get_script_directory env = (inr d, gout) ->
  os_listdir env d = Some all_items ->
  sys_argv env = argv0 :: rest ->
  main env w = (r, st) ->
  exists pre msgs st',
    st_out st = map Own pre ++ map Sub msgs
                ++ map Own (summary_lines st') ++ [Own MsgPrompt] /\
    (forall m, m ∈ pre ->
       m = MsgCwdFallback \/ m = MsgScanning d \/ m = MsgRemoving \/
       m = MsgBackupWarning \/ m = MsgRule) /\
    processed_count st' + error_count st'
    = count_lines is_call_line (map Sub msgs) /\
    processed_count st' = count_lines is_success_line (map Sub msgs) /\
    (found_epub st' = false -> msgs = []).
Proof.
  intros Eg El Ea. unfold main. rewrite Eg, El, Ea.
  match goal with |- context [main_loop ?e ?a ?b ?i ?l ?s] =>
    destruct (main_loop_ends e a b l i s) as [st' Hloop]; rewrite Hloop
  end.
  intros [_ Hout]%after_input_out.
  destruct (main_loop_counts _ _ _ _ _ _ _ Hloop)
    as (msgs & Hout' & Hcalls & Hok & Hnone).
  cbn [say st_out processed_count error_count found_epub] in *.
  exists (match gout with [] => [] | _ => [MsgCwdFallback] end
          ++ [MsgScanning d; MsgRemoving; MsgBackupWarning; MsgRule]),
         msgs, st'.
  split; [|split; [|split; [lia|split; [lia|]]]].
  - rewrite Hout, main_summary_out, Hout'.
    destruct (get_script_directory_prints _ _ _ Eg) as [-> | ->];
      cbn [map app]; by rewrite <- !app_assoc.
  - intros m Hm. apply elem_of_app in Hm as [Hm|Hm].
    + destruct gout; [by apply elem_of_nil in Hm|].
      apply list_elem_of_singleton in Hm. auto.
    + rewrite !elem_of_cons in Hm. rewrite elem_of_nil in Hm. tauto.
  - intros Hf. by destruct (Hnone Hf) as (_ & -> & _).
Qed.

Ltac no_such_line :=
  let n := fresh "n" in let Hn := fresh "Hn" in
  intros n Hn || intros Hn;
  repeat (apply elem_of_cons in Hn as [Hn|Hn]; [discriminate Hn|]);
  by apply elem_of_nil in Hn.

Lemma call_line_own m : is_call_line (Own m) = false.
Proof. done. Qed.

Lemma success_line_own m : is_success_line (Own m) = false.
Proof. done. Qed.

(** The summary tells the truth about the calls: the number of files it
    reports as attempted is the number of calls that were opened, the
    number it reports as processed is the number of calls that closed with
    success, the two and the number of failures add up, and it reports
    that no EPUB was found only when no call was made. *)
Theorem main_summary_counts `{Platform} env w r st :
  main env w = (r, st) ->
  (forall n, Own (MsgAttempted n) ∈ st_out st ->
             n = count_lines is_call_line (st_out st)) /\
  (forall n, Own (MsgSucceeded n) ∈ st_out st ->
             n = count_lines is_success_line (st_out st)) /\
  (forall n, Own (MsgFailed n) ∈ st_out st ->
             n + count_lines is_success_line (st_out st)
             = count_lines is_call_line (st_out st)) /\
  (Own MsgNoEpub ∈ st_out st -> count_lines is_call_line (st_out st) = 0).
Proof.
  intros Hmain.
  destruct (get_script_directory env) as [[e0|d] gout] eqn:Eg.
  { unfold main in Hmain. rewrite Eg in Hmain. injection Hmain as _ <-.
    destruct (get_script_directory_prints _ _ _ Eg) as [-> | ->];
      cbn; repeat split; no_such_line. }
  destruct (os_listdir env d) as [all_items|] eqn:El; cycle 1.
  { unfold main in Hmain. rewrite Eg, El in Hmain.
    apply after_input_out in Hmain as [_ ->].
    destruct (get_script_directory_prints _ _ _ Eg) as [-> | ->];
      cbn; repeat split; no_such_line. }
  destruct (sys_argv env) as [|argv0 rest] eqn:Ea.
  { unfold main in Hmain. rewrite Eg, El, Ea in Hmain. injection Hmain as _ <-.
    destruct (get_script_directory_prints _ _ _ Eg) as [-> | ->];
      cbn; repeat split; no_such_line. }
  destruct (main_out_shape _ _ _ _ _ _ _ _ _ Eg El Ea Hmain)
    as (pre & msgs & st' & -> & Hpre & Hcalls & Hok & Hnone).
  assert (forall f, (forall m, f (Own m) = false) ->
            count_lines f (map Own pre ++ map Sub msgs
                           ++ map Own (summary_lines st') ++ [Own MsgPrompt])
            = count_lines f (map Sub msgs)) as Hcount.
  { intros f Hf. change [Own MsgPrompt] with (map Own [MsgPrompt]).
    rewrite !count_lines_app, !count_lines_own by done. lia. }
  rewrite (Hcount _ call_line_own), (Hcount _ success_line_own).
  assert (forall m, Own m ∈ map Own pre ++ map Sub msgs
                      ++ map Own (summary_lines st') ++ [Own MsgPrompt] ->
            m ∈ pre \/ m ∈ summary_lines st' \/ m = MsgPrompt) as Hin.
  { intros m. rewrite !elem_of_app, !own_in_own, list_elem_of_singleton.
    intros [?|[Hs|[?|[= ->]]]]; auto. by apply own_not_in_sub in Hs. }
  unfold summary_lines in Hin.
  repeat split.
  - intros n Hn. destruct (Hin _ Hn) as [Hp|[Hs|?]]; [|clear Hin|done].
    { by destruct (Hpre _ Hp) as [?|[?|[?|[?|?]]]]. }
    destruct (found_epub st').
    + apply elem_of_app in Hs as [Hs|Hs].
      * rewrite !elem_of_cons, elem_of_nil in Hs.
        destruct Hs as [?|[?|[[= ->]|[?|[?|[]]]]]]; try done; try lia.
      * destruct (0 <? error_count st'); [|by apply elem_of_nil in Hs].
        by apply list_elem_of_singleton in Hs.
    + rewrite !elem_of_cons, elem_of_nil in Hs. by destruct Hs as [?|[?|[]]].
  - intros n Hn. destruct (Hin _ Hn) as [Hp|[Hs|?]]; [|clear Hin|done].
    { by destruct (Hpre _ Hp) as [?|[?|[?|[?|?]]]]. }
    destruct (found_epub st').
    + apply elem_of_app in Hs as [Hs|Hs].
      * rewrite !elem_of_cons, elem_of_nil in Hs.
        destruct Hs as [?|[?|[?|[[= ->]|[?|[]]]]]]; try done.
      * destruct (0 <? error_count st'); [|by apply elem_of_nil in Hs].
        by apply list_elem_of_singleton in Hs.
    + rewrite !elem_of_cons, elem_of_nil in Hs. by destruct Hs as [?|[?|[]]].
  - intros n Hn. destruct (Hin _ Hn) as [Hp|[Hs|?]]; [|clear Hin|done].
    { by destruct (Hpre _ Hp) as [?|[?|[?|[?|?]]]]. }
    destruct (found_epub st').
    + apply elem_of_app in Hs as [Hs|Hs].
      * rewrite !elem_of_cons, elem_of_nil in Hs.
        destruct Hs as [?|[?|[?|[?|[[= ->]|[]]]]]]; try done; try lia.
      * destruct (0 <? error_count st'); [|by apply elem_of_nil in Hs].
        by apply list_elem_of_singleton in Hs.
    + rewrite !elem_of_cons, elem_of_nil in Hs. by destruct Hs as [?|[?|[]]].
  - intros Hn. destruct (Hin _ Hn) as [Hp|[Hs|?]]; [|clear Hin|done].
    { by destruct (Hpre _ Hp) as [?|[?|[?|[?|?]]]]. }
    destruct (found_epub st') eqn:Ef.
    + apply elem_of_app in Hs as [Hs|Hs].
      * rewrite !elem_of_cons, elem_of_nil in Hs.
        destruct Hs as [?|[?|[?|[?|[?|[]]]]]]; done.
      * destruct (0 <? error_count st'); [|by apply elem_of_nil in Hs].
        by apply list_elem_of_singleton in Hs.
    + by rewrite (Hnone eq_refl).
Qed.

(** ** A container counted as failed *)

Lemma str_app_inv_head s a b : s +:+ a = s +:+ b -> a = b.
Proof. induction s as [|c s IH]; [done|]. intros [= E]. auto. Qed.

Lemma last_char_lower s : last_char (str_lower s) = to_lower <$> last_char s.
Proof.
  induction s as [|c s IH]; [done|].
  cbn [str_lower last_char]. rewrite IH. by destruct (last_char s).
Qed.

Lemma epub_name_last itemname :
  is_epub_name itemname = true ->
  exists c, last_char itemname = Some c /\ to_lower c = "b"%char.
Proof.
  intros Hn. unfold is_epub_name in Hn.
  apply str_endswith_last in Hn; [|done].
  rewrite last_char_lower in Hn.
  destruct (last_char itemname) as [c|]; [|done].
  exists c. split; [done|]. by injection Hn.
Qed.

Lemma temp_output_name_last env p :
  last_char (temp_output_name env p) = Some "p"%char.
Proof.
  unfold temp_output_name. rewrite !last_char_app; try done.
  - by destruct (env_uuid4 env).
Qed.

Lemma path_join_last dir itemname :
  itemname <> EmptyString ->
  last_char (path_join dir itemname) = last_char itemname.
Proof.
  intros Hi. unfold path_join. destruct (isabs itemname); [done|].
  destruct (String.eqb dir "" || str_endswith dir "/").
  - by apply last_char_app.
  - rewrite last_char_app; [by apply last_char_app|].
    by destruct itemname.
Qed.

(** The path of an item with the extension [.epub] is no temporary
    archive: those end in [.tmpzip]. *)
Lemma container_is_no_temp dir itemname env p :
  is_epub_name itemname = true ->
  path_join dir itemname <> temp_output_name env p.
Proof.
  intros (c & Hc & Hb)%epub_name_last E.
  apply (f_equal last_char) in E.
  rewrite temp_output_name_last, path_join_last, Hc in E.
  - injection E as ->. vm_compute in Hb. discriminate Hb.
  - intros ->. done.
Qed.

Lemma slash_free_not_abs s : slash_free s = true -> isabs s = false.
Proof.
  destruct s as [|c s]; [done|]. cbn.
  intros [Hc _]%andb_true_iff. by apply negb_true_iff in Hc.
Qed.

(** Plain names of one directory have distinct paths. *)
Lemma path_join_inj dir i1 i2 :
  slash_free i1 = true -> slash_free i2 = true ->
  path_join dir i1 = path_join dir i2 -> i1 = i2.
Proof.
  intros H1 H2. unfold path_join.
  rewrite !slash_free_not_abs by done.
  destruct (String.eqb dir "" || str_endswith dir "/").
  - apply str_app_inv_head.
  - intros E. by apply str_app_inv_head, str_app_inv_head in E.
Qed.

Section FailedContainer.

Context `{Platform}.
Variable env : MainEnv.
Variable dir script : string.

(** The loop leaves a file alone that is neither the container nor the
    temporary archive of a call it makes. *)
Lemma main_loop_keeps p all_items : forall i st st',
  main_loop env dir script i all_items st = inr st' ->
  (forall k itemname,
     all_items !! k = Some itemname -> is_epub_name itemname = true ->
     p <> path_join dir itemname /\
     p <> temp_output_name (process_env env (i + k)) (path_join dir itemname)) ->
  files (st_world st') !! p = files (st_world st) !! p.
Proof.
  induction all_items as [|itemname rest IH]; intros i st st' Hloop Hp.
  - by injection Hloop as <-.
  - rewrite main_loop_cons in Hloop.
    assert (forall k it, rest !! k = Some it -> is_epub_name it = true ->
              p <> path_join dir it /\
              p <> temp_output_name (process_env env (S i + k))
                     (path_join dir it)) as Hrest.
    { intros k it Hk Hn. destruct (Hp (S k) it Hk Hn) as [? ?].
      by rewrite Nat.add_succ_r in *. }
    destruct (main_step_inv env dir script i itemname st)
      as [E|((_ & Hn & _) & b & w' & Hrun & E)]; rewrite E in Hloop.
    + by apply (IH (S i)).
    + rewrite (IH _ _ _ Hloop Hrest). cbn [st_world].
      destruct (call_outcome _ _ _ _ _ _ Hrun) as (b' & _ & Hframe & _).
      destruct (Hp 0 itemname eq_refl Hn) as [Hp1 Hp2].
      rewrite Nat.add_0_r in Hp2. by apply Hframe.
Qed.

End FailedContainer.

(** A container that [main] counts as failed is left as it was, unless
    the move of its call wrote to it before failing: in a listing of
    distinct plain names, when the turn of the loop for an item raises the
    failure count, and [shutil.move] in that turn either renames or fails
    before it opens the container, the file of that item has at the end of
    the loop the bytes it had at its beginning. *)
Theorem failed_container_is_left_alone `{Platform} env dir script
    l1 itemname l2 st0 st1 st2 st3 :
  NoDup (l1 ++ itemname :: l2) ->
  Forall (fun it => slash_free it = true) (l1 ++ itemname :: l2) ->
  (env_move_fault (process_env env (length l1)) = true ->
   env_copy_fault (process_env env (length l1)) = CopyFailOpen) ->
  main_loop env dir script 0 l1 st0 = inr st1 ->
  main_step env dir script (length l1) itemname st1 = inr st2 ->
  error_count st2 = S (error_count st1) ->
  main_loop env dir script (S (length l1)) l2 st2 = inr st3 ->
  files (st_world st3) !! path_join dir itemname
  = files (st_world st0) !! path_join dir itemname.
Proof.
  intros Hnd Hplain Hmv H1 H2 He H3.
  apply NoDup_app in Hnd as (_ & Hl1 & Hnd).
  apply NoDup_cons in Hnd as [Hl2 _].
  apply Forall_app in Hplain as [Hp1 Hp2].
  apply Forall_cons in Hp2 as [Hpi Hp2].
  rewrite Forall_forall in Hp1, Hp2.
  destruct (main_step_inv env dir script (length l1) itemname st1)
    as [E|((_ & Hn & _) & b & w' & Hrun & E)]; rewrite E in H2;
    injection H2 as <-; [lia|].
  cbn [error_count st_world] in *.
  destruct b; [lia|].
  assert (forall i it, it <> itemname ->
            slash_free it = true -> is_epub_name it = true ->
            path_join dir itemname <> path_join dir it /\
            path_join dir itemname
            <> temp_output_name (process_env env i) (path_join dir it))
    as Hother.
  { intros i it Hne Hs Hit. split.
    - intros E'. by apply path_join_inj in E'.
    - by apply container_is_no_temp. }
  rewrite (main_loop_keeps env dir script _ _ _ _ _ H3); cycle 1.
  { intros k it Hk Hit.
    assert (it ∈ l2) as Hin by (by eapply list_elem_of_lookup_2).
    apply Hother; try done; [|by apply Hp2].
    intros ->. done. }
  cbn [st_world].
  destruct (call_outcome _ _ _ _ _ _ Hrun) as (b' & [= <-] & _ & Hkeep & _).
  rewrite (Hkeep eq_refl Hmv).
  apply (main_loop_keeps env dir script _ _ _ _ _ H1).
  intros k it Hk Hit.
  assert (it ∈ l1) as Hin by (by eapply list_elem_of_lookup_2).
  apply Hother; try done; [|by apply Hp1].
  intros ->. by apply (Hl1 itemname); [|left].
Qed.

(** ** The further properties at work *)

Lemma other_files_untouched_witness :
  files (process_epub_inplace calm "/books/a.epub" ToyMain.books).2
    !! "/books/notes.txt"%string
  = files ToyMain.books !! "/books/notes.txt"%string.
Proof.
  apply (other_files_untouched clean_css_content calm "/books/a.epub"
           ToyMain.books
           (process_epub_inplace calm "/books/a.epub" ToyMain.books).1
           (process_epub_inplace calm "/books/a.epub" ToyMain.books).2).
  - apply surjective_pairing.
  - discriminate.
  - vm_compute. discriminate.
Defined.

Lemma missing_container_fails_witness :
  (process_epub_inplace calm "/books/none.epub" ToyMain.books).1
  = Returned false /\
  files (process_epub_inplace calm "/books/none.epub" ToyMain.books).2
  = files ToyMain.books.
Proof.
  destruct (missing_container_fails clean_css_content calm "/books/none.epub"
              ToyMain.books
              (process_epub_inplace calm "/books/none.epub" ToyMain.books).1
              (process_epub_inplace calm "/books/none.epub" ToyMain.books).2)
    as (Hr & Hf & _).
  - vm_compute; reflexivity.
  - apply surjective_pairing.
  - by split.
Defined.

Lemma no_scratch_directory_fails_witness :
  (process_epub_inplace ToyMain.no_tmp "book.epub" book_disk).1
  = Returned false.
Proof.
  unfold process_epub_inplace.
  rewrite (no_scratch_directory_fails clean_css_content ToyMain.no_tmp
             "book.epub" book_disk); reflexivity.
Defined.

Lemma move_failure_handled_witness :
  (process_epub_inplace move_fails "book.epub" book_disk).1 = Returned false /\
  files (process_epub_inplace move_fails "book.epub" book_disk).2
    !! "book.epub.0f8b.tmpzip"%string = None.
Proof.
  destruct (move_failure_handled clean_css_content move_fails "book.epub"
              book_disk
              (process_epub_inplace move_fails "book.epub" book_disk).1
              (process_epub_inplace move_fails "book.epub" book_disk).2)
    as (Hr & _ & _ & _ & Hgone).
  - apply surjective_pairing.
  - in_literal.
  - split; [exact Hr|]. apply Hgone. intros (Hx & _). discriminate Hx.
Defined.

Lemma replaced_only_when_cleaned_witness :
  exists q,
    css_path q /\
    MsgCleaned q
    ∈ printed book_disk (process_epub_inplace calm "book.epub" book_disk).2.
Proof.
  apply (replaced_only_when_cleaned clean_css_content calm "book.epub"
           book_disk (process_epub_inplace calm "book.epub" book_disk).1).
  - apply surjective_pairing.
  - in_literal.
Defined.




Lemma repacked_names_are_distinct_witness :
  exists out,
    files (process_epub_inplace calm "book.epub" book_disk).2
      !! "book.epub"%string = Some (zip_bytes out) /\
    NoDup (map filename out).
Proof.
  apply (repacked_names_are_distinct clean_css_content calm "book.epub"
           book_disk (process_epub_inplace calm "book.epub" book_disk).1).
  - apply surjective_pairing.
  - in_literal.
Defined.

Lemma text_without_declaration_unchanged_witness :
  clean_css_content (txt "p { color: red }") = txt "p { color: red }".
Proof.
  apply text_without_declaration_unchanged. right.
  intros Hin. apply list_elem_of_In in Hin. vm_compute in Hin.
  repeat (destruct Hin as [Hin|Hin]; [discriminate Hin|]). exact Hin.
Defined.

Lemma get_script_directory_raises_witness :
  sys_frozen ToyMain.lost_env = false /\ os_getcwd ToyMain.lost_env = None.
Proof.
  destruct (get_script_directory_raises ToyMain.lost_env OSErrorGetcwd
              [Own MsgCwdFallback] eq_refl) as (_ & Hf & Hc).
  by split.
Defined.

Lemma main_touches_only_containers_witness :
  exists d out all_items argv0 rest k itemname,
    get_script_directory ToyMain.books_env = (inr d, out) /\
    os_listdir ToyMain.books_env d = Some all_items /\
    sys_argv ToyMain.books_env = argv0 :: rest /\
    all_items !! k = Some itemname /\
    itemname <> basename argv0 /\ is_epub_name itemname = true /\
    ("/books/a.epub"%string = path_join d itemname \/
     "/books/a.epub"%string
     = temp_output_name (process_env ToyMain.books_env k)
         (path_join d itemname)).
Proof.
  apply (main_touches_only_containers ToyMain.books_env ToyMain.books
           (main ToyMain.books_env ToyMain.books).1
           (main ToyMain.books_env ToyMain.books).2).
  - apply surjective_pairing.
  - vm_compute. discriminate.
Defined.

Lemma main_summary_counts_witness :
  Own (MsgAttempted 2) ∈ st_out (main ToyMain.books_env ToyMain.books).2 /\
  2 = count_lines is_call_line
        (st_out (main ToyMain.books_env ToyMain.books).2).
Proof.
  destruct (main_summary_counts ToyMain.books_env ToyMain.books
              (main ToyMain.books_env ToyMain.books).1
              (main ToyMain.books_env ToyMain.books).2
              (surjective_pairing _)) as (Hattempted & _).
  split; [in_literal|]. apply Hattempted. in_literal.
Defined.

Lemma failed_container_is_left_alone_witness :
  files (st_world
           (state_of
              (main_loop ToyMain.books_env "/books" "clean_epub_css.py" 0
                 ["clean_epub_css.py"; "a.epub"; "notes.txt"; "B.EPUB"]%string
                 ToyMain.start) ToyMain.start))
    !! "/books/B.EPUB"%string
  = files ToyMain.books !! "/books/B.EPUB"%string.
Proof.
  pose (st1 := state_of
                 (main_loop ToyMain.books_env "/books" "clean_epub_css.py" 0
                    ["clean_epub_css.py"; "a.epub"; "notes.txt"]%string
                    ToyMain.start) ToyMain.start).
  pose (st2 := state_of
                 (main_step ToyMain.books_env "/books" "clean_epub_css.py" 3
                    "B.EPUB" st1) st1).
  assert (state_of
            (main_loop ToyMain.books_env "/books" "clean_epub_css.py" 0
               ["clean_epub_css.py"; "a.epub"; "notes.txt"; "B.EPUB"]%string
               ToyMain.start) ToyMain.start = st2) as ->
    by (vm_compute; reflexivity).
  apply (failed_container_is_left_alone ToyMain.books_env "/books"
           "clean_epub_css.py"
           ["clean_epub_css.py"; "a.epub"; "notes.txt"]%string
           "B.EPUB" [] ToyMain.start st1 st2 st2).
  - repeat (apply NoDup_cons_2;
              [intros Hin; apply list_elem_of_In in Hin; simpl in Hin;
               repeat (destruct Hin as [Hin|Hin]; [discriminate Hin|]);
               exact Hin|]).
    apply NoDup_nil_2.
  - repeat constructor.
  - intros Hx. vm_compute in Hx. discriminate Hx.
  - vm_compute; reflexivity.
  - vm_compute; reflexivity.
  - vm_compute; reflexivity.
  - reflexivity.
Defined.
